(** * Policy Intelligence API: retrieval and generation pipeline

    A shallow embedding of the services of [app/services] and of the
    request handler of [app/main.py], with the properties of the
    retrieval-and-orchestration pipeline proved against it.

    Conventions of the embedding.
    - A Python [float] is a finite IEEE 754 binary64 number.  It is
      written as a rational of [Q], which stands for the binary64 number
      nearest to it, as a decimal literal does in Python; the arithmetic
      and the comparisons of [Module Float] round as binary64 does (to
      nearest, ties to even).  Infinities, NaN and results beyond the
      largest binary64 number are outside the embedding.
    - A Python [str] is a [string]; a character stands for a code point
      below 256.
    - The services are module-level singletons mutated in place: their
      [_initialized] flags live in one record, [Services], threaded through
      a state-and-exception monad, together with the chronological list of
      observable events (log lines, calls into the external back ends,
      metric updates).
    - The external collaborators (SentenceTransformer, ChromaDB, the causal
      language model) are not part of the repository: what they answer is
      given by a record [Env].
    - An [await] inside a service is a suspension point; the sequential
      functions run one request alone, and [Module Asyncio] interleaves
      several callers at these points. *)

From Stdlib Require Import QArith Qround Qpower ZArith String Ascii List Bool.
From Stdlib Require Import Lia Lqa Sorted.
From stdpp Require Import base option list gmap strings.

Import ListNotations.
Local Open Scope string_scope.
Local Open Scope list_scope.

(** ** Python floats *)

(** A rational stands for the binary64 number nearest to it: [round]
    gives that number, and is the identity on the binary64 numbers.  The
    operations read their operands through [round], so that [1 # 10] is
    the float that Python writes [0.1], and round their result. *)
Module Float.

Definition pow2 (e : Z) : Q := (2 ^ e)%Q.

(** The exponent of the leading bit of a positive rational:
    [pow2 (ilog2 x) <= x < pow2 (ilog2 x + 1)]. *)
Definition ilog2 (x : Q) : Z :=
  let k := (Z.log2 (Qnum x) - Z.log2 (Z.pos (Qden x)))%Z in
  if Qle_bool (pow2 k) x then k else (k - 1)%Z.

(** The exponent of the unit in the last place of the binary64 numbers
    around [x]: 53 significant bits for the normal numbers, [2 ^ -1074]
    for the subnormal ones. *)
Definition ulp_exponent (x : Q) : Z := Z.max (ilog2 x - 52) (-1074).

(** The nearest integer, a tie going to the even one. *)
Definition nearest_even (x : Q) : Z :=
  let n := Qfloor x in
  match (x - inject_Z n ?= 1 # 2)%Q with
  | Lt => n
  | Gt => (n + 1)%Z
  | Eq => if Z.even n then n else (n + 1)%Z
  end.

Definition round_positive (x : Q) : Q :=
  let u := pow2 (ulp_exponent x) in
  (inject_Z (nearest_even (x / u)) * u)%Q.

(** The binary64 number nearest to [x], in lowest terms. *)
Definition round (x : Q) : Q :=
  Qred (match (x ?= 0)%Q with
        | Eq => 0
        | Gt => round_positive x
        | Lt => - round_positive (- x)
        end).

(** [x - y] on floats. *)
Definition sub (x y : Q) : Q := round (round x - round y).

(** [x <= y] on floats; [y >= x] is the same test. *)
Definition leb (x y : Q) : bool := Qle_bool (round x) (round y).

End Float.

(** ** Exceptions *)

(** [Exception cls msg] is an exception of class [cls] whose [str(e)] is
    [msg]; [HTTPException] is FastAPI's. *)
Inductive exn : Type :=
  | Exception (cls : string) (msg : string)
  | HTTPException (status_code : Z) (detail : string).

Definition str_exn (e : exn) : string :=
  match e with
  | Exception _ msg => msg
  | HTTPException _ detail => detail
  end.

Inductive Outcome (A : Type) : Type :=
  | Return (a : A)
  | Raise (e : exn).
Arguments Return {A} a.
Arguments Raise {A} e.

(** ** Observable events *)

Inductive Event : Type :=
  | Log (level : string) (msg : string)
  | SentenceTransformer_load
  | Model_encode (texts : list string)
  | Chroma_PersistentClient
  | Chroma_get_collection
  | Chroma_create_collection
  | Chroma_query (query_embeddings : list (list Q)) (n_results : Z)
  | LLM_from_pretrained
  | LLM_generate (prompt : string) (max_new_tokens : Z)
  | Metric_inc (name : string)
  | Metric_observe (name : string).

(** ** The singletons *)

Record Services : Type := mkServices {
  embedding_initialized : bool;
  vector_store_initialized : bool;
  generation_initialized : bool;
  events : list Event
}.

Definition fresh_services : Services :=
  mkServices false false false [].

Definition ready_services : Services :=
  mkServices true true true [].

(** ** The state-and-exception monad *)

Definition M (A : Type) : Type := Services -> Outcome A * Services.

Definition ret {A} (a : A) : M A := fun s => (Return a, s).

Definition bind {A B} (m : M A) (k : A -> M B) : M B :=
  fun s =>
    match m s with
    | (Return a, s') => k a s'
    | (Raise e, s') => (Raise e, s')
    end.

Definition raise {A} (e : exn) : M A := fun s => (Raise e, s).

Notation "x <- m ;; k" := (bind m (fun x => k))
  (at level 100, m at next level, right associativity).
Notation "m ;;; k" := (bind m (fun _ => k))
  (at level 100, right associativity).

Definition emit (ev : Event) : M unit :=
  fun s =>
    (Return tt,
     mkServices (embedding_initialized s) (vector_store_initialized s)
                (generation_initialized s) (events s ++ [ev])).

Definition logger (level msg : string) : M unit := emit (Log level msg).

(** A call into an external back end: the call is recorded, and its
    outcome is what the environment says. *)
Definition call {A} (ev : Event) (r : Outcome A) : M A :=
  emit ev ;;;
  match r with
  | Return a => ret a
  | Raise e => raise e
  end.

Definition when_ (b : bool) (m : M unit) : M unit :=
  if b then m else ret tt.

(** ** External collaborators *)

(** The answer of [collection.query]: column-oriented, one inner list per
    query embedding. *)
Record QueryResult : Type := mkQueryResult {
  ids : list (list string);
  distances : list (list Q);
  documents : list (list string);
  metadatas : list (list (gmap string string))
}.

(** [PolicyClause_error score] is [str(e)] of the [ValidationError] that
    pydantic raises for a [relevance_score] out of its bounds. *)
Record Env : Type := mkEnv {
  SentenceTransformer : Outcome unit;
  model_encode : list string -> Outcome (list (list Q));
  PersistentClient : Outcome unit;
  get_collection : Outcome unit;
  create_collection : Outcome unit;
  collection_query : list (list Q) -> Z -> Outcome QueryResult;
  from_pretrained : Outcome unit;
  generate_and_decode : string -> Outcome string;
  PolicyClause_error : Q -> string
}.

(** ** [app/metrics.py] *)

Definition track (counter histogram : string) {A} (func : M A) : M A :=
  fun s =>
    match func s with
    | (Return result, s') =>
        (emit (Metric_inc counter) ;;; emit (Metric_observe histogram) ;;;
         ret result) s'
    | (Raise e, s') =>
        (emit (Metric_observe histogram) ;;; raise e) s'
    end.

Definition track_embedding_operation {A} : M A -> M A :=
  track "embedding_operations_total" "embedding_duration_seconds".

Definition track_vector_search {A} : M A -> M A :=
  track "vector_search_operations_total" "vector_search_duration_seconds".

(** ** [app/services/embedding_service.py] *)

Module EmbeddingService.

Definition set_initialized : M unit :=
  fun s =>
    (Return tt,
     mkServices true (vector_store_initialized s)
                (generation_initialized s) (events s)).

Definition is_initialized : M bool :=
  fun s => (Return (embedding_initialized s), s).

(** [initialize] up to its [await]: the flag is read, the first log line
    is written and the load is handed to the executor.  The result tells
    whether the coroutine is now suspended on the load. *)
Definition initialize_enter : M bool :=
  init <- is_initialized ;;
  if init then ret false
  else
    logger "info" "Initializing embedding model" ;;;
    emit SentenceTransformer_load ;;;
    ret true.

(** [initialize] after its [await]: the load has answered. *)
Definition initialize_resume (loaded : Outcome unit) : M unit :=
  match loaded with
  | Raise e => raise e
  | Return _ =>
      set_initialized ;;;
      logger "info" "Embedding model initialized successfully"
  end.

Definition initialize (env : Env) : M unit :=
  suspended <- initialize_enter ;;
  when_ suspended (initialize_resume (SentenceTransformer env)).

Definition encode_body (env : Env) (texts : list string)
  : M (list (list Q)) :=
  init <- is_initialized ;;
  when_ (negb init) (initialize env) ;;;
  match texts with
  | [] => ret []
  | _ :: _ =>
      logger "debug" "Encoding texts" ;;;
      embeddings <- call (Model_encode texts) (model_encode env texts) ;;
      logger "debug" "Texts encoded successfully" ;;;
      ret embeddings
  end.

Definition encode (env : Env) (texts : list string) : M (list (list Q)) :=
  track_embedding_operation (encode_body env texts).

Definition encode_single (env : Env) (text : string) : M (list Q) :=
  embeddings <- encode env [text] ;;
  match embeddings with
  | [] => ret []
  | e0 :: _ => ret e0
  end.

End EmbeddingService.

(** ** [app/config.py] *)

Module settings.

Definition max_results : Z := 10.
Definition max_new_tokens : Z := 256.

End settings.

(** ** Python sequences and strings *)

(** [l[i]]: an index out of range raises [IndexError]. *)
Definition subscript {A} (l : list A) (i : nat) : M A :=
  match l !! i with
  | Some x => ret x
  | None => raise (Exception "IndexError" "list index out of range")
  end.

(** A list comprehension whose element expression may raise. *)
Fixpoint comprehension {A B} (f : A -> M B) (l : list A) : M (list B) :=
  match l with
  | [] => ret []
  | x :: rest =>
      y <- f x ;;
      ys <- comprehension f rest ;;
      ret (y :: ys)
  end.

Definition LF : string := String (ascii_of_nat 10) EmptyString.

(** [str.isspace] on the code points below 256. *)
Definition isspace (c : ascii) : bool :=
  let n := nat_of_ascii c in
  ((9 <=? n)%nat && (n <=? 13)%nat) || ((28 <=? n)%nat && (n <=? 32)%nat)
  || (n =? 133)%nat || (n =? 160)%nat.

Fixpoint lstrip (s : string) : string :=
  match s with
  | EmptyString => EmptyString
  | String c rest => if isspace c then lstrip rest else s
  end.

Fixpoint rstrip (s : string) : string :=
  match s with
  | EmptyString => EmptyString
  | String c rest =>
      match rstrip rest with
      | EmptyString => if isspace c then EmptyString else String c EmptyString
      | r => String c r
      end
  end.

(** [s.strip()] *)
Definition strip (s : string) : string := rstrip (lstrip s).

(** [s.split(sep)] for a non-empty [sep]: a scan from the left that cuts at
    every occurrence of [sep] not overlapping the previous cut.  [skip]
    counts the characters of a matched separator still to be passed and
    [piece] is the piece being read. *)
Fixpoint split_scan (sep : string) (skip : nat) (piece : string) (s : string)
  : list string :=
  match s with
  | EmptyString => [piece]
  | String c rest =>
      match skip with
      | S k => split_scan sep k piece rest
      | O =>
          if String.prefix sep s
          then piece :: split_scan sep (String.length sep - 1) EmptyString rest
          else split_scan sep 0 (piece ++ String c EmptyString)%string rest
      end
  end.

Definition str_split (s sep : string) : list string :=
  split_scan sep 0 EmptyString s.

(** [l[-1]] of a list of strings. *)
Definition last_piece (l : list string) : string := List.last l EmptyString.

(** ** [app/services/vector_store.py] *)

(** The dictionary built for each kept result. *)
Record ClauseDict : Type := mkClauseDict {
  clause_id : string;
  clause_text : string;
  policy_type : option string;
  section : option string;
  relevance_score : Q
}.

Module VectorStoreService.

Definition set_initialized : M unit :=
  fun s =>
    (Return tt,
     mkServices (embedding_initialized s) true
                (generation_initialized s) (events s)).

Definition is_initialized : M bool :=
  fun s => (Return (vector_store_initialized s), s).

(** [try: get_collection ... except Exception: create_collection ...] *)
Definition get_or_create_collection (env : Env) : M unit :=
  fun s =>
    match call Chroma_get_collection (get_collection env) s with
    | (Return _, s') => logger "info" "Using existing ChromaDB collection" s'
    | (Raise _, s') =>
        (call Chroma_create_collection (create_collection env) ;;;
         logger "info" "Created new ChromaDB collection with cosine similarity")
          s'
    end.

(** [initialize] contains no [await]: it runs in one piece. *)
Definition initialize (env : Env) : M unit :=
  init <- is_initialized ;;
  if init then ret tt
  else
    logger "info" "Initializing ChromaDB" ;;;
    call Chroma_PersistentClient (PersistentClient env) ;;;
    get_or_create_collection env ;;;
    set_initialized ;;;
    logger "info" "Vector store initialized successfully".

(** [len(results["ids"][0])], read where [results["ids"]] is not empty. *)
Definition hits (results : QueryResult) : nat :=
  match ids results with
  | [] => 0%nat
  | ids0 :: _ => length ids0
  end.

(** [results["ids"] and len(results["ids"][0]) > 0] *)
Definition has_hits (results : QueryResult) : bool :=
  match ids results with
  | [] => false
  | ids0 :: _ => (0 <? length ids0)%nat
  end.

(** The body of [for i in range(...)], for the indices still to visit. *)
Fixpoint format_loop (results : QueryResult) (min_score : Q)
    (range : list nat) (formatted_results : list (ClauseDict * Q))
  : M (list (ClauseDict * Q)) :=
  match range with
  | [] => ret formatted_results
  | i :: range' =>
      distances0 <- subscript (distances results) 0 ;;
      distance <- subscript distances0 i ;;
      let score := Float.sub 1 distance in
      ids0 <- subscript (ids results) 0 ;;
      id <- subscript ids0 i ;;
      logger "debug" "Result found" ;;;
      formatted_results' <-
        (if Float.leb min_score score then
           documents0 <- subscript (documents results) 0 ;;
           document <- subscript documents0 i ;;
           metadatas0 <- subscript (metadatas results) 0 ;;
           metadata <- subscript metadatas0 i ;;
           let clause_dict :=
             {| clause_id := id;
                clause_text := document;
                policy_type := metadata !! "policy_type";
                section := metadata !! "section";
                relevance_score := score |} in
           ret (formatted_results ++ [(clause_dict, score)])
         else ret formatted_results) ;;
      format_loop results min_score range' formatted_results'
  end.

Definition format_results (results : QueryResult) (min_score : Q)
  : M (list (ClauseDict * Q)) :=
  if has_hits results
  then format_loop results min_score (seq 0 (hits results)) []
  else ret [].

(** The log line written when the threshold removed every candidate. *)
Definition report_all_filtered (results : QueryResult)
    (formatted_results : list (ClauseDict * Q)) : M unit :=
  match formatted_results with
  | [] =>
      if has_hits results then
        distances0 <- subscript (distances results) 0 ;;
        best_distance <- subscript distances0 0 ;;
        logger "info" "All results filtered out by min_score"
      else ret tt
  | _ :: _ => ret tt
  end.

Definition search_body (env : Env) (query_text : string)
    (max_results : Z) (min_score : Q) : M (list (ClauseDict * Q)) :=
  init <- is_initialized ;;
  when_ (negb init) (initialize env) ;;;
  logger "info" "Searching vector store" ;;;
  query_embedding <- EmbeddingService.encode_single env query_text ;;
  results <- call (Chroma_query [query_embedding] max_results)
                  (collection_query env [query_embedding] max_results) ;;
  formatted_results <- format_results results min_score ;;
  report_all_filtered results formatted_results ;;;
  logger "info" "Search completed" ;;;
  ret formatted_results.

Definition search (env : Env) (query_text : string)
    (max_results : Z) (min_score : Q) : M (list (ClauseDict * Q)) :=
  track_vector_search (search_body env query_text max_results min_score).

End VectorStoreService.

(** ** [app/services/generation_service.py] *)

Module GenerationService.

Definition set_initialized : M unit :=
  fun s =>
    (Return tt,
     mkServices (embedding_initialized s) (vector_store_initialized s)
                true (events s)).

Definition is_initialized : M bool :=
  fun s => (Return (generation_initialized s), s).

(** [initialize] up to its [await]. *)
Definition initialize_enter : M bool :=
  init <- is_initialized ;;
  if init then ret false
  else
    logger "info" "Initializing LLM for generation" ;;;
    emit LLM_from_pretrained ;;;
    ret true.

(** [initialize] after its [await]. *)
Definition initialize_resume (loaded : Outcome unit) : M unit :=
  match loaded with
  | Raise e => raise e
  | Return _ =>
      set_initialized ;;;
      logger "info" "LLM initialized successfully"
  end.

Definition initialize (env : Env) : M unit :=
  suspended <- initialize_enter ;;
  when_ suspended (initialize_resume (from_pretrained env)).

Definition no_clauses_message : string :=
  "No relevant policy clauses were found to analyze this claim.".

Definition answer_marker : string := "ANALYSIS:".

(** [f"- [{c['clause_id']}] {c['clause_text']}"] *)
Definition bullet (c : ClauseDict) : string :=
  ("- [" ++ clause_id c ++ "] " ++ clause_text c)%string.

Definition build_context (retrieved_clauses : list ClauseDict) : string :=
  String.concat LF (map bullet retrieved_clauses).

Definition instruction : string :=
  ("Instruct: You are an expert Insurance Policy Analyst. "
   ++ "Based on the following policy clauses, analyze the user's claim description. "
   ++ "State if it is likely covered and cite the clause ID.")%string.

Definition build_prompt (query : string) (context : string) : string :=
  (instruction ++ LF ++ LF
   ++ "POLICY CLAUSES:" ++ LF ++ context ++ LF ++ LF
   ++ "USER CLAIM: " ++ query ++ LF ++ LF
   ++ answer_marker)%string.

(** [full_response.split("ANALYSIS:")[-1].strip()] *)
Definition extract_analysis (full_response : string) : string :=
  strip (last_piece (str_split full_response answer_marker)).

(** [run_generation], run in the executor: tokenizer, [model.generate]
    and [decode] are the back end's; the extraction is the service's. *)
Definition run_generation (env : Env) (prompt : string) : M string :=
  full_response <- call (LLM_generate prompt settings.max_new_tokens)
                        (generate_and_decode env prompt) ;;
  ret (extract_analysis full_response).

Definition generate_analysis (env : Env) (query : string)
    (retrieved_clauses : list ClauseDict) : M string :=
  init <- is_initialized ;;
  when_ (negb init) (initialize env) ;;;
  match retrieved_clauses with
  | [] => ret no_clauses_message
  | _ :: _ =>
      let context := build_context retrieved_clauses in
      let prompt := build_prompt query context in
      logger "info" "Generating analysis for claim" ;;;
      run_generation env prompt
  end.

End GenerationService.

(** ** [app/schemas.py] *)

Record PolicyClause : Type := mkPolicyClause {
  pc_clause_id : string;
  pc_clause_text : string;
  pc_policy_type : option string;
  pc_section : option string;
  pc_relevance_score : Q
}.

(** [PolicyClause] built from [clause_dict]: the field [relevance_score] is declared
    with [ge=0.0, le=1.0]; a value outside raises pydantic's
    [ValidationError], whose text is pydantic's. *)
Definition PolicyClause_validate (env : Env) (clause_dict : ClauseDict)
  : M PolicyClause :=
  if Float.leb 0 (relevance_score clause_dict)
     && Float.leb (relevance_score clause_dict) 1
  then ret {| pc_clause_id := clause_id clause_dict;
              pc_clause_text := clause_text clause_dict;
              pc_policy_type := policy_type clause_dict;
              pc_section := section clause_dict;
              pc_relevance_score := relevance_score clause_dict |}
  else raise (Exception "ValidationError"
                        (PolicyClause_error env
                           (relevance_score clause_dict))).

Definition model_dump (c : PolicyClause) : ClauseDict :=
  {| clause_id := pc_clause_id c;
     clause_text := pc_clause_text c;
     policy_type := pc_policy_type c;
     section := pc_section c;
     relevance_score := pc_relevance_score c |}.

Record PolicySearchRequest : Type := mkPolicySearchRequest {
  claim_description : string;
  max_results : option Z;
  min_score : option Q;
  is_enable_rag : option bool
}.

(** The fields [search_time_ms] and [timestamp] are clock readings and are
    left out. *)
Record PolicySearchResponse : Type := mkPolicySearchResponse {
  query : string;
  results : list PolicyClause;
  analysis : option string;
  total_results : nat
}.

(** ** [app/main.py] *)

(** [e1 or e2] on an optional integer: [None] and [0] are falsy. *)
Definition or_int (x : option Z) (default : Z) : Z :=
  match x with
  | Some v => if (v =? 0)%Z then default else v
  | None => default
  end.

(** [e1 or 0.0] on an optional float. *)
Definition or_float (x : option Q) (default : Q) : Q :=
  match x with
  | Some v => if Qeq_bool v 0 then default else v
  | None => default
  end.

Definition truthy_bool (x : option bool) : bool :=
  match x with
  | Some b => b
  | None => false
  end.

Definition truthy_list {A} (l : list A) : bool :=
  match l with
  | [] => false
  | _ :: _ => true
  end.

(** [try: body except Exception as e: handler] *)
Definition try_except {A} (body : M A) (handler : exn -> M A) : M A :=
  fun s =>
    match body s with
    | (Return a, s') => (Return a, s')
    | (Raise e, s') => handler e s'
    end.

(** The element expression of [[PolicyClause(...) for clause_dict, _ in
    results]]. *)
Definition policy_clause_of (env : Env) (result : ClauseDict * Q)
  : M PolicyClause :=
  let '(clause_dict, _) := result in PolicyClause_validate env clause_dict.

(** The generation step of the handler. *)
Definition generation_step (env : Env) (request : PolicySearchRequest)
    (policy_clauses : list PolicyClause) : M (option string) :=
  if truthy_bool (is_enable_rag request) && truthy_list policy_clauses then
    logger "info" "RAG analysis enabled, generating AI response" ;;;
    text <- GenerationService.generate_analysis env
              (claim_description request)
              (map model_dump policy_clauses) ;;
    ret (Some text)
  else
    logger "info" "RAG analysis disabled, skipping generation step" ;;;
    ret None.

Definition search_policies_body (env : Env) (request : PolicySearchRequest)
  : M PolicySearchResponse :=
  logger "info" "Policy search request received" ;;;
  results <- VectorStoreService.search env
               (claim_description request)
               (or_int (max_results request) settings.max_results)
               (or_float (min_score request) 0) ;;
  policy_clauses <- comprehension (policy_clause_of env) results ;;
  analysis <- generation_step env request policy_clauses ;;
  logger "info" "Policy search and RAG analysis completed" ;;;
  ret {| query := claim_description request;
         results := policy_clauses;
         analysis := analysis;
         total_results := length policy_clauses |}.

(** The [except Exception as e] branch of the handler. *)
Definition internal_server_error {A} (e : exn) : M A :=
  logger "error" "Policy search failed" ;;;
  raise (HTTPException 500 ("Internal server error: " ++ str_exn e)%string).

Definition search_policies (env : Env) (request : PolicySearchRequest)
  : M PolicySearchResponse :=
  try_except (search_policies_body env request) internal_server_error.

(** ** Cooperative scheduling of concurrent callers *)

Module Asyncio.

(** A coroutine with at most one suspension point: [enter] runs up to the
    [await] and tells whether the coroutine is suspended; [resume] runs
    from the [await] to the end. *)
Record Coroutine : Type := mkCoroutine {
  enter : M bool;
  resume : M unit
}.

Inductive Task : Type :=
  | Pending
  | Suspended
  | Finished (outcome : Outcome unit).

(** The event loop runs task [i] up to its next suspension point; nothing
    else runs meanwhile. *)
Definition step (co : Coroutine) (i : nat) (cfg : list Task * Services)
  : list Task * Services :=
  let '(tasks, s) := cfg in
  match tasks !! i with
  | Some Pending =>
      match enter co s with
      | (Return true, s') => (<[i := Suspended]> tasks, s')
      | (Return false, s') => (<[i := Finished (Return tt)]> tasks, s')
      | (Raise e, s') => (<[i := Finished (Raise e)]> tasks, s')
      end
  | Some Suspended =>
      match resume co s with
      | (outcome, s') => (<[i := Finished outcome]> tasks, s')
      end
  | Some (Finished _) => cfg
  | None => cfg
  end.

Definition run (co : Coroutine) (schedule : list nat)
    (cfg : list Task * Services) : list Task * Services :=
  fold_left (fun c i => step co i c) schedule cfg.

(** [n] callers that have not started yet. *)
Definition callers (n : nat) : list Task := repeat Pending n.

Definition embedding_initialize (env : Env) : Coroutine :=
  {| enter := EmbeddingService.initialize_enter;
     resume := EmbeddingService.initialize_resume (SentenceTransformer env) |}.

Definition generation_initialize (env : Env) : Coroutine :=
  {| enter := GenerationService.initialize_enter;
     resume := GenerationService.initialize_resume (from_pretrained env) |}.

(** The vector store's [initialize] never suspends. *)
Definition vector_store_initialize (env : Env) : Coroutine :=
  {| enter := VectorStoreService.initialize env ;;; ret false;
     resume := ret tt |}.

End Asyncio.

(** ** Counting events *)

Definition is_log (msg : string) (ev : Event) : bool :=
  match ev with
  | Log _ m => String.eqb m msg
  | _ => false
  end.

Definition is_embedder_load (ev : Event) : bool :=
  match ev with SentenceTransformer_load => true | _ => false end.

Definition is_model_encode (ev : Event) : bool :=
  match ev with Model_encode _ => true | _ => false end.

Definition is_chroma_open (ev : Event) : bool :=
  match ev with Chroma_PersistentClient => true | _ => false end.

Definition is_llm_load (ev : Event) : bool :=
  match ev with LLM_from_pretrained => true | _ => false end.

Definition is_llm_generate (ev : Event) : bool :=
  match ev with LLM_generate _ _ => true | _ => false end.

(** Any work on the generation back end: loading it or generating. *)
Definition is_llm_work (ev : Event) : bool :=
  is_llm_load ev || is_llm_generate ev.

Definition count (p : Event -> bool) (s : Services) : nat :=
  length (List.filter p (events s)).

(** ** Vocabulary of the specifications *)

(** A back end is available when it is initialized or its load answers. *)
Definition embedder_available (env : Env) (s : Services) : Prop :=
  embedding_initialized s = true \/ SentenceTransformer env = Return tt.

Definition vector_store_available (env : Env) (s : Services) : Prop :=
  vector_store_initialized s = true
  \/ (PersistentClient env = Return tt
      /\ (get_collection env = Return tt
          \/ create_collection env = Return tt)).

Definition generator_available (env : Env) (s : Services) : Prop :=
  generation_initialized s = true \/ from_pretrained env = Return tt.

(** [s'] is a later state of [s]: flags are only ever raised and events
    only ever appended. *)
Definition later (s s' : Services) : Prop :=
  (embedding_initialized s = true -> embedding_initialized s' = true)
  /\ (vector_store_initialized s = true -> vector_store_initialized s' = true)
  /\ (generation_initialized s = true -> generation_initialized s' = true)
  /\ exists evs, events s' = events s ++ evs.

(** [m] returns from [s], and its value and final state satisfy [post]. *)
Definition returns {A} (m : M A) (s : Services)
    (post : A -> Services -> Prop) : Prop :=
  match m s with
  | (Return a, s') => post a s'
  | (Raise _, _) => False
  end.

(** The raw results of a query, row by row: the first inner list of each
    column. *)
Definition ids0 (results : QueryResult) : list string :=
  default [] (ids results !! 0%nat).

Definition distances0 (results : QueryResult) : list Q :=
  default [] (distances results !! 0%nat).

Definition score_of (distance : Q) : Q := Float.sub 1 distance.

(** The raw rows in the order of the index, as (id, score), one per id. *)
Definition raw_rows (results : QueryResult) : list (string * Q) :=
  zip (ids0 results) (map score_of (distances0 results)).

Definition row_of (r : ClauseDict * Q) : string * Q :=
  (clause_id (fst r), snd r).

Definition keeps (min_score : Q) (row : string * Q) : bool :=
  Float.leb min_score (snd row).

(** The index answered a query with no entry. *)
Definition no_hits (results : QueryResult) : Prop :=
  ids0 results = [].

(** What the claim on the prompt asks for: the bullet lines, later the
    query, later the instruction. *)
Definition bullets_query_instruction (prompt context query instr : string)
  : Prop :=
  exists a b c d : string,
    prompt = (a ++ context ++ b ++ query ++ c ++ instr ++ d)%string.

(** The sentence of the prompt that asks for the coverage likelihood and
    the clause id. *)
Definition coverage_instruction : string :=
  "State if it is likely covered and cite the clause ID.".

(** [sep] occurs in [s]. *)
Definition occurs (sep s : string) : Prop :=
  exists a b : string, s = (a ++ sep ++ b)%string.

(** ** Decidable checks on strings *)

Fixpoint string_drop (n : nat) (s : string) : string :=
  match n, s with
  | O, _ => s
  | S k, String _ rest => string_drop k rest
  | S _, EmptyString => EmptyString
  end.

Fixpoint occursb (sep s : string) : bool :=
  String.prefix sep s
  || match s with
     | String _ rest => occursb sep rest
     | EmptyString => false
     end.

(** Some occurrence of [x] in [s] has an occurrence of [y] after it. *)
Fixpoint followed_by (x y s : string) : bool :=
  (String.prefix x s && occursb y (string_drop (String.length x) s))
  || match s with
     | String _ rest => followed_by x y rest
     | EmptyString => false
     end.

Fixpoint all_space (s : string) : bool :=
  match s with
  | EmptyString => true
  | String c rest => isspace c && all_space rest
  end.

Definition starts_with_space (s : string) : bool :=
  match s with
  | EmptyString => false
  | String c _ => isspace c
  end.

Fixpoint ends_with_space (s : string) : bool :=
  match s with
  | EmptyString => false
  | String c EmptyString => isspace c
  | String _ rest => ends_with_space rest
  end.

(** ** Log lines that open an initialization attempt *)

Definition embedding_start_log : string := "Initializing embedding model".
Definition generation_start_log : string := "Initializing LLM for generation".
Definition vector_store_start_log : string := "Initializing ChromaDB".

(** ** Callers of the vector store's [initialize] *)

(** A caller has not started, or has returned normally. *)
Definition settled (t : Asyncio.Task) : Prop :=
  t = Asyncio.Pending \/ t = Asyncio.Finished (Return tt).

(** Between [s] and [s'] the database was opened exactly once. *)
Definition opened_once (s s' : Services) : Prop :=
  vector_store_initialized s' = true
  /\ count is_chroma_open s' = S (count is_chroma_open s)
  /\ count (is_log vector_store_start_log) s'
     = S (count (is_log vector_store_start_log) s).

(** The vector store's [initialize] raises [e]: the database does not
    open, or it opens and its collection can be neither fetched nor
    created. *)
Definition vector_store_fails (env : Env) (e : exn) : Prop :=
  PersistentClient env = Raise e
  \/ (PersistentClient env = Return tt
      /\ (exists e1, get_collection env = Raise e1)
      /\ create_collection env = Raise e).

(** A caller has not started, or has received [e]. *)
Definition failed_with (e : exn) (t : Asyncio.Task) : Prop :=
  t = Asyncio.Pending \/ t = Asyncio.Finished (Raise e).

Definition has_run (t : Asyncio.Task) : bool :=
  match t with
  | Asyncio.Pending => false
  | _ => true
  end.

Definition callers_that_ran (tasks : list Asyncio.Task) : nat :=
  length (List.filter has_run tasks).

(** Between [s] and [s'] the database was opened [n] times, each time in
    vain. *)
Definition opened_in_vain (n : nat) (s s' : Services) : Prop :=
  vector_store_initialized s' = false
  /\ count is_chroma_open s' = (count is_chroma_open s + n)%nat
  /\ count (is_log vector_store_start_log) s'
     = (count (is_log vector_store_start_log) s + n)%nat.

(** ** Callers of a suspending [initialize] *)

Definition embedding_done_log : string :=
  "Embedding model initialized successfully".
Definition generation_done_log : string := "LLM initialized successfully".

(** A caller has returned normally. *)
Definition completed (t : Asyncio.Task) : Prop :=
  t = Asyncio.Finished (Return tt).

(** ** A sample deployment *)

Module Sample.

(** Three clauses of [app/services/sample_data.py]. *)
Definition clause_001_text : string :=
  "This policy covers damage to the insured vehicle resulting from collision with another vehicle or object, subject to the deductible amount specified in the policy schedule.".

Definition clause_002_text : string :=
  "The insurer shall not be liable for any loss or damage caused by wear and tear, mechanical breakdown, or failure of parts unless such failure is directly caused by an insured peril.".

Definition clause_003_text : string :=
  "In the event of a claim, the insured must notify the insurer within 30 days of the occurrence of the loss or damage, providing all relevant documentation and evidence.".

Definition metadata (policy_type section : string) : gmap string string :=
  <["policy_type" := policy_type]> (<["section" := section]> ∅).

(** The index ranks the three clauses at distances 0.1, 0.6 and 0.9. *)
Definition ranked : QueryResult :=
  {| ids := [["CLAUSE_001"; "CLAUSE_002"; "CLAUSE_003"]];
     distances := [[1 # 10; 6 # 10; 9 # 10]];
     documents := [[clause_001_text; clause_002_text; clause_003_text]];
     metadatas := [[metadata "Auto Insurance" "Coverage";
                    metadata "Auto Insurance" "Exclusions";
                    metadata "General" "Claims Procedure"]] |}.

Definition first_n (n : Z) (results : QueryResult) : QueryResult :=
  let k := Z.to_nat n in
  {| ids := map (take k) (ids results);
     distances := map (take k) (distances results);
     documents := map (take k) (documents results);
     metadatas := map (take k) (metadatas results) |}.

Definition empty_answer : QueryResult :=
  {| ids := [[]]; distances := [[]]; documents := [[]]; metadatas := [[]] |}.

(** Every back end answers; the generator echoes the prompt and goes on.
    The text of pydantic's error stands for the one the installed pydantic
    writes. *)
Definition env : Env :=
  {| SentenceTransformer := Return tt;
     model_encode := fun texts => Return (map (fun _ => [1 # 2; 1 # 2]) texts);
     PersistentClient := Return tt;
     get_collection := Return tt;
     create_collection := Return tt;
     collection_query := fun _ n_results => Return (first_n n_results ranked);
     from_pretrained := Return tt;
     generate_and_decode := fun prompt =>
       Return (prompt ++ " Likely covered under CLAUSE_001." ++ LF)%string;
     PolicyClause_error := fun _ =>
       ("1 validation error for PolicyClause" ++ LF ++ "relevance_score" ++ LF
        ++ "  Input should be less than or equal to 1")%string |}.

(** The same deployment with an empty collection. *)
Definition env_empty_index : Env :=
  {| SentenceTransformer := SentenceTransformer env;
     model_encode := model_encode env;
     PersistentClient := PersistentClient env;
     get_collection := get_collection env;
     create_collection := create_collection env;
     collection_query := fun _ _ => Return empty_answer;
     from_pretrained := from_pretrained env;
     generate_and_decode := generate_and_decode env;
     PolicyClause_error := PolicyClause_error env |}.

(** The same deployment where generation runs out of memory. *)
Definition env_generation_fails : Env :=
  {| SentenceTransformer := SentenceTransformer env;
     model_encode := model_encode env;
     PersistentClient := PersistentClient env;
     get_collection := get_collection env;
     create_collection := create_collection env;
     collection_query := collection_query env;
     from_pretrained := from_pretrained env;
     generate_and_decode := fun _ =>
       Raise (Exception "RuntimeError" "out of memory");
     PolicyClause_error := PolicyClause_error env |}.

(** The same deployment where the decoded text carries no marker. *)
Definition env_no_marker : Env :=
  {| SentenceTransformer := SentenceTransformer env;
     model_encode := model_encode env;
     PersistentClient := PersistentClient env;
     get_collection := get_collection env;
     create_collection := create_collection env;
     collection_query := collection_query env;
     from_pretrained := from_pretrained env;
     generate_and_decode := fun _ => Return "  Likely covered.  ";
     PolicyClause_error := PolicyClause_error env |}.

Definition claim : string := "My car was damaged in a collision".

Definition request : PolicySearchRequest :=
  {| claim_description := claim;
     max_results := Some 3%Z;
     min_score := Some (1 # 2);
     is_enable_rag := Some true |}.

Definition clause_001 : ClauseDict :=
  {| clause_id := "CLAUSE_001";
     clause_text := clause_001_text;
     policy_type := Some "Auto Insurance";
     section := Some "Coverage";
     relevance_score := Float.sub 1 (1 # 10) |}.

End Sample.

(** ** The ingest path of [app/services/vector_store.py] *)

(** [d[key]] on a dictionary: a missing key raises [KeyError], whose text
    is the key between quotes. *)
Definition getitem (d : gmap string string) (key : string) : M string :=
  match d !! key with
  | Some v => ret v
  | None => raise (Exception "KeyError" ("'" ++ key ++ "'")%string)
  end.

(** The arguments of one call of [collection.add]. *)
Record AddCall : Type := mkAddCall {
  add_embeddings : list (list Q);
  add_documents : list string;
  add_metadatas : list (gmap string string);
  add_ids : list string
}.

(** The metadata stored with a clause: [clause.get(key, "")] for the two
    optional keys. *)
Definition clause_metadata (clause : gmap string string)
  : gmap string string :=
  <["policy_type" := default ""%string (clause !! "policy_type")]>
    (<["section" := default ""%string (clause !! "section")]> ∅).

(** [add_policy_clauses].  The collection is ChromaDB's: what
    [collection.add] answers is given by [collection_add].  The function
    returns nothing in Python; here it returns the call of
    [collection.add] it has made, or [None] when it has made none. *)
Definition add_policy_clauses (env : Env)
    (collection_add : AddCall -> Outcome unit)
    (clauses : list (gmap string string)) : M (option AddCall) :=
  init <- VectorStoreService.is_initialized ;;
  when_ (negb init) (VectorStoreService.initialize env) ;;;
  match clauses with
  | [] => ret None
  | _ :: _ =>
      logger "info" "Adding policy clauses to vector store" ;;;
      texts <- comprehension (fun clause => getitem clause "clause_text")
                             clauses ;;
      embeddings <- EmbeddingService.encode env texts ;;
      ids <- comprehension (fun clause => getitem clause "clause_id")
                           clauses ;;
      let documents := texts in
      let metadatas := map clause_metadata clauses in
      let added :=
        {| add_embeddings := embeddings;
           add_documents := documents;
           add_metadatas := metadatas;
           add_ids := ids |} in
      match collection_add added with
      | Return _ =>
          logger "info" "Policy clauses added successfully" ;;;
          ret (Some added)
      | Raise e => raise e
      end
  end.

(** [get_collection_count]; [collection_count] is what
    [collection.count()] answers. *)
Definition get_collection_count (env : Env) (collection_count : Outcome Z)
  : M Z :=
  init <- VectorStoreService.is_initialized ;;
  when_ (negb init) (VectorStoreService.initialize env) ;;;
  match collection_count with
  | Return n => ret n
  | Raise e => raise e
  end.

(** ** Start-up and health of [app/main.py] *)

(** The start-up half of [lifespan]. *)
Definition lifespan_startup (env : Env) : M unit :=
  logger "info" "Starting Policy Intelligence API" ;;;
  try_except
    (EmbeddingService.initialize env ;;;
     VectorStoreService.initialize env ;;;
     GenerationService.initialize env ;;;
     logger "info" "Application startup complete")
    (fun e =>
       logger "error" "Failed to initialize services" ;;;
       raise e).

Record HealthResponse : Type := mkHealthResponse {
  status : string;
  version : string;
  model_loaded : bool;
  vector_store_ready : bool
}.

Definition app_version : string := "0.1.0".

Definition health_check : M HealthResponse :=
  try_except
    (model_loaded <- EmbeddingService.is_initialized ;;
     vector_store_ready <- VectorStoreService.is_initialized ;;
     let status :=
       if model_loaded && vector_store_ready then "healthy" else "degraded" in
     ret {| status := status;
            version := app_version;
            model_loaded := model_loaded;
            vector_store_ready := vector_store_ready |})
    (fun e =>
       logger "error" "Health check failed" ;;;
       raise (HTTPException 503 "Service unavailable")).

(** ** Vocabulary for what an operation leaves alone *)

(** From a state that satisfies [inv], the operation [m] ends in a state
    that satisfies [inv] and has added only events accepted by [ok]. *)
Definition guarantee {A} (inv : Services -> Prop) (ok : Event -> bool)
    (m : M A) : Prop :=
  forall s,
    inv s ->
    inv (snd (m s))
    /\ exists evs, events (snd (m s)) = events s ++ evs
                   /\ forallb ok evs = true.

(** [inv] does not look at the events. *)
Definition blind_to_events (inv : Services -> Prop) : Prop :=
  forall s evs,
    inv s ->
    inv (mkServices (embedding_initialized s) (vector_store_initialized s)
                    (generation_initialized s) evs).

Definition any_state (s : Services) : Prop := True.

Definition all_ready (s : Services) : Prop :=
  embedding_initialized s = true
  /\ vector_store_initialized s = true
  /\ generation_initialized s = true.

Definition any_event (ev : Event) : bool := true.

(** Loading a model or opening the database. *)
Definition is_load (ev : Event) : bool :=
  match ev with
  | SentenceTransformer_load | Chroma_PersistentClient
  | Chroma_get_collection | Chroma_create_collection
  | LLM_from_pretrained => true
  | _ => false
  end.

Definition is_chroma (ev : Event) : bool :=
  match ev with
  | Chroma_PersistentClient | Chroma_get_collection
  | Chroma_create_collection | Chroma_query _ _ => true
  | _ => false
  end.

Definition is_embedder (ev : Event) : bool :=
  match ev with
  | SentenceTransformer_load | Model_encode _ => true
  | _ => false
  end.

Definition is_metric_inc (name : string) (ev : Event) : bool :=
  match ev with
  | Metric_inc n => String.eqb n name
  | _ => false
  end.

Definition is_metric_observe (name : string) (ev : Event) : bool :=
  match ev with
  | Metric_observe n => String.eqb n name
  | _ => false
  end.

Definition all_filtered_log : string :=
  "All results filtered out by min_score".

(** The first inner lists of the other two columns of a query answer. *)
Definition documents0 (results : QueryResult) : list string :=
  default [] (documents results !! 0%nat).

Definition metadatas0 (results : QueryResult) : list (gmap string string) :=
  default [] (metadatas results !! 0%nat).

(** Every id of the answer comes with a distance, a document and a
    metadata. *)
Definition complete_answer (results : QueryResult) : Prop :=
  (length (ids0 results) <= length (distances0 results))%nat
  /\ (length (ids0 results) <= length (documents0 results))%nat
  /\ (length (ids0 results) <= length (metadatas0 results))%nat.

(** ** The events each operation may add

    The first initialization of a service apart, an operation adds only
    the events listed for it here. *)

Definition encode_events (ev : Event) : bool :=
  match ev with
  | Log _ msg =>
      String.eqb msg "Encoding texts"
      || String.eqb msg "Texts encoded successfully"
  | Model_encode _ => true
  | Metric_inc name => String.eqb name "embedding_operations_total"
  | Metric_observe name => String.eqb name "embedding_duration_seconds"
  | _ => false
  end.

Definition format_events (ev : Event) : bool := is_log "Result found" ev.

(** The events of the body of [search], those of the embedding and of the
    formatting loop apart. *)
Definition search_events (ev : Event) : bool :=
  match ev with
  | Log _ msg =>
      String.eqb msg "Searching vector store"
      || String.eqb msg all_filtered_log
      || String.eqb msg "Search completed"
  | Chroma_query _ _ => true
  | _ => false
  end.

Definition search_metric_events (ev : Event) : bool :=
  is_metric_inc "vector_search_operations_total" ev
  || is_metric_observe "vector_search_duration_seconds" ev.

Definition generate_events (ev : Event) : bool :=
  match ev with
  | Log _ msg => String.eqb msg "Generating analysis for claim"
  | LLM_generate _ _ => true
  | _ => false
  end.

Definition handler_events (ev : Event) : bool :=
  match ev with
  | Log _ msg =>
      String.eqb msg "Policy search request received"
      || String.eqb msg "RAG analysis enabled, generating AI response"
      || String.eqb msg "RAG analysis disabled, skipping generation step"
      || String.eqb msg "Policy search and RAG analysis completed"
      || String.eqb msg "Policy search failed"
  | _ => false
  end.

Definition ingest_events (ev : Event) : bool :=
  match ev with
  | Log _ msg =>
      String.eqb msg "Adding policy clauses to vector store"
      || String.eqb msg "Policy clauses added successfully"
  | _ => false
  end.

Definition startup_events (ev : Event) : bool :=
  match ev with
  | Log _ msg =>
      String.eqb msg "Starting Policy Intelligence API"
      || String.eqb msg "Application startup complete"
      || String.eqb msg "Failed to initialize services"
      || String.eqb msg "Health check failed"
  | _ => false
  end.

(** [ok] accepts every event of [footprint]. *)
Definition accepts (ok footprint : Event -> bool) : Prop :=
  forall ev, footprint ev = true -> ok ev = true.

Definition not_load (ev : Event) : bool := negb (is_load ev).

Definition not_llm (ev : Event) : bool := negb (is_llm_work ev).

Definition not_retrieval (ev : Event) : bool :=
  negb (is_embedder ev || is_chroma ev).

(** ** Deployments with failing back ends *)

(** No model can be loaded and the database cannot be opened. *)
Definition env_nothing_loads : Env :=
  {| SentenceTransformer := Raise (Exception "OSError" "model not found");
     model_encode := model_encode Sample.env;
     PersistentClient := Raise (Exception "RuntimeError" "database locked");
     get_collection := get_collection Sample.env;
     create_collection := create_collection Sample.env;
     collection_query := collection_query Sample.env;
     from_pretrained := Raise (Exception "OSError" "model not found");
     generate_and_decode := generate_and_decode Sample.env;
     PolicyClause_error := PolicyClause_error Sample.env |}.

(** The database opens and holds no collection yet. *)
Definition env_new_database : Env :=
  {| SentenceTransformer := SentenceTransformer Sample.env;
     model_encode := model_encode Sample.env;
     PersistentClient := PersistentClient Sample.env;
     get_collection :=
       Raise (Exception "ValueError" "Collection does not exist");
     create_collection := create_collection Sample.env;
     collection_query := collection_query Sample.env;
     from_pretrained := from_pretrained Sample.env;
     generate_and_decode := generate_and_decode Sample.env;
     PolicyClause_error := PolicyClause_error Sample.env |}.

Definition is_chroma_create (ev : Event) : bool :=
  match ev with Chroma_create_collection => true | _ => false end.

Definition is_chroma_get (ev : Event) : bool :=
  match ev with Chroma_get_collection => true | _ => false end.

(** ** Rows of a query answer *)

(** The result [r] is built from one row of the answer: id, distance,
    document and metadata are taken at the same index. *)
Definition aligned (results : QueryResult) (r : ClauseDict * Q) : Prop :=
  exists (i : nat) id distance document (metadata : gmap string string),
    ids0 results !! i = Some id
    /\ distances0 results !! i = Some distance
    /\ documents0 results !! i = Some document
    /\ metadatas0 results !! i = Some metadata
    /\ fst r = {| clause_id := id;
                  clause_text := document;
                  policy_type := metadata !! "policy_type";
                  section := metadata !! "section";
                  relevance_score := Float.sub 1 distance |}
    /\ snd r = Float.sub 1 distance.

Definition not_filtered_log (ev : Event) : bool :=
  negb (is_log all_filtered_log ev).

Definition not_search_metric (ev : Event) : bool :=
  negb (search_metric_events ev).

Definition is_return {A} (o : Outcome A) : bool :=
  match o with
  | Return _ => true
  | Raise _ => false
  end.

Definition startup_failed_log : string := "Failed to initialize services".

(** The events of the three [initialize]. *)
Definition embedding_initialize_events (ev : Event) : bool :=
  match ev with
  | Log _ msg =>
      String.eqb msg embedding_start_log
      || String.eqb msg "Embedding model initialized successfully"
  | SentenceTransformer_load => true
  | _ => false
  end.

Definition vector_store_initialize_events (ev : Event) : bool :=
  match ev with
  | Log _ msg =>
      String.eqb msg vector_store_start_log
      || String.eqb msg "Using existing ChromaDB collection"
      || String.eqb msg
           "Created new ChromaDB collection with cosine similarity"
      || String.eqb msg "Vector store initialized successfully"
  | Chroma_PersistentClient | Chroma_get_collection
  | Chroma_create_collection => true
  | _ => false
  end.

Definition generation_initialize_events (ev : Event) : bool :=
  match ev with
  | Log _ msg =>
      String.eqb msg generation_start_log
      || String.eqb msg "LLM initialized successfully"
  | LLM_from_pretrained => true
  | _ => false
  end.

Definition search_duration : string := "vector_search_duration_seconds".
Definition search_total : string := "vector_search_operations_total".
Definition embedding_duration : string := "embedding_duration_seconds".
Definition embedding_total : string := "embedding_operations_total".

Definition not_embedding_metric (ev : Event) : bool :=
  negb (is_metric_inc embedding_total ev
        || is_metric_observe embedding_duration ev).

(** The events of the body of [encode], its metrics apart. *)
Definition encode_body_events (ev : Event) : bool :=
  match ev with
  | Log _ msg =>
      String.eqb msg "Encoding texts"
      || String.eqb msg "Texts encoded successfully"
  | Model_encode _ => true
  | _ => false
  end.

(** ** Validation of the response *)

(** The score is one that [PolicyClause] accepts. *)
Definition valid_score (score : Q) : bool :=
  Float.leb 0 score && Float.leb score 1.

(** The first result that [PolicyClause] rejects. *)
Definition first_rejected (results : list (ClauseDict * Q))
  : option (ClauseDict * Q) :=
  List.find (fun r => negb (valid_score (relevance_score (fst r)))) results.

(** The error raised for a clause whose score is [score]. *)
Definition validation_error (env : Env) (score : Q) : exn :=
  Exception "ValidationError" (PolicyClause_error env score).

Definition to_policy_clause (clause_dict : ClauseDict) : PolicyClause :=
  {| pc_clause_id := clause_id clause_dict;
     pc_clause_text := clause_text clause_dict;
     pc_policy_type := policy_type clause_dict;
     pc_section := section clause_dict;
     pc_relevance_score := relevance_score clause_dict |}.

Definition search_failed_log : string := "Policy search failed".

(** The index ranks one clause at a negative distance. *)
Definition env_negative_distance : Env :=
  {| SentenceTransformer := SentenceTransformer Sample.env;
     model_encode := model_encode Sample.env;
     PersistentClient := PersistentClient Sample.env;
     get_collection := get_collection Sample.env;
     create_collection := create_collection Sample.env;
     collection_query := fun _ _ =>
       Return {| ids := [["CLAUSE_001"]];
                 distances := [[- (1 # 1000000)]];
                 documents := [[Sample.clause_001_text]];
                 metadatas := [[Sample.metadata "Auto Insurance"
                                               "Coverage"]] |};
     from_pretrained := from_pretrained Sample.env;
     generate_and_decode := generate_and_decode Sample.env;
     PolicyClause_error := PolicyClause_error Sample.env |}.

(** The index ranks two clauses at the same distance 0.1 and a third at
    0.9. *)
Definition env_tied_ranks : Env :=
  {| SentenceTransformer := SentenceTransformer Sample.env;
     model_encode := model_encode Sample.env;
     PersistentClient := PersistentClient Sample.env;
     get_collection := get_collection Sample.env;
     create_collection := create_collection Sample.env;
     collection_query := fun _ _ =>
       Return {| ids := [["CLAUSE_001"; "CLAUSE_002"; "CLAUSE_003"]];
                 distances := [[1 # 10; 1 # 10; 9 # 10]];
                 documents := [[Sample.clause_001_text;
                                Sample.clause_002_text;
                                Sample.clause_003_text]];
                 metadatas := [[Sample.metadata "Auto Insurance" "Coverage";
                                Sample.metadata "Auto Insurance" "Exclusions";
                                Sample.metadata "General"
                                                "Claims Procedure"]] |};
     from_pretrained := from_pretrained Sample.env;
     generate_and_decode := generate_and_decode Sample.env;
     PolicyClause_error := PolicyClause_error Sample.env |}.

(** A request whose threshold 0.9 is the score of the best clause of the
    sample index, at distance 0.1. *)
Definition request_at_threshold : PolicySearchRequest :=
  {| claim_description := Sample.claim;
     max_results := Some 3%Z;
     min_score := Some (9 # 10);
     is_enable_rag := Some false |}.

(** ** Clauses to ingest *)

Definition key_error (key : string) : exn :=
  Exception "KeyError" ("'" ++ key ++ "'")%string.

(** Two clauses as [app/services/sample_data.py] has them, and one without
    text. *)
Definition sample_clause (id text policy_type section : string)
  : gmap string string :=
  <["clause_id" := id]>
    (<["clause_text" := text]>
       (<["policy_type" := policy_type]> (<["section" := section]> ∅))).

Definition sample_clauses : list (gmap string string) :=
  [sample_clause "CLAUSE_001" Sample.clause_001_text "Auto Insurance"
     "Coverage";
   sample_clause "CLAUSE_002" Sample.clause_002_text "Auto Insurance"
     "Exclusions"].

Definition clause_without_text : gmap string string :=
  <["clause_id" := "CLAUSE_012"]> ∅.

Definition accept_all (added : AddCall) : Outcome unit := Return tt.

(** The operation [m] only raises flags and only appends events. *)
Definition only_raises {A} (m : M A) : Prop :=
  forall s, later s (snd (m s)).

(** ** [MetricsMiddleware] of [app/metrics.py] *)

Module MetricsMiddleware.

(** The three metrics of the middleware: the gauge, and for the counter
    and the histogram the labels of each sample, oldest first. *)
Record Metrics : Type := mkMetrics {
  active_requests : Z;
  http_requests_total : list (string * string * Z);
  http_request_duration_seconds : list (string * string)
}.

Record Request : Type := mkRequest {
  method : string;
  path : string
}.

(** [dispatch] up to [await call_next(request)]. *)
Definition dispatch_enter (m : Metrics) : Metrics :=
  {| active_requests := active_requests m + 1;
     http_requests_total := http_requests_total m;
     http_request_duration_seconds := http_request_duration_seconds m |}.

(** The [finally] clause. *)
Definition dispatch_finally (m : Metrics) : Metrics :=
  {| active_requests := active_requests m - 1;
     http_requests_total := http_requests_total m;
     http_request_duration_seconds := http_request_duration_seconds m |}.

(** [dispatch] from the [await] to the end; [response] is what
    [call_next] answered, a status code or an exception. *)
Definition dispatch_resume (request : Request) (response : Outcome Z)
    (m : Metrics) : Outcome Z * Metrics :=
  match response with
  | Return status_code =>
      let endpoint := path request in
      let m1 :=
        {| active_requests := active_requests m;
           http_requests_total :=
             http_requests_total m
             ++ [(method request, endpoint, status_code)];
           http_request_duration_seconds :=
             http_request_duration_seconds m |} in
      let m2 :=
        {| active_requests := active_requests m1;
           http_requests_total := http_requests_total m1;
           http_request_duration_seconds :=
             http_request_duration_seconds m1
             ++ [(method request, endpoint)] |} in
      (Return status_code, dispatch_finally m2)
  | Raise e => (Raise e, dispatch_finally m)
  end.

(** One request through the middleware, nothing else running. *)
Definition dispatch (request : Request) (call_next : Outcome Z)
    (m : Metrics) : Outcome Z * Metrics :=
  dispatch_resume request call_next (dispatch_enter m).

Inductive Task : Type :=
  | Pending
  | Suspended
  | Finished (outcome : Outcome Z).

(** The event loop runs request [i] up to its next suspension point:
    request [i] is [requests i], and the application answers it with
    [call_next i]. *)
Definition step (requests : nat -> Request) (call_next : nat -> Outcome Z)
    (i : nat) (cfg : list Task * Metrics) : list Task * Metrics :=
  let '(tasks, m) := cfg in
  match tasks !! i with
  | Some Pending => (<[i := Suspended]> tasks, dispatch_enter m)
  | Some Suspended =>
      match dispatch_resume (requests i) (call_next i) m with
      | (outcome, m') => (<[i := Finished outcome]> tasks, m')
      end
  | Some (Finished _) => cfg
  | None => cfg
  end.

Definition run (requests : nat -> Request) (call_next : nat -> Outcome Z)
    (schedule : list nat) (cfg : list Task * Metrics)
  : list Task * Metrics :=
  fold_left (fun c i => step requests call_next i c) schedule cfg.

Definition is_suspended (t : Task) : bool :=
  match t with Suspended => true | _ => false end.

Definition is_answered (t : Task) : bool :=
  match t with Finished (Return _) => true | _ => false end.

Definition is_failed (t : Task) : bool :=
  match t with Finished (Raise _) => true | _ => false end.

Definition in_flight (tasks : list Task) : nat :=
  length (List.filter is_suspended tasks).

Definition answered (tasks : list Task) : nat :=
  length (List.filter is_answered tasks).

Definition no_metrics : Metrics :=
  {| active_requests := 0;
     http_requests_total := [];
     http_request_duration_seconds := [] |}.

End MetricsMiddleware.

(** * Reasoning about the monad *)

Section Monad.
Context {A B : Type}.

Lemma bind_Return (m : M A) (k : A -> M B) s a s1 :
  m s = (Return a, s1) -> bind m k s = k a s1.
Proof. intros H. unfold bind. now rewrite H. Qed.

Lemma bind_Raise (m : M A) (k : A -> M B) s e s1 :
  m s = (Raise e, s1) -> bind m k s = (Raise e, s1).
Proof. intros H. unfold bind. now rewrite H. Qed.

Lemma bind_Return_inv (m : M A) (k : A -> M B) s b s' :
  bind m k s = (Return b, s') ->
  exists a s1, m s = (Return a, s1) /\ k a s1 = (Return b, s').
Proof.
  unfold bind. destruct (m s) as [[a | e] s1]; intros H.
  - now exists a, s1.
  - discriminate.
Qed.

Lemma returns_bind (m : M A) (k : A -> M B) s post :
  returns m s (fun a s1 => returns (k a) s1 post) ->
  returns (bind m k) s post.
Proof.
  unfold returns, bind. destruct (m s) as [[a | e] s1]; auto.
Qed.

Lemma returns_mono (m : M A) s (post post' : A -> Services -> Prop) :
  returns m s post -> (forall a s', post a s' -> post' a s') ->
  returns m s post'.
Proof.
  unfold returns. destruct (m s) as [[a | e] s1]; auto.
Qed.

Lemma returns_inv (m : M A) s post :
  returns m s post -> exists a s', m s = (Return a, s') /\ post a s'.
Proof.
  unfold returns. destruct (m s) as [[a | e] s1]; [eauto | tauto].
Qed.

Lemma returns_intro (m : M A) s a s' (post : A -> Services -> Prop) :
  m s = (Return a, s') -> post a s' -> returns m s post.
Proof. unfold returns. now intros ->. Qed.

Lemma track_Return_inv counter histogram (m : M A) s a s' :
  track counter histogram m s = (Return a, s') ->
  exists s1, m s = (Return a, s1) /\ later s1 s'.
Proof.
  unfold track. destruct (m s) as [[a1 | e] s1]; cbn; intros H.
  - injection H as <- <-. exists s1. split; [reflexivity|].
    repeat split; cbn; auto. eexists. rewrite <- app_assoc. reflexivity.
  - discriminate.
Qed.

End Monad.

Lemma later_refl s : later s s.
Proof. repeat split; auto. exists []. now rewrite app_nil_r. Qed.

Lemma later_trans s1 s2 s3 : later s1 s2 -> later s2 s3 -> later s1 s3.
Proof.
  intros (He & Hv & Hg & evs & Hevs) (He' & Hv' & Hg' & evs' & Hevs').
  repeat split; auto. exists (evs ++ evs').
  now rewrite Hevs', Hevs, app_assoc.
Qed.

Lemma returns_ret {A} (a : A) s (post : A -> Services -> Prop) :
  post a s -> returns (ret a) s post.
Proof. auto. Qed.

Lemma later_emit ev s : later s (snd (emit ev s)).
Proof. repeat split; cbn; auto. now exists [ev]. Qed.

Lemma returns_emit ev s (post : unit -> Services -> Prop) :
  (forall s', later s s' -> events s' = events s ++ [ev] -> post tt s') ->
  returns (emit ev) s post.
Proof. intros H. apply H; [apply later_emit | reflexivity]. Qed.

Tactic Notation "bind_inv" hyp(H) :=
  let a := fresh "a" in
  let s1 := fresh "s" in
  let H1 := fresh H in
  apply bind_Return_inv in H as (a & s1 & H1 & H).

Tactic Notation "bind_inv" hyp(H) "as" ident(a) ident(s) ident(H1) :=
  apply bind_Return_inv in H as (a & s & H1 & H).

Lemma subscript_Return_inv {A} (l : list A) i s a s' :
  subscript l i s = (Return a, s') -> l !! i = Some a /\ s' = s.
Proof.
  unfold subscript. destruct (l !! i); cbn; intros H; [|discriminate].
  now injection H as -> ->.
Qed.

Lemma emit_Return_inv ev s u s' :
  emit ev s = (Return u, s') -> later s s'.
Proof. intros H. injection H as _ <-. apply later_emit. Qed.

Lemma format_loop_rows results min_score :
  forall len start acc s out s',
    VectorStoreService.format_loop results min_score (seq start len) acc s
      = (Return out, s') ->
    exists new,
      out = acc ++ new
      /\ map row_of new
         = List.filter (keeps min_score)
             (zip (take len (drop start (ids0 results)))
                  (map score_of (drop start (distances0 results))))
      /\ Forall (fun r => relevance_score (fst r) = snd r) new
      /\ (len <= length (drop start (distances0 results)))%nat.
Proof.
  induction len as [| len IH]; intros start acc s out s' H.
  - cbn in H. injection H as <- <-. exists []. rewrite app_nil_r.
    repeat split; auto. lia.
  - cbn [seq VectorStoreService.format_loop] in H.
    bind_inv H. apply subscript_Return_inv in H0 as [Hds ->].
    bind_inv H. apply subscript_Return_inv in H0 as [Hd ->].
    bind_inv H. apply subscript_Return_inv in H0 as [His ->].
    bind_inv H. apply subscript_Return_inv in H0 as [Hid ->].
    bind_inv H. clear H0.
    bind_inv H.
    apply IH in H as (new & -> & Hrows & Hscore & Hlen).
    assert (Hi : ids0 results = a1) by (unfold ids0; now rewrite His).
    assert (Hdd : distances0 results = a) by (unfold distances0; now rewrite Hds).
    rewrite Hi, Hdd in *.
    rewrite (drop_S _ _ _ Hid), (drop_S _ _ _ Hd). cbn [take map zip zip_with List.filter].
    unfold keeps at 1. cbn [snd]. fold (score_of a0) in *.
    change (Float.sub 1 a0) with (score_of a0) in H0.
    destruct (Float.leb min_score (score_of a0)).
    + bind_inv H0. apply subscript_Return_inv in H1 as [_ ->].
      bind_inv H0. apply subscript_Return_inv in H1 as [_ ->].
      bind_inv H0. apply subscript_Return_inv in H1 as [_ ->].
      bind_inv H0. apply subscript_Return_inv in H1 as [_ ->].
      injection H0 as <- <-.
      eexists. split; [rewrite <- app_assoc; reflexivity|].
      repeat split.
      * cbn. now rewrite Hrows.
      * constructor; auto.
      * cbn. lia.
    + injection H0 as <- <-. exists new. repeat split; auto. cbn. lia.
Qed.

(** * Rounding to binary64 *)

Section FloatFacts.
Import Float.
Local Open Scope Q_scope.

Lemma pow2_pos e : 0 < pow2 e.
Proof. apply Qpower_0_lt. reflexivity. Qed.

Lemma pow2_plus a b : pow2 (a + b) == pow2 a * pow2 b.
Proof. apply Qpower_plus. discriminate. Qed.

Lemma pow2_le a b : (a <= b)%Z -> pow2 a <= pow2 b.
Proof. intros H. apply Qpower_le_compat_l; [exact H | discriminate]. Qed.

Lemma pow2_lt a b : (a < b)%Z -> pow2 a < pow2 b.
Proof. intros H. apply Qpower_lt_compat_l; [exact H | reflexivity]. Qed.

Lemma pow2_lt_inv a b : pow2 a < pow2 b -> (a < b)%Z.
Proof. intros H. apply (Qpower_lt_compat_l_inv 2); [exact H | reflexivity]. Qed.

Lemma pow2_int n : (0 <= n)%Z -> pow2 n == inject_Z (2 ^ n).
Proof. intros H. unfold pow2. now rewrite Zpower_Qpower. Qed.

Lemma ilog2_spec x : 0 < x -> pow2 (ilog2 x) <= x /\ x < pow2 (ilog2 x + 1).
Proof.
  intros Hx. destruct x as [a b]. unfold ilog2. cbn [Qnum Qden].
  assert (Ha : (0 < a)%Z) by (unfold Qlt in Hx; cbn in Hx; lia).
  set (la := Z.log2 a). set (lb := Z.log2 (Z.pos b)).
  destruct (Z.log2_spec a Ha) as [Ha1 Ha2].
  destruct (Z.log2_spec (Z.pos b) (Pos2Z.is_pos b)) as [Hb1 Hb2].
  fold la in Ha1, Ha2. fold lb in Hb1, Hb2.
  assert (Hla : (0 <= la)%Z) by apply Z.log2_nonneg.
  assert (Hlb : (0 <= lb)%Z) by apply Z.log2_nonneg.
  assert (HA1 : pow2 la <= inject_Z a)
    by (rewrite pow2_int by lia; now rewrite <- Zle_Qle).
  assert (HA2 : inject_Z a < pow2 (la + 1))
    by (rewrite pow2_int by lia; rewrite <- Zlt_Qlt; lia).
  assert (HB1 : pow2 lb <= inject_Z (Z.pos b))
    by (rewrite pow2_int by lia; now rewrite <- Zle_Qle).
  assert (HB2 : inject_Z (Z.pos b) < pow2 (lb + 1))
    by (rewrite pow2_int by lia; rewrite <- Zlt_Qlt; lia).
  assert (Hq : (a # b) * inject_Z (Z.pos b) == inject_Z a).
  { unfold Qeq, Qmult, inject_Z. cbn. lia. }
  assert (HB0 : 0 < inject_Z (Z.pos b)) by (unfold Qlt; cbn; lia).
  pose proof (pow2_pos la). pose proof (pow2_pos lb).
  pose proof (pow2_pos (la - lb)). pose proof (pow2_pos (la - lb - 1)).
  destruct (Qle_bool (pow2 (la - lb)) (a # b)) eqn:Hk.
  - apply Qle_bool_iff in Hk. split; [exact Hk|].
    (* a/b < 2^(la - lb + 1) *)
    apply (Qmult_lt_r _ _ (pow2 lb)); [assumption|].
    assert (E : pow2 (la - lb + 1) * pow2 lb == pow2 (la + 1))
      by (rewrite <- pow2_plus; f_equiv; lia).
    rewrite E.
    apply Qle_lt_trans with ((a # b) * inject_Z (Z.pos b)).
    + apply Qmult_le_l; [exact Hx | exact HB1].
    + now rewrite Hq.
  - assert (Hlt : a # b < pow2 (la - lb)).
    { apply Qnot_le_lt. intros Hle. apply Qle_bool_iff in Hle. congruence. }
    split.
    + apply Qlt_le_weak.
      apply (Qmult_lt_r _ _ (inject_Z (Z.pos b))); [assumption|].
      rewrite Hq.
      apply Qlt_le_trans with (pow2 (la - lb - 1) * pow2 (lb + 1)).
      * apply Qmult_lt_l; assumption.
      * rewrite <- pow2_plus.
        replace (la - lb - 1 + (lb + 1))%Z with la by lia. exact HA1.
    + replace (la - lb - 1 + 1)%Z with (la - lb)%Z by lia. exact Hlt.
Qed.

Lemma ilog2_unique x k : pow2 k <= x -> x < pow2 (k + 1) -> ilog2 x = k.
Proof.
  intros H1 H2.
  assert (Hx : 0 < x) by (eapply Qlt_le_trans; [apply pow2_pos | exact H1]).
  destruct (ilog2_spec x Hx) as [S1 S2].
  assert (A : (ilog2 x < k + 1)%Z)
    by (apply pow2_lt_inv; eapply Qle_lt_trans; eassumption).
  assert (B : (k < ilog2 x + 1)%Z)
    by (apply pow2_lt_inv; eapply Qle_lt_trans; eassumption).
  lia.
Qed.

Lemma ilog2_le x y : 0 < x -> x <= y -> (ilog2 x <= ilog2 y)%Z.
Proof.
  intros Hx Hxy.
  assert (Hy : 0 < y) by (eapply Qlt_le_trans; eassumption).
  destruct (ilog2_spec x Hx) as [S1 _]. destruct (ilog2_spec y Hy) as [_ T2].
  assert (A : (ilog2 x < ilog2 y + 1)%Z).
  { apply pow2_lt_inv. eapply Qle_lt_trans; [exact S1|].
    eapply Qle_lt_trans; eassumption. }
  lia.
Qed.

Lemma nearest_even_bounds x :
  (Qfloor x <= nearest_even x <= Qfloor x + 1)%Z.
Proof.
  unfold nearest_even.
  destruct (x - inject_Z (Qfloor x) ?= 1 # 2); [destruct (Z.even _)| |]; lia.
Qed.

Lemma nearest_even_int n : nearest_even (inject_Z n) = n.
Proof.
  unfold nearest_even. rewrite Qfloor_Z.
  assert (H : inject_Z n - inject_Z n < 1 # 2)
    by (unfold Qminus; rewrite Qplus_opp_r; reflexivity).
  pose proof (proj1 (Qlt_alt _ _) H) as E. now rewrite E.
Qed.

Lemma Qcompare_cases x y :
  match x ?= y with
  | Eq => x == y
  | Lt => x < y
  | Gt => y < x
  end.
Proof.
  destruct (x ?= y) eqn:C;
    [apply Qeq_alt | apply Qlt_alt | apply Qgt_alt]; exact C.
Qed.

Lemma nearest_even_le x y : x <= y -> (nearest_even x <= nearest_even y)%Z.
Proof.
  intros Hxy. pose proof (Qfloor_resp_le _ _ Hxy) as Hf.
  pose proof (nearest_even_bounds x) as Bx.
  pose proof (nearest_even_bounds y) as By.
  destruct (Z.eq_dec (Qfloor x) (Qfloor y)) as [E | NE]; [|lia].
  unfold nearest_even. rewrite <- E.
  pose proof (Qcompare_cases (x - inject_Z (Qfloor x)) (1 # 2)) as Cx.
  pose proof (Qcompare_cases (y - inject_Z (Qfloor x)) (1 # 2)) as Cy.
  destruct (x - inject_Z (Qfloor x) ?= 1 # 2);
    destruct (y - inject_Z (Qfloor x) ?= 1 # 2);
    try (destruct (Z.even (Qfloor x))); try lia; exfalso; lra.
Qed.

Lemma nearest_even_le_int x n : x <= inject_Z n -> (nearest_even x <= n)%Z.
Proof.
  intros H. apply nearest_even_le in H. now rewrite nearest_even_int in H.
Qed.

Lemma nearest_even_ge_int x n : inject_Z n <= x -> (n <= nearest_even x)%Z.
Proof.
  intros H. apply nearest_even_le in H. now rewrite nearest_even_int in H.
Qed.

Lemma nearest_even_eq x y : x == y -> nearest_even x = nearest_even y.
Proof.
  intros H. apply Z.le_antisymm; apply nearest_even_le; rewrite H;
    apply Qle_refl.
Qed.

Lemma div_pow2 x e : x / pow2 e == x * pow2 (- e).
Proof. unfold Qdiv, pow2. now rewrite Qpower_opp. Qed.

Lemma pow2_cancel e : pow2 (- e) * pow2 e == 1.
Proof. rewrite <- pow2_plus. now replace (- e + e)%Z with 0%Z by lia. Qed.

Lemma scaled_le x k :
  x <= pow2 k -> (ulp_exponent x <= k)%Z ->
  (nearest_even (x / pow2 (ulp_exponent x)) <= 2 ^ (k - ulp_exponent x))%Z.
Proof.
  intros Hx He. apply nearest_even_le_int.
  rewrite <- pow2_int by lia. rewrite div_pow2.
  replace (k - ulp_exponent x)%Z with (k + - ulp_exponent x)%Z by lia.
  rewrite pow2_plus. apply Qmult_le_compat_r; [exact Hx|].
  apply Qlt_le_weak, pow2_pos.
Qed.

Lemma scaled_ge x k :
  pow2 k <= x -> (ulp_exponent x <= k)%Z ->
  (2 ^ (k - ulp_exponent x) <= nearest_even (x / pow2 (ulp_exponent x)))%Z.
Proof.
  intros Hx He. apply nearest_even_ge_int.
  rewrite <- pow2_int by lia. rewrite div_pow2.
  replace (k - ulp_exponent x)%Z with (k + - ulp_exponent x)%Z by lia.
  rewrite pow2_plus. apply Qmult_le_compat_r; [exact Hx|].
  apply Qlt_le_weak, pow2_pos.
Qed.

Lemma int_times_ulp k e : (e <= k)%Z -> inject_Z (2 ^ (k - e)) * pow2 e == pow2 k.
Proof.
  intros H. rewrite <- pow2_int by lia. rewrite <- pow2_plus.
  now replace (k - e + e)%Z with k by lia.
Qed.

Lemma round_positive_le_pow x k :
  x <= pow2 k -> (ulp_exponent x <= k)%Z -> round_positive x <= pow2 k.
Proof.
  intros Hx He. unfold round_positive. cbv zeta.
  rewrite <- (int_times_ulp k (ulp_exponent x) He).
  apply Qmult_le_compat_r; [|apply Qlt_le_weak, pow2_pos].
  rewrite <- Zle_Qle. now apply scaled_le.
Qed.

Lemma round_positive_ge_pow x k :
  pow2 k <= x -> (ulp_exponent x <= k)%Z -> pow2 k <= round_positive x.
Proof.
  intros Hx He. unfold round_positive. cbv zeta.
  rewrite <- (int_times_ulp k (ulp_exponent x) He).
  apply Qmult_le_compat_r; [|apply Qlt_le_weak, pow2_pos].
  rewrite <- Zle_Qle. now apply scaled_ge.
Qed.

Lemma round_positive_nonneg x : 0 <= x -> 0 <= round_positive x.
Proof.
  intros Hx. unfold round_positive. cbv zeta.
  apply Qmult_le_0_compat; [|apply Qlt_le_weak, pow2_pos].
  change 0 with (inject_Z 0). rewrite <- Zle_Qle.
  apply nearest_even_ge_int. rewrite div_pow2.
  apply Qmult_le_0_compat; [exact Hx | apply Qlt_le_weak, pow2_pos].
Qed.

Lemma round_positive_le x y :
  0 < x -> x <= y -> round_positive x <= round_positive y.
Proof.
  intros Hx Hxy.
  assert (Hy : 0 < y) by (eapply Qlt_le_trans; eassumption).
  pose proof (ilog2_le x y Hx Hxy) as Hlog.
  destruct (ilog2_spec x Hx) as [_ Sx]. destruct (ilog2_spec y Hy) as [Sy _].
  destruct (Z.eq_dec (ulp_exponent x) (ulp_exponent y)) as [E | NE].
  - unfold round_positive. cbv zeta. rewrite E.
    apply Qmult_le_compat_r; [|apply Qlt_le_weak, pow2_pos].
    rewrite <- Zle_Qle. apply nearest_even_le. rewrite !div_pow2.
    apply Qmult_le_compat_r; [exact Hxy | apply Qlt_le_weak, pow2_pos].
  - assert (Hlt : (ulp_exponent x < ulp_exponent y)%Z)
      by (unfold ulp_exponent in *; lia).
    assert (Hey : ulp_exponent y = (ilog2 y - 52)%Z)
      by (unfold ulp_exponent in *; lia).
    apply Qle_trans with (pow2 (ilog2 y)).
    + apply round_positive_le_pow.
      * apply Qlt_le_weak. eapply Qlt_le_trans; [exact Sx|].
        apply pow2_le. unfold ulp_exponent in *. lia.
      * lia.
    + apply round_positive_ge_pow; [exact Sy | lia].
Qed.

Lemma round_spec x :
  round x ==
  match x ?= 0 with
  | Eq => 0
  | Gt => round_positive x
  | Lt => - round_positive (- x)
  end.
Proof. unfold round. apply Qred_correct. Qed.

Lemma round_le x y : x <= y -> round x <= round y.
Proof.
  intros Hxy. rewrite !round_spec.
  pose proof (Qcompare_cases x 0) as Cx. pose proof (Qcompare_cases y 0) as Cy.
  destruct (x ?= 0); destruct (y ?= 0); try (exfalso; lra).
  - apply Qle_refl.
  - apply round_positive_nonneg. lra.
  - pose proof (round_positive_nonneg (- x)). lra.
  - assert (H : round_positive (- y) <= round_positive (- x))
      by (apply round_positive_le; lra).
    lra.
  - pose proof (round_positive_nonneg (- x)).
    pose proof (round_positive_nonneg y). lra.
  - apply round_positive_le; lra.
Qed.

Lemma round_0 : round 0 = 0.
Proof. reflexivity. Qed.

Lemma round_1 : round 1 = 1.
Proof. vm_compute. reflexivity. Qed.

Lemma round_positive_multiple y m :
  y == inject_Z m * pow2 (ulp_exponent y) -> round_positive y == y.
Proof.
  intros H. unfold round_positive. cbv zeta.
  assert (E : y / pow2 (ulp_exponent y) == inject_Z m).
  { rewrite H at 1. apply Qdiv_mult_l.
    pose proof (pow2_pos (ulp_exponent y)). lra. }
  rewrite (nearest_even_eq _ _ E), nearest_even_int. now rewrite <- H.
Qed.

Lemma round_positive_fixed y n e :
  y == inject_Z n * pow2 e ->
  (1 <= n <= 2 ^ 53)%Z -> (-1074 <= e)%Z ->
  round_positive y == y.
Proof.
  intros Hy Hn He.
  destruct (Z.log2_spec n ltac:(lia)) as [L1 L2].
  assert (L0 : (0 <= Z.log2 n)%Z) by apply Z.log2_nonneg.
  assert (L53 : (Z.log2 n <= 53)%Z).
  { rewrite <- (Z.log2_pow2 53) by lia. apply Z.log2_le_mono. lia. }
  set (l := Z.log2 n) in *.
  pose proof (pow2_pos e) as Hpe.
  assert (Hlog : ilog2 y = (l + e)%Z).
  { apply ilog2_unique; rewrite Hy.
    - rewrite pow2_plus. apply Qmult_le_compat_r; [|lra].
      rewrite pow2_int by lia. now rewrite <- Zle_Qle.
    - replace (l + e + 1)%Z with (l + 1 + e)%Z by lia. rewrite pow2_plus.
      apply Qmult_lt_r; [exact Hpe|].
      rewrite pow2_int by lia. rewrite <- Zlt_Qlt. lia. }
  destruct (Z.eq_dec l 53%Z) as [E53 | N53].
  - assert (En : n = (2 ^ 53)%Z) by (rewrite E53 in L1; lia).
    apply (round_positive_multiple y (2 ^ 52)).
    unfold ulp_exponent. rewrite Hlog, E53.
    replace (Z.max (53 + e - 52) (-1074)) with (e + 1)%Z by lia.
    rewrite Hy, En. rewrite <- !pow2_int by lia. rewrite <- !pow2_plus.
    now replace (52 + (e + 1))%Z with (53 + e)%Z by lia.
  - set (ue := ulp_exponent y).
    assert (Hue : (ue <= e)%Z) by (unfold ue, ulp_exponent; rewrite Hlog; lia).
    apply (round_positive_multiple y (n * 2 ^ (e - ue))).
    fold ue. rewrite inject_Z_mult, <- Qmult_assoc.
    rewrite (int_times_ulp e ue Hue). exact Hy.
Qed.

Lemma round_positive_grid x :
  0 < x ->
  round_positive x == 0 \/ round_positive (round_positive x) == round_positive x
                           /\ 0 < round_positive x.
Proof.
  intros Hx. destruct (ilog2_spec x Hx) as [_ Sx].
  set (e := ulp_exponent x).
  set (n := nearest_even (x / pow2 e)).
  assert (Hr : round_positive x == inject_Z n * pow2 e) by reflexivity.
  assert (Hn0 : (0 <= n)%Z).
  { apply nearest_even_ge_int. rewrite div_pow2.
    apply Qmult_le_0_compat; [lra | apply Qlt_le_weak, pow2_pos]. }
  assert (Hn53 : (n <= 2 ^ 53)%Z).
  { set (k := Z.max (ilog2 x + 1) e).
    assert (Hk : (n <= 2 ^ (k - e))%Z).
    { apply scaled_le; [|unfold k; fold e; lia].
      apply Qlt_le_weak. eapply Qlt_le_trans; [exact Sx|].
      apply pow2_le. lia. }
    eapply Z.le_trans; [exact Hk|].
    apply Z.pow_le_mono_r; [lia|]. unfold k, e, ulp_exponent. lia. }
  destruct (Z.eq_dec n 0%Z) as [E0 | N0].
  - left. rewrite Hr, E0. apply Qmult_0_l.
  - right. split.
    + apply (round_positive_fixed _ n e Hr); [lia|].
      unfold e, ulp_exponent. lia.
    + rewrite Hr. apply Qmult_lt_0_compat; [|apply pow2_pos].
      change 0 with (inject_Z 0). rewrite <- Zlt_Qlt. lia.
Qed.

Lemma ilog2_eq x y : 0 < x -> x == y -> ilog2 x = ilog2 y.
Proof.
  intros Hx E. destruct (ilog2_spec x Hx) as [S1 S2].
  symmetry. apply ilog2_unique; now rewrite <- E.
Qed.

Lemma round_positive_eq x y :
  0 < x -> x == y -> round_positive x == round_positive y.
Proof.
  intros Hx E. unfold round_positive, ulp_exponent. cbv zeta.
  rewrite <- (ilog2_eq x y Hx E).
  set (u := pow2 (Z.max (ilog2 x - 52) (-1074))).
  assert (Ed : x / u == y / u)
    by (unfold Qdiv; apply Qmult_comp; [exact E | apply Qeq_refl]).
  now rewrite (nearest_even_eq _ _ Ed).
Qed.

Lemma round_eq x y : x == y -> round x = round y.
Proof.
  intros E. unfold round. apply Qred_complete.
  rewrite <- (Qcompare_comp x y E 0 0 (Qeq_refl 0)).
  pose proof (Qcompare_cases x 0) as Cx.
  destruct (x ?= 0).
  - reflexivity.
  - assert (E' : - x == - y) by now rewrite E.
    now rewrite (round_positive_eq (- x) (- y) ltac:(lra) E').
  - now apply round_positive_eq.
Qed.

Lemma round_idempotent x : round (round x) = round x.
Proof.
  assert (H : round (round x) == round x).
  { pose proof (round_spec x) as Hx. pose proof (Qcompare_cases x 0) as Cx.
    destruct (x ?= 0).
    - rewrite (round_eq _ _ Hx). now rewrite round_0.
    - rewrite (round_eq _ _ Hx).
      destruct (round_positive_grid (- x) ltac:(lra)) as [Z | [F P]].
      + assert (E0 : - round_positive (- x) == 0) by now rewrite Z.
        rewrite (round_eq _ _ E0), round_0, Hx. now rewrite Z.
      + rewrite round_spec.
        pose proof (Qcompare_cases (- round_positive (- x)) 0) as C.
        destruct (- round_positive (- x) ?= 0); try (exfalso; lra).
        rewrite Hx.
        rewrite (round_positive_eq (- - round_positive (- x))
                   (round_positive (- x))); [now rewrite F | lra |].
        apply Qopp_involutive.
    - rewrite (round_eq _ _ Hx).
      destruct (round_positive_grid x Cx) as [Z | [F P]].
      + rewrite (round_eq _ _ Z), round_0, Hx. now rewrite Z.
      + rewrite round_spec.
        pose proof (Qcompare_cases (round_positive x) 0) as C.
        destruct (round_positive x ?= 0); try (exfalso; lra).
        now rewrite Hx, F. }
  unfold round at 1 3. apply Qred_complete.
  rewrite <- !round_spec. exact H.
Qed.

End FloatFacts.

(** ** What the pipeline needs of the float operations *)

Lemma float_leb_spec x y :
  Float.leb x y = true <-> (Float.round x <= Float.round y)%Q.
Proof. unfold Float.leb. apply Qle_bool_iff. Qed.

Lemma float_sub_rounded x y : Float.round (Float.sub x y) = Float.sub x y.
Proof. unfold Float.sub. apply round_idempotent. Qed.

Lemma float_round_nonneg x : (0 <= x)%Q -> (0 <= Float.round x)%Q.
Proof. intros H. apply round_le in H. now rewrite round_0 in H. Qed.

Lemma float_sub_le_1 d : (0 <= d)%Q -> (Float.sub 1 d <= 1)%Q.
Proof.
  intros H. unfold Float.sub.
  apply Qle_trans with (Float.round 1).
  - apply round_le. rewrite round_1.
    pose proof (float_round_nonneg d H). lra.
  - rewrite round_1. apply Qle_refl.
Qed.

Lemma float_sub_antitone d d' :
  (d <= d')%Q -> (Float.sub 1 d' <= Float.sub 1 d)%Q.
Proof.
  intros H. unfold Float.sub. apply round_le.
  apply round_le in H. lra.
Qed.

Lemma format_results_rows results min_score s out s' :
  VectorStoreService.format_results results min_score s = (Return out, s') ->
  map row_of out = List.filter (keeps min_score) (raw_rows results)
  /\ Forall (fun r => relevance_score (fst r) = snd r) out
  /\ length (raw_rows results) = length (ids0 results).
Proof.
  unfold VectorStoreService.format_results, VectorStoreService.has_hits,
    VectorStoreService.hits, raw_rows.
  destruct (ids results) as [| row rest] eqn:Hids.
  - intros H. injection H as <- <-. unfold ids0. rewrite Hids. auto.
  - assert (Hrow : ids0 results = row) by (unfold ids0; now rewrite Hids).
    destruct (0 <? length row)%nat eqn:Hlen.
    + intros H.
      apply format_loop_rows in H as (new & -> & Hrows & Hscore & Hds).
      rewrite Hrow, drop_0, firstn_all in Hrows. rewrite drop_0 in Hds.
      rewrite Hrow. repeat split; auto.
      rewrite length_zip_with, length_map. lia.
    + intros H. injection H as <- <-. rewrite Hrow.
      apply Nat.ltb_ge in Hlen. destruct row; [auto | cbn in Hlen; lia].
Qed.

Lemma search_Return_inv env query_text k min_score s out s' :
  VectorStoreService.search env query_text k min_score s = (Return out, s') ->
  exists emb results s1 s2,
    collection_query env [emb] k = Return results
    /\ VectorStoreService.format_results results min_score s1
       = (Return out, s2).
Proof.
  unfold VectorStoreService.search, track_vector_search. intros H.
  apply track_Return_inv in H as (s1 & H & _).
  unfold VectorStoreService.search_body in H.
  do 3 bind_inv H.
  bind_inv H as emb sa Hemb.
  bind_inv H as results sb Hquery.
  bind_inv H as formatted sc Hformat.
  do 2 bind_inv H. injection H as <- <-.
  unfold call in Hquery. bind_inv Hquery.
  destruct (collection_query env [emb] k) as [r | e] eqn:Hq; [|discriminate].
  injection Hquery as -> ->.
  eauto 10.
Qed.

(** Rows of a kept result come from the index. *)
Lemma raw_rows_lookup results id sc :
  (id, sc) ∈ raw_rows results ->
  exists i d, ids0 results !! i = Some id
              /\ distances0 results !! i = Some d
              /\ sc = score_of d.
Proof.
  unfold raw_rows. intros H.
  apply list_elem_of_lookup in H as [i Hi].
  apply lookup_zip_with_Some in Hi as (x & y & Heq & Hx & Hy).
  injection Heq as -> ->.
  rewrite list_lookup_fmap in Hy.
  destruct (distances0 results !! i) as [d|] eqn:Hd; [|discriminate].
  injection Hy as <-. eauto.
Qed.

Lemma filter_sublist {A} (f : A -> bool) (l : list A) :
  sublist (List.filter f l) l.
Proof.
  induction l as [| x l IH]; cbn.
  - constructor.
  - destruct (f x); now constructor.
Qed.

Lemma elem_of_filter_bool {A} (f : A -> bool) (l : list A) x :
  x ∈ List.filter f l <-> x ∈ l /\ f x = true.
Proof. rewrite !list_elem_of_In. apply filter_In. Qed.

Lemma StronglySorted_sublist {A} (R : A -> A -> Prop) (k l : list A) :
  sublist k l -> StronglySorted R l -> StronglySorted R k.
Proof.
  induction 1 as [| x k l Hsub IH | x k l Hsub IH]; intros Hl.
  - constructor.
  - apply StronglySorted_inv in Hl as [Hl Hx]. constructor; [auto|].
    rewrite Forall_forall in *. intros y Hy. apply Hx.
    eapply sublist_subseteq; eauto.
  - apply StronglySorted_inv in Hl as [Hl _]. auto.
Qed.

Lemma snd_zip_sublist {A B} (l : list A) (k : list B) :
  sublist (map snd (zip l k)) k.
Proof.
  revert k. induction l as [| x l IH]; intros [| y k]; cbn;
    try apply sublist_nil_l.
  now constructor.
Qed.

Lemma scores_descending (ds : list Q) :
  StronglySorted Qle ds ->
  StronglySorted (fun a b => (b <= a)%Q) (map score_of ds).
Proof.
  induction 1 as [| d ds Hds IH Hd]; cbn; constructor; [exact IH|].
  rewrite Forall_forall in *. intros sc Hsc.
  apply list_elem_of_fmap in Hsc as (d' & -> & Hd').
  specialize (Hd d' Hd'). unfold score_of. now apply float_sub_antitone.
Qed.

Lemma search_rows env query_text k min_score s out s' :
  VectorStoreService.search env query_text k min_score s = (Return out, s') ->
  exists emb results,
    collection_query env [emb] k = Return results
    /\ map row_of out = List.filter (keeps min_score) (raw_rows results)
    /\ Forall (fun r => relevance_score (fst r) = snd r) out
    /\ length (raw_rows results) = length (ids0 results).
Proof.
  intros H. apply search_Return_inv in H as (emb & results & s1 & s2 & Hq & H).
  apply format_results_rows in H. eauto.
Qed.

Lemma kept_row min_score results (r : ClauseDict * Q) out :
  map row_of out = List.filter (keeps min_score) (raw_rows results) ->
  r ∈ out ->
  row_of r ∈ raw_rows results /\ Float.leb min_score (snd r) = true.
Proof.
  intros Hrows Hr.
  assert (Hin : row_of r ∈ map row_of out) by (apply list_elem_of_fmap; eauto).
  rewrite Hrows in Hin. apply elem_of_filter_bool in Hin as [Hin Hkeep].
  split; [exact Hin | exact Hkeep].
Qed.

(** A score compared with the threshold is a float already. *)
Lemma keeps_score min_score d :
  Float.leb min_score (score_of d) = true
  <-> (Float.round min_score <= score_of d)%Q.
Proof.
  rewrite float_leb_spec. unfold score_of.
  now rewrite float_sub_rounded.
Qed.

(** Claim C1.  For every raw result of the index query inside [search]
    the score is the float [1.0 - distance]; a result whose score is below
    [min_score] is dropped, not clamped: the rows returned are exactly the
    raw rows that pass the threshold, in number and in content, so every
    score returned is at least [min_score]. *)
Theorem search_scores_and_threshold env query_text k min_score s out s' :
  VectorStoreService.search env query_text k min_score s = (Return out, s') ->
  exists emb results,
    collection_query env [emb] k = Return results
    /\ length (raw_rows results) = length (ids0 results)
    /\ map row_of out = List.filter (keeps min_score) (raw_rows results)
    /\ Forall (fun r =>
                 exists i distance,
                   ids0 results !! i = Some (clause_id (fst r))
                   /\ distances0 results !! i = Some distance
                   /\ snd r = Float.sub 1 distance
                   /\ relevance_score (fst r) = Float.sub 1 distance
                   /\ Float.leb min_score (snd r) = true
                   /\ (Float.round min_score <= snd r)%Q) out
    /\ Forall (fun row =>
                 (snd row < Float.round min_score)%Q ->
                 Float.leb min_score (snd row) = false
                 /\ row ∉ map row_of out)
              (raw_rows results).
Proof.
  intros H.
  apply search_rows in H as (emb & results & Hq & Hrows & Hscore & Hlen).
  exists emb, results. repeat split; auto.
  - rewrite Forall_forall in Hscore. rewrite Forall_forall. intros r Hr.
    destruct (kept_row _ _ _ _ Hrows Hr) as [Hraw Hmin].
    apply raw_rows_lookup in Hraw as (i & d & Hid & Hd & Hsc).
    exists i, d. rewrite (Hscore r Hr). cbn [row_of snd] in Hsc.
    unfold score_of in Hsc. repeat split; auto.
    rewrite Hsc. apply keeps_score. unfold score_of. now rewrite <- Hsc.
  - rewrite Forall_forall. intros [id sc] Hrow Hlt. cbn [snd] in *.
    apply raw_rows_lookup in Hrow as (i & d & _ & _ & Hsc).
    assert (Hleb : Float.leb min_score sc = false).
    { apply not_true_is_false. intros Hkeep. rewrite Hsc in Hkeep, Hlt.
      apply keeps_score in Hkeep. lra. }
    split; [exact Hleb|]. intros Hin.
    rewrite Hrows in Hin. apply elem_of_filter_bool in Hin as [_ Hkeep].
    unfold keeps in Hkeep. cbn [snd] in Hkeep. congruence.
Qed.

(** Claim C5.  The sequence returned by [search] is the raw rows that
    pass [min_score], in the order of the index and each at most as often
    as the index gave it: nothing is sorted again.  When the index answers
    by ascending distance, the scores returned are in descending order,
    rows of equal score staying in the order of the index. *)
Theorem search_preserves_index_order env query_text k min_score s out s' :
  VectorStoreService.search env query_text k min_score s = (Return out, s') ->
  exists emb results,
    collection_query env [emb] k = Return results
    /\ map row_of out = List.filter (keeps min_score) (raw_rows results)
    /\ sublist (map row_of out) (raw_rows results)
    /\ (StronglySorted Qle (distances0 results) ->
        StronglySorted (fun a b => (b <= a)%Q) (map snd out)).
Proof.
  intros H.
  apply search_rows in H as (emb & results & Hq & Hrows & _ & _).
  exists emb, results. split; [exact Hq|]. split; [exact Hrows|].
  assert (Hsub : sublist (map row_of out) (raw_rows results))
    by (rewrite Hrows; apply filter_sublist).
  split; [exact Hsub|]. intros Hsorted.
  replace (map snd out) with (map snd (map row_of out))
    by (rewrite map_map; reflexivity).
  eapply StronglySorted_sublist.
  - apply (fmap_sublist snd), Hsub.
  - eapply StronglySorted_sublist.
    + apply snd_zip_sublist.
    + now apply scores_descending.
Qed.

(** Claim C6.  With [min_score] in [0,1] and every raw distance in
    [0,2], every score returned by [search], and the [relevance_score] of
    its clause, lies in [0,1]. *)
Theorem search_scores_in_unit_interval env query_text k min_score s out s' :
  VectorStoreService.search env query_text k min_score s = (Return out, s') ->
  (0 <= min_score)%Q /\ (min_score <= 1)%Q ->
  (forall emb results,
      collection_query env [emb] k = Return results ->
      Forall (fun d => (0 <= d)%Q /\ (d <= 2)%Q) (distances0 results)) ->
  Forall (fun r => ((0 <= snd r)%Q /\ (snd r <= 1)%Q)
                   /\ (0 <= relevance_score (fst r))%Q
                   /\ (relevance_score (fst r) <= 1)%Q) out.
Proof.
  intros H [Hmin0 Hmin1] Hdist.
  apply search_rows in H as (emb & results & Hq & Hrows & Hscore & _).
  specialize (Hdist emb results Hq).
  rewrite Forall_forall in Hdist. rewrite Forall_forall in Hscore.
  rewrite Forall_forall. intros r Hr.
  destruct (kept_row _ _ _ _ Hrows Hr) as [Hraw Hmin].
  apply raw_rows_lookup in Hraw as (i & d & _ & Hd & Hsc).
  apply list_elem_of_lookup_2 in Hd. destruct (Hdist d Hd) as [Hd0 Hd2].
  rewrite (Hscore r Hr). cbn [row_of snd] in Hsc.
  rewrite Hsc in *. apply keeps_score in Hmin.
  pose proof (float_round_nonneg min_score Hmin0) as Hr0.
  pose proof (float_sub_le_1 d Hd0) as Hle. unfold score_of in *.
  repeat split; lra.
Qed.

Ltac later_solve :=
  repeat split; cbn; auto;
  eexists; rewrite <- ?app_assoc; reflexivity.

Lemma embedder_available_later env s s' :
  embedder_available env s -> later s s' -> embedder_available env s'.
Proof. intros [H | H] (He & _); [left | right]; auto. Qed.

Lemma vector_store_initialize_returns env s :
  vector_store_available env s ->
  returns (when_ (negb (vector_store_initialized s))
                 (VectorStoreService.initialize env)) s
          (fun _ s' => later s s' /\ vector_store_initialized s' = true).
Proof.
  intros Hav. destruct s as [e v g evs]. destruct v; cbn.
  - split; [apply later_refl | reflexivity].
  - destruct Hav as [Hav | (Hclient & Hcoll)]; [discriminate|].
    unfold returns, VectorStoreService.initialize,
      VectorStoreService.get_or_create_collection, call, bind.
    cbn. rewrite Hclient. cbn.
    destruct (get_collection env) as [[] | e1]; cbn.
    + split; [later_solve | reflexivity].
    + destruct Hcoll as [Hcoll | Hcoll]; [discriminate|].
      rewrite Hcoll. cbn. split; [later_solve | reflexivity].
Qed.

Lemma embedding_initialize_returns env s :
  embedder_available env s ->
  returns (when_ (negb (embedding_initialized s))
                 (EmbeddingService.initialize env)) s
          (fun _ s' => later s s' /\ embedding_initialized s' = true).
Proof.
  intros Hav. destruct s as [e v g evs]. destruct e; cbn.
  - split; [apply later_refl | reflexivity].
  - destruct Hav as [Hav | Hload]; [discriminate|]. cbn in Hload.
    unfold returns, EmbeddingService.initialize, bind. cbn.
    rewrite Hload. cbn. split; [later_solve | reflexivity].
Qed.

Lemma encode_single_returns env text embs s :
  embedder_available env s ->
  model_encode env [text] = Return embs ->
  returns (EmbeddingService.encode_single env text) s
          (fun emb s' => later s s' /\ emb = hd [] embs).
Proof.
  intros Hav Henc.
  apply embedding_initialize_returns in Hav.
  apply returns_inv in Hav as ([] & s1 & Hinit & Hlater & _).
  unfold returns, EmbeddingService.encode_single, EmbeddingService.encode,
    track_embedding_operation, track, EmbeddingService.encode_body.
  unfold bind at 1 2 3. cbn [EmbeddingService.is_initialized].
  unfold bind at 1. rewrite Hinit. unfold call, bind, logger, emit. cbn.
  rewrite Henc. cbn.
  destruct Hlater as (He & Hv & Hg & evs & Hevs).
  destruct embs; cbn; (split; [|reflexivity]);
    (repeat split; cbn; auto; rewrite Hevs; eexists;
     rewrite <- ?app_assoc; reflexivity).
Qed.

Lemma no_hits_has_hits results :
  no_hits results -> VectorStoreService.has_hits results = false.
Proof.
  unfold no_hits, ids0, VectorStoreService.has_hits.
  destruct (ids results) as [| row rest]; [reflexivity|].
  cbn. now intros ->.
Qed.

Lemma format_results_no_hits results min_score s :
  no_hits results ->
  VectorStoreService.format_results results min_score s = (Return [], s).
Proof.
  intros H. unfold VectorStoreService.format_results.
  now rewrite no_hits_has_hits.
Qed.

Lemma report_no_hits results s :
  no_hits results ->
  VectorStoreService.report_all_filtered results [] s = (Return tt, s).
Proof.
  intros H. unfold VectorStoreService.report_all_filtered.
  now rewrite no_hits_has_hits.
Qed.

(** Claim C7.  When the index has no entry, that is when it answers every
    query with no id, [search] returns the empty list and raises nothing,
    provided the two services it relies on are available and the query
    text can be embedded. *)
Theorem search_empty_index env query_text k min_score s :
  vector_store_available env s ->
  embedder_available env s ->
  (exists embs, model_encode env [query_text] = Return embs) ->
  (forall emb, exists results,
      collection_query env [emb] k = Return results /\ no_hits results) ->
  exists s',
    VectorStoreService.search env query_text k min_score s = (Return [], s').
Proof.
  intros Hvs Hemb [embs Henc] Hindex.
  apply vector_store_initialize_returns in Hvs.
  apply returns_inv in Hvs as ([] & s1 & Hinit & Hlater1 & _).
  assert (Hemb1 : embedder_available env
                    (snd (logger "info" "Searching vector store" s1))).
  { eapply embedder_available_later; [exact Hemb|].
    eapply later_trans; [exact Hlater1 | apply later_emit]. }
  apply (encode_single_returns env query_text embs) in Hemb1; [|exact Henc].
  apply returns_inv in Hemb1 as (emb & s2 & Hencode & _).
  destruct (Hindex emb) as (results & Hq & Hno).
  unfold VectorStoreService.search, track_vector_search, track,
    VectorStoreService.search_body.
  unfold bind at 1 2. cbn [VectorStoreService.is_initialized].
  rewrite Hinit.
  unfold bind at 1. cbn [logger emit]. cbn [snd logger emit] in Hencode.
  unfold bind at 1. rewrite Hencode.
  unfold bind at 1. unfold call at 1. unfold bind at 1. cbn [emit].
  rewrite Hq.
  unfold bind at 1. cbn [ret].
  rewrite (format_results_no_hits _ _ _ Hno).
  unfold bind at 1. rewrite (report_no_hits _ _ Hno).
  cbn. eexists. reflexivity.
Qed.

(** * Strings *)

Lemma append_String (x : ascii) (a b : string) :
  (String x a ++ b)%string = String x (a ++ b)%string.
Proof. reflexivity. Qed.

Lemma append_nil_l (a : string) : ("" ++ a)%string = a.
Proof. reflexivity. Qed.

Lemma append_assoc (a b c : string) :
  ((a ++ b) ++ c)%string = (a ++ (b ++ c))%string.
Proof.
  induction a as [| x a IH]; [reflexivity|].
  now rewrite !append_String, IH.
Qed.

Lemma append_nil_r (a : string) : (a ++ "")%string = a.
Proof.
  induction a as [| x a IH]; [reflexivity|].
  now rewrite append_String, IH.
Qed.

Lemma prefix_append (sep t : string) : String.prefix sep (sep ++ t) = true.
Proof.
  induction sep as [| x sep IH].
  - rewrite append_nil_l. now destruct t.
  - rewrite append_String. cbn.
    destruct (ascii_dec x x); [exact IH | congruence].
Qed.

Lemma prefix_true_inv (sep s : string) :
  String.prefix sep s = true -> exists t, s = (sep ++ t)%string.
Proof.
  revert s. induction sep as [| x sep IH]; intros s H.
  - now exists s.
  - destruct s as [| y s]; cbn in H; [discriminate|].
    destruct (ascii_dec x y) as [-> |]; [|discriminate].
    apply IH in H as [t ->]. now exists t.
Qed.

Lemma split_scan_nonempty sep : forall s skip piece,
  split_scan sep skip piece s <> [].
Proof.
  induction s as [| c s IH]; intros skip piece; cbn [split_scan];
    [discriminate|].
  destruct skip; [|apply IH].
  destruct (String.prefix sep (String c s)); [discriminate | apply IH].
Qed.

Lemma last_cons_nonempty (x : string) (l : list string) :
  l <> [] -> last_piece (x :: l) = last_piece l.
Proof. destruct l; [congruence | reflexivity]. Qed.

(** Without an occurrence of the separator, the text is one piece. *)
Lemma split_scan_absent sep : forall s piece,
  ~ occurs sep s -> split_scan sep 0 piece s = [(piece ++ s)%string].
Proof.
  induction s as [| c s IH]; intros piece Hno; cbn [split_scan].
  - now rewrite append_nil_r.
  - destruct (String.prefix sep (String c s)) eqn:Hp.
    + exfalso. apply Hno. apply prefix_true_inv in Hp as [t Ht].
      exists ""%string, t. exact Ht.
    + rewrite IH.
      * now rewrite append_assoc, append_String, append_nil_l.
      * intros (a & b & ->). apply Hno. now exists (String c a), b.
Qed.

(** Passing the rest of a matched separator. *)
Lemma split_scan_skip sep : forall t s piece,
  split_scan sep (String.length t) piece (t ++ s)
  = split_scan sep 0 piece s.
Proof.
  induction t as [| c t IH]; intros s piece.
  - reflexivity.
  - rewrite append_String. cbn. apply IH.
Qed.

(** No occurrence of the marker overlaps another one. *)
Lemma marker_no_overlap (pre rest t : string) :
  (String.length pre < 9)%nat -> pre <> ""%string ->
  (pre ++ GenerationService.answer_marker ++ rest)%string
    = (GenerationService.answer_marker ++ t)%string -> False.
Proof.
  unfold GenerationService.answer_marker. intros Hlen Hne H.
  do 9 (destruct pre as [| ? pre];
        [vm_compute in H; congruence|]).
  cbn in Hlen. lia.
Qed.

Lemma split_scan_last_marker post :
  ~ occurs GenerationService.answer_marker post ->
  forall pre skip piece,
    (skip <= String.length pre)%nat ->
    last_piece (split_scan GenerationService.answer_marker skip piece
                  (pre ++ GenerationService.answer_marker ++ post))
    = post.
Proof.
  intros Hno. induction pre as [| c pre IH]; intros skip piece Hskip.
  - cbn in Hskip. assert (skip = 0%nat) as -> by lia.
    rewrite append_nil_l.
    change (GenerationService.answer_marker ++ post)%string
      with (String "A" ("NALYSIS:" ++ post)%string).
    cbn [split_scan].
    rewrite (prefix_append GenerationService.answer_marker post : String.prefix GenerationService.answer_marker (String "A" ("NALYSIS:" ++ post)%string) = true).
    change (String.length GenerationService.answer_marker - 1)%nat
      with (String.length "NALYSIS:").
    rewrite split_scan_skip, split_scan_absent by exact Hno.
    reflexivity.
  - rewrite append_String. cbn [split_scan]. destruct skip as [| skip].
    + destruct (String.prefix _ _) eqn:Hp.
      * rewrite last_cons_nonempty by apply split_scan_nonempty.
        apply IH. apply prefix_true_inv in Hp as [t Ht].
        destruct (le_lt_dec 8 (String.length pre)) as [Hle | Hlt];
          [exact Hle|].
        exfalso. apply (marker_no_overlap (String c pre) post t);
          [cbn; lia | discriminate | exact Ht].
      * apply IH. lia.
    + apply IH. cbn in Hskip. lia.
Qed.

Lemma occursb_complete sep s : occurs sep s -> occursb sep s = true.
Proof.
  intros (a & b & ->). induction a as [| c a IH].
  - rewrite append_nil_l.
    destruct (sep ++ b)%string eqn:E; cbn [occursb]; rewrite <- E;
      now rewrite prefix_append.
  - rewrite append_String. cbn [occursb]. rewrite IH. apply orb_true_r.
Qed.

Lemma string_drop_append (x t : string) :
  string_drop (String.length x) (x ++ t) = t.
Proof.
  induction x as [| c x IH]; [reflexivity|].
  rewrite append_String. exact IH.
Qed.

Lemma followed_by_complete x y s :
  (exists a t, s = (a ++ x ++ t)%string /\ occurs y t) ->
  followed_by x y s = true.
Proof.
  intros (a & t & -> & Hy). induction a as [| c a IH].
  - rewrite append_nil_l.
    assert (H : (String.prefix x (x ++ t)
                 && occursb y (string_drop (String.length x) (x ++ t)))
                = true).
    { now rewrite prefix_append, string_drop_append, occursb_complete. }
    destruct (x ++ t)%string; cbn [followed_by]; now rewrite H.
  - rewrite append_String. cbn [followed_by]. rewrite IH. apply orb_true_r.
Qed.

(** The order the claim asks for can be checked by computation. *)
Lemma bullets_query_instruction_check prompt context q instr :
  bullets_query_instruction prompt context q instr ->
  followed_by context instr prompt = true.
Proof.
  intros (a & b & c & d & ->). apply followed_by_complete.
  exists a, (b ++ q ++ c ++ instr ++ d)%string. split; [reflexivity|].
  exists (b ++ q ++ c)%string, d. now rewrite !append_assoc.
Qed.

(** [strip] removes white space at both ends and nothing else. *)
Lemma lstrip_decompose s :
  exists l, s = (l ++ lstrip s)%string /\ all_space l = true.
Proof.
  induction s as [| c s (l & Hl & Hsp)]; cbn [lstrip].
  - now exists ""%string.
  - destruct (isspace c) eqn:Hc.
    + exists (String c l). rewrite append_String, <- Hl. cbn. now rewrite Hc.
    + now exists ""%string.
Qed.

Lemma lstrip_no_leading s : starts_with_space (lstrip s) = false.
Proof.
  induction s as [| c s IH]; cbn [lstrip]; [reflexivity|].
  destruct (isspace c) eqn:Hc; [exact IH | exact Hc].
Qed.

Lemma rstrip_decompose s :
  exists r, s = (rstrip s ++ r)%string /\ all_space r = true.
Proof.
  induction s as [| c s (r & Hr & Hsp)]; cbn [rstrip].
  - now exists ""%string.
  - destruct (rstrip s) as [| d t] eqn:E.
    + rewrite append_nil_l in Hr. subst r.
      destruct (isspace c) eqn:Hc.
      * exists (String c s). cbn. now rewrite Hc.
      * now exists s.
    + exists r. now rewrite append_String, <- Hr.
Qed.

Lemma rstrip_no_trailing s : ends_with_space (rstrip s) = false.
Proof.
  induction s as [| c s IH]; cbn [rstrip]; [reflexivity|].
  destruct (rstrip s) as [| d t] eqn:E.
  - destruct (isspace c) eqn:Hc; [reflexivity | exact Hc].
  - exact IH.
Qed.

Lemma rstrip_keeps_start s :
  starts_with_space s = false -> starts_with_space (rstrip s) = false.
Proof.
  destruct s as [| c s]; [reflexivity|]. cbn [rstrip starts_with_space].
  intros Hc. destruct (rstrip s); [now rewrite Hc | exact Hc].
Qed.

Lemma strip_spec s :
  (exists l r, s = (l ++ strip s ++ r)%string
               /\ all_space l = true /\ all_space r = true)
  /\ starts_with_space (strip s) = false
  /\ ends_with_space (strip s) = false.
Proof.
  unfold strip. split; [|split].
  - destruct (lstrip_decompose s) as (l & Hl & Hlsp).
    destruct (rstrip_decompose (lstrip s)) as (r & Hr & Hrsp).
    exists l, r. now rewrite <- Hr.
  - apply rstrip_keeps_start, lstrip_no_leading.
  - apply rstrip_no_trailing.
Qed.

(** * Concurrent callers of [initialize] *)

Lemma run_app co sched1 sched2 cfg :
  Asyncio.run co (sched1 ++ sched2) cfg
  = Asyncio.run co sched2 (Asyncio.run co sched1 cfg).
Proof. unfold Asyncio.run. apply fold_left_app. Qed.

Lemma count_emit p ev s :
  count p (snd (emit ev s)) = (count p s + if p ev then 1 else 0)%nat.
Proof.
  unfold count. cbn. rewrite List.filter_app, length_app. cbn.
  now destruct (p ev).
Qed.

Lemma filter_length_insert {A} (p : A -> bool) (l : list A) : forall i x y,
  l !! i = Some x ->
  (length (List.filter p (<[i := y]> l)) + (if p x then 1 else 0)
   = length (List.filter p l) + (if p y then 1 else 0))%nat.
Proof.
  induction l as [| a l IH]; intros [| i] x y H; try discriminate.
  - injection H as ->. cbn. destruct (p x), (p y); cbn; lia.
  - cbn in H. cbn [List.filter]. change (<[S i := y]> (a :: l))
      with (a :: <[i := y]> l). cbn [List.filter].
    specialize (IH i x y H). destruct (p a); cbn [length]; lia.
Qed.

Section SuspendingInitializer.

Variable co : Asyncio.Coroutine.
Variable flag : Services -> bool.
Variables is_load is_start : Event -> bool.

Hypothesis enter_uninitialized : forall s,
  flag s = false ->
  exists s', Asyncio.enter co s = (Return true, s')
             /\ flag s' = false
             /\ count is_load s' = S (count is_load s)
             /\ count is_start s' = S (count is_start s).

Hypothesis resume_loads_nothing : forall s,
  count is_load (snd (Asyncio.resume co s)) = count is_load s
  /\ count is_start (snd (Asyncio.resume co s)) = count is_start s.

Lemma enter_phase n : forall k s,
  (k <= n)%nat -> flag s = false ->
  exists s',
    Asyncio.run co (seq 0 k) (Asyncio.callers n, s)
    = (repeat Asyncio.Suspended k ++ repeat Asyncio.Pending (n - k), s')
    /\ flag s' = false
    /\ count is_load s' = (count is_load s + k)%nat
    /\ count is_start s' = (count is_start s + k)%nat.
Proof.
  induction k as [| k IH]; intros s Hk Hflag.
  - exists s. cbn. rewrite Nat.sub_0_r. repeat split; auto; lia.
  - destruct (IH s) as (s1 & Hrun & Hflag1 & Hload & Hstart); [lia | auto |].
    rewrite seq_S, run_app, Hrun. cbn [Asyncio.run fold_left Asyncio.step].
    rewrite Nat.add_0_l.
    replace (n - k)%nat with (S (n - S k)) by lia.
    cbn [repeat].
    rewrite list_lookup_middle by now rewrite repeat_length.
    destruct (enter_uninitialized s1 Hflag1)
      as (s2 & -> & Hflag2 & Hload2 & Hstart2).
    exists s2.
    rewrite insert_app_r_alt by (rewrite repeat_length; lia).
    rewrite repeat_length, Nat.sub_diag. cbn [insert list_insert].
    rewrite repeat_cons, <- app_assoc. cbn [app].
    repeat split; auto; lia.
Qed.

Lemma resume_phase : forall schedule tasks s,
  Forall (fun t => t <> Asyncio.Pending) tasks ->
  count is_load (snd (Asyncio.run co schedule (tasks, s))) = count is_load s
  /\ count is_start (snd (Asyncio.run co schedule (tasks, s)))
     = count is_start s.
Proof.
  induction schedule as [| i schedule IH]; intros tasks s Hnp; [auto|].
  cbn [Asyncio.run fold_left]. fold (Asyncio.run co schedule).
  unfold Asyncio.step.
  destruct (tasks !! i) as [[| | r] |] eqn:Hi.
  - exfalso. rewrite Forall_forall in Hnp.
    apply (Hnp Asyncio.Pending); [|reflexivity].
    eapply list_elem_of_lookup_2; eauto.
  - destruct (resume_loads_nothing s) as [<- <-].
    destruct (Asyncio.resume co s) as [r s1]. apply IH.
    apply Forall_insert; [exact Hnp | discriminate].
  - now apply IH.
  - now apply IH.
Qed.

(** Every caller that enters before the first load has answered runs a
    load of its own, whatever the callers do next. *)
Lemma all_enter_then_resume n s rest :
  flag s = false ->
  let final := Asyncio.run co (seq 0 n ++ rest) (Asyncio.callers n, s) in
  count is_load (snd final) = (count is_load s + n)%nat
  /\ count is_start (snd final) = (count is_start s + n)%nat.
Proof.
  intros Hflag final. subst final.
  destruct (enter_phase n n s) as (s1 & Hrun & _ & Hload & Hstart);
    [lia | auto |].
  rewrite run_app, Hrun, Nat.sub_diag. cbn [repeat]. rewrite app_nil_r.
  destruct (resume_phase rest (repeat Asyncio.Suspended n) s1)
    as [-> ->]; [|auto].
  apply Forall_forall. intros t Ht. apply list_elem_of_In, repeat_spec in Ht.
  now subst t.
Qed.

End SuspendingInitializer.

Section AnsweringInitializer.

Variable co : Asyncio.Coroutine.
Variable flag : Services -> bool.
Variable is_done : Event -> bool.

Hypothesis enter_suspends : forall s,
  flag s = false ->
  exists s', Asyncio.enter co s = (Return true, s')
             /\ flag s' = false
             /\ count is_done s' = count is_done s.

Hypothesis resume_completes : forall s,
  exists s', Asyncio.resume co s = (Return tt, s')
             /\ flag s' = true
             /\ count is_done s' = S (count is_done s).

Lemma all_enter n : forall k s,
  (k <= n)%nat -> flag s = false ->
  exists s',
    Asyncio.run co (seq 0 k) (Asyncio.callers n, s)
    = (repeat Asyncio.Suspended k ++ repeat Asyncio.Pending (n - k), s')
    /\ flag s' = false
    /\ count is_done s' = count is_done s.
Proof.
  induction k as [| k IH]; intros s Hk Hflag.
  - exists s. cbn. rewrite Nat.sub_0_r. repeat split; auto.
  - destruct (IH s) as (s1 & Hrun & Hflag1 & Hdone); [lia | auto |].
    rewrite seq_S, run_app, Hrun. cbn [Asyncio.run fold_left Asyncio.step].
    rewrite Nat.add_0_l.
    replace (n - k)%nat with (S (n - S k)) by lia.
    cbn [repeat].
    rewrite list_lookup_middle by now rewrite repeat_length.
    destruct (enter_suspends s1 Hflag1) as (s2 & -> & Hflag2 & Hdone2).
    exists s2.
    rewrite insert_app_r_alt by (rewrite repeat_length; lia).
    rewrite repeat_length, Nat.sub_diag. cbn [insert list_insert].
    rewrite repeat_cons, <- app_assoc. cbn [app].
    repeat split; auto; lia.
Qed.

Lemma resume_in_turn n : forall k s,
  (k <= n)%nat ->
  exists s',
    Asyncio.run co (seq 0 k) (repeat Asyncio.Suspended n, s)
    = (repeat (Asyncio.Finished (Return tt)) k
       ++ repeat Asyncio.Suspended (n - k), s')
    /\ count is_done s' = (count is_done s + k)%nat
    /\ ((0 < k)%nat -> flag s' = true).
Proof.
  induction k as [| k IH]; intros s Hk.
  - exists s. cbn. rewrite Nat.sub_0_r. repeat split; auto; lia.
  - destruct (IH s) as (s1 & Hrun & Hdone & _); [lia|].
    rewrite seq_S, run_app, Hrun. cbn [Asyncio.run fold_left Asyncio.step].
    rewrite Nat.add_0_l.
    replace (n - k)%nat with (S (n - S k)) by lia.
    cbn [repeat].
    rewrite list_lookup_middle by now rewrite repeat_length.
    destruct (resume_completes s1) as (s2 & -> & Hflag2 & Hdone2).
    exists s2.
    rewrite insert_app_r_alt by (rewrite repeat_length; lia).
    rewrite repeat_length, Nat.sub_diag. cbn [insert list_insert].
    rewrite repeat_cons, <- app_assoc. cbn [app].
    repeat split; auto; lia.
Qed.

(** When the load answers, the first caller to resume sets the flag, and
    every caller that was suspended completes the initialization again. *)
Lemma all_complete n s :
  flag s = false -> (0 < n)%nat ->
  let first := Asyncio.run co (seq 0 n ++ [0%nat]) (Asyncio.callers n, s) in
  let final := Asyncio.run co (seq 0 n ++ seq 0 n) (Asyncio.callers n, s) in
  flag (snd first) = true
  /\ count is_done (snd first) = S (count is_done s)
  /\ Forall completed (fst final)
  /\ count is_done (snd final) = (count is_done s + n)%nat.
Proof.
  intros Hflag Hn first final. subst first final.
  destruct (all_enter n n s) as (s1 & Hrun & _ & Hdone); [lia | auto |].
  rewrite !run_app, Hrun, Nat.sub_diag. cbn [repeat]. rewrite app_nil_r.
  destruct (resume_in_turn n 1 s1) as (s2 & Hrun1 & Hdone1 & Hflag1); [lia|].
  destruct (resume_in_turn n n s1) as (s3 & Hrunn & Hdonen & _); [lia|].
  change [0%nat] with (seq 0 1). rewrite Hrun1, Hrunn. cbn [fst snd].
  rewrite Nat.sub_diag. cbn [repeat]. rewrite app_nil_r.
  repeat split; [apply Hflag1; lia | lia | | lia].
  apply Forall_forall. intros t Ht. apply list_elem_of_In, repeat_spec in Ht.
  exact Ht.
Qed.

End AnsweringInitializer.

Ltac count_events :=
  unfold count; cbn; rewrite ?List.filter_app, ?length_app; cbn; lia.

(** An initialized back end is left alone. *)
Lemma embedding_initialize_ready env s :
  embedding_initialized s = true ->
  EmbeddingService.initialize env s = (Return tt, s).
Proof.
  intros H. unfold EmbeddingService.initialize,
    EmbeddingService.initialize_enter, EmbeddingService.is_initialized, bind.
  now rewrite H.
Qed.

Lemma generation_initialize_ready env s :
  generation_initialized s = true ->
  GenerationService.initialize env s = (Return tt, s).
Proof.
  intros H. unfold GenerationService.initialize,
    GenerationService.initialize_enter, GenerationService.is_initialized, bind.
  now rewrite H.
Qed.

Lemma vector_store_initialize_ready env s :
  vector_store_initialized s = true ->
  VectorStoreService.initialize env s = (Return tt, s).
Proof.
  intros H. unfold VectorStoreService.initialize,
    VectorStoreService.is_initialized, bind.
  now rewrite H.
Qed.

Lemma embedding_enter_uninitialized s :
  embedding_initialized s = false ->
  exists s', EmbeddingService.initialize_enter s = (Return true, s')
             /\ embedding_initialized s' = false
             /\ count is_embedder_load s' = S (count is_embedder_load s)
             /\ count (is_log embedding_start_log) s'
                = S (count (is_log embedding_start_log) s).
Proof.
  intros H. unfold EmbeddingService.initialize_enter,
    EmbeddingService.is_initialized, bind. rewrite H. cbn.
  eexists. split; [reflexivity|]. repeat split; [exact H | count_events ..].
Qed.

Lemma embedding_resume_loads_nothing env s :
  let s' := snd (EmbeddingService.initialize_resume (SentenceTransformer env) s) in
  count is_embedder_load s' = count is_embedder_load s
  /\ count (is_log embedding_start_log) s'
     = count (is_log embedding_start_log) s.
Proof.
  unfold EmbeddingService.initialize_resume.
  destruct (SentenceTransformer env); cbn; split; try reflexivity;
    count_events.
Qed.

Lemma generation_enter_uninitialized s :
  generation_initialized s = false ->
  exists s', GenerationService.initialize_enter s = (Return true, s')
             /\ generation_initialized s' = false
             /\ count is_llm_load s' = S (count is_llm_load s)
             /\ count (is_log generation_start_log) s'
                = S (count (is_log generation_start_log) s).
Proof.
  intros H. unfold GenerationService.initialize_enter,
    GenerationService.is_initialized, bind. rewrite H. cbn.
  eexists. split; [reflexivity|]. repeat split; [exact H | count_events ..].
Qed.

Lemma generation_resume_loads_nothing env s :
  let s' := snd (GenerationService.initialize_resume (from_pretrained env) s) in
  count is_llm_load s' = count is_llm_load s
  /\ count (is_log generation_start_log) s'
     = count (is_log generation_start_log) s.
Proof.
  unfold GenerationService.initialize_resume.
  destruct (from_pretrained env); cbn; split; try reflexivity;
    count_events.
Qed.

Lemma vector_store_initialize_fresh env s :
  vector_store_initialized s = false ->
  vector_store_available env s ->
  exists s', VectorStoreService.initialize env s = (Return tt, s')
             /\ vector_store_initialized s' = true
             /\ count is_chroma_open s' = S (count is_chroma_open s)
             /\ count (is_log vector_store_start_log) s'
                = S (count (is_log vector_store_start_log) s).
Proof.
  intros H [Hav | (Hclient & Hcoll)]; [congruence|].
  unfold VectorStoreService.initialize, VectorStoreService.is_initialized,
    VectorStoreService.get_or_create_collection, call, bind.
  rewrite H. cbn. rewrite Hclient. cbn.
  destruct (get_collection env) as [[] | e1]; cbn.
  - eexists. split; [reflexivity|]. repeat split; count_events.
  - destruct Hcoll as [Hcoll | Hcoll]; [discriminate|]. rewrite Hcoll. cbn.
    eexists. split; [reflexivity|]. repeat split; count_events.
Qed.


Lemma vector_store_step_opened env s i tasks s1 :
  Forall settled tasks -> opened_once s s1 ->
  let cfg := Asyncio.step (Asyncio.vector_store_initialize env) i (tasks, s1) in
  Forall settled (fst cfg) /\ opened_once s (snd cfg).
Proof.
  intros Hset Hopen. unfold Asyncio.step.
  destruct (tasks !! i) as [[| | r] |] eqn:Hi; cbn; auto.
  - unfold bind. rewrite vector_store_initialize_ready by apply Hopen. cbn.
    split; [|exact Hopen]. apply Forall_insert; [exact Hset | now right].
  - exfalso. rewrite Forall_forall in Hset.
    destruct (Hset Asyncio.Suspended) as [? | ?]; try discriminate.
    eapply list_elem_of_lookup_2; eauto.
Qed.

Lemma vector_store_run_opened env s : forall schedule tasks s1,
  Forall settled tasks -> opened_once s s1 ->
  let cfg := Asyncio.run (Asyncio.vector_store_initialize env) schedule
               (tasks, s1) in
  Forall settled (fst cfg) /\ opened_once s (snd cfg).
Proof.
  induction schedule as [| i schedule IH]; intros tasks s1 Hset Hopen;
    [now split|].
  cbn [Asyncio.run fold_left].
  destruct (vector_store_step_opened env s i tasks s1 Hset Hopen) as [H1 H2].
  destruct (Asyncio.step _ i (tasks, s1)) as [tasks' s2].
  now apply IH.
Qed.

Lemma callers_settled n : Forall settled (Asyncio.callers n).
Proof.
  apply Forall_forall. intros t Ht.
  apply list_elem_of_In, repeat_spec in Ht. now left.
Qed.

(** Whatever the schedule, the callers of the vector store open the
    database once. *)
Lemma vector_store_single_flight env n s : forall schedule,
  vector_store_initialized s = false ->
  vector_store_available env s ->
  (exists i, i ∈ schedule /\ (i < n)%nat) ->
  let cfg := Asyncio.run (Asyncio.vector_store_initialize env) schedule
               (Asyncio.callers n, s) in
  Forall settled (fst cfg) /\ opened_once s (snd cfg).
Proof.
  induction schedule as [| i schedule IH]; intros Hflag Hav (j & Hj & Hjn).
  - now apply elem_of_nil in Hj.
  - cbn [Asyncio.run fold_left]. fold (Asyncio.run (Asyncio.vector_store_initialize env) schedule).
    unfold Asyncio.step.
    destruct (Asyncio.callers n !! i) as [t |] eqn:Hi.
    + assert (t = Asyncio.Pending) as ->.
      { apply list_elem_of_lookup_2, list_elem_of_In, repeat_spec in Hi.
        exact Hi. }
      cbn [Asyncio.vector_store_initialize Asyncio.enter]. unfold bind.
      destruct (vector_store_initialize_fresh env s Hflag Hav)
        as (s1 & -> & Hopen).
      cbn [ret]. apply vector_store_run_opened; [|exact Hopen].
      apply Forall_insert; [apply callers_settled | now right].
    + apply IH; auto.
      apply elem_of_cons in Hj as [-> | Hj]; [|eauto].
      apply lookup_ge_None in Hi. unfold Asyncio.callers in Hi.
      rewrite repeat_length in Hi. lia.
Qed.

(** ** When the database is not there *)

Lemma vector_store_enter_raises env e s :
  vector_store_initialized s = false ->
  vector_store_fails env e ->
  exists s',
    Asyncio.enter (Asyncio.vector_store_initialize env) s = (Raise e, s')
    /\ opened_in_vain 1 s s'.
Proof.
  intros H Hfail.
  unfold Asyncio.vector_store_initialize, Asyncio.enter,
    VectorStoreService.initialize, VectorStoreService.is_initialized,
    VectorStoreService.get_or_create_collection, call, bind.
  rewrite H. cbn.
  destruct Hfail as [Hclient | (Hclient & [e1 Hget] & Hcreate)];
    rewrite Hclient; cbn.
  - eexists. split; [reflexivity|]. unfold opened_in_vain.
    repeat split; [exact H | count_events ..].
  - rewrite Hget. cbn. rewrite Hcreate. cbn.
    eexists. split; [reflexivity|]. unfold opened_in_vain.
    repeat split; [exact H | count_events ..].
Qed.

Lemma callers_that_ran_none n : callers_that_ran (Asyncio.callers n) = 0%nat.
Proof.
  unfold callers_that_ran, Asyncio.callers.
  induction n as [| n IH]; [reflexivity | exact IH].
Qed.

Lemma vector_store_step_fails env e s i tasks s1 :
  vector_store_fails env e ->
  Forall (failed_with e) tasks ->
  opened_in_vain (callers_that_ran tasks) s s1 ->
  let cfg := Asyncio.step (Asyncio.vector_store_initialize env) i (tasks, s1) in
  Forall (failed_with e) (fst cfg)
  /\ opened_in_vain (callers_that_ran (fst cfg)) s (snd cfg).
Proof.
  intros Hfail Hall Hopen. unfold Asyncio.step.
  destruct (tasks !! i) as [[| | r] |] eqn:Hi; cbn [fst snd]; auto.
  - destruct Hopen as (Hflag & Hopened & Hlog).
    destruct (vector_store_enter_raises env e s1 Hflag Hfail)
      as (s2 & -> & Hflag2 & Hopened2 & Hlog2).
    cbn [fst snd]. split.
    + apply Forall_insert; [exact Hall | now right].
    + pose proof (filter_length_insert has_run tasks i _
                    (Asyncio.Finished (Raise e)) Hi) as Hran.
      cbn [has_run] in Hran. unfold opened_in_vain, callers_that_ran in *.
      repeat split; [exact Hflag2 | lia ..].
  - exfalso. rewrite Forall_forall in Hall.
    destruct (Hall Asyncio.Suspended) as [? | ?]; try discriminate.
    eapply list_elem_of_lookup_2; eauto.
Qed.

(** Whatever the schedule, each caller that runs opens the database for
    itself and receives the exception. *)
Lemma vector_store_no_shared_failure env e s :
  vector_store_fails env e ->
  forall schedule tasks s1,
    Forall (failed_with e) tasks ->
    opened_in_vain (callers_that_ran tasks) s s1 ->
    let cfg := Asyncio.run (Asyncio.vector_store_initialize env) schedule
                 (tasks, s1) in
    Forall (failed_with e) (fst cfg)
    /\ opened_in_vain (callers_that_ran (fst cfg)) s (snd cfg).
Proof.
  intros Hfail.
  induction schedule as [| i schedule IH]; intros tasks s1 Hall Hopen;
    [now split|].
  cbn [Asyncio.run fold_left].
  destruct (vector_store_step_fails env e s i tasks s1 Hfail Hall Hopen)
    as [H1 H2].
  destruct (Asyncio.step _ i (tasks, s1)) as [tasks' s2].
  now apply IH.
Qed.

Lemma callers_failed_with e n : Forall (failed_with e) (Asyncio.callers n).
Proof.
  apply Forall_forall. intros t Ht.
  apply list_elem_of_In, repeat_spec in Ht. now left.
Qed.

(** ** When the load answers *)

Lemma embedding_enter_suspends s :
  embedding_initialized s = false ->
  exists s', EmbeddingService.initialize_enter s = (Return true, s')
             /\ embedding_initialized s' = false
             /\ count (is_log embedding_done_log) s'
                = count (is_log embedding_done_log) s.
Proof.
  intros H. unfold EmbeddingService.initialize_enter,
    EmbeddingService.is_initialized, bind. rewrite H. cbn.
  eexists. split; [reflexivity|]. repeat split; [exact H | count_events].
Qed.

Lemma embedding_resume_completes s :
  exists s', EmbeddingService.initialize_resume (Return tt) s = (Return tt, s')
             /\ embedding_initialized s' = true
             /\ count (is_log embedding_done_log) s'
                = S (count (is_log embedding_done_log) s).
Proof.
  unfold EmbeddingService.initialize_resume, bind. cbn.
  eexists. split; [reflexivity|]. repeat split; count_events.
Qed.

Lemma generation_enter_suspends s :
  generation_initialized s = false ->
  exists s', GenerationService.initialize_enter s = (Return true, s')
             /\ generation_initialized s' = false
             /\ count (is_log generation_done_log) s'
                = count (is_log generation_done_log) s.
Proof.
  intros H. unfold GenerationService.initialize_enter,
    GenerationService.is_initialized, bind. rewrite H. cbn.
  eexists. split; [reflexivity|]. repeat split; [exact H | count_events].
Qed.

Lemma generation_resume_completes s :
  exists s', GenerationService.initialize_resume (Return tt) s = (Return tt, s')
             /\ generation_initialized s' = true
             /\ count (is_log generation_done_log) s'
                = S (count (is_log generation_done_log) s).
Proof.
  unfold GenerationService.initialize_resume, bind. cbn.
  eexists. split; [reflexivity|]. repeat split; count_events.
Qed.

(** Claim C10, amended.  Encoding the empty list never calls
    [model.encode].  On an initialized service it returns the empty list
    and loads nothing.  On a service that is not initialized it first
    loads the embedding model, once: it returns the empty list when the
    load answers and raises the load's exception when it does not.  When
    the embedder is available and the batch encoding of one text yields
    no embedding, [encode_single] returns the empty vector instead of
    raising an index error. *)
Theorem encode_empty_calls_no_model env s :
  let r := EmbeddingService.encode env [] s in
  count is_model_encode (snd r) = count is_model_encode s
  /\ (embedding_initialized s = true ->
      fst r = Return []
      /\ count is_embedder_load (snd r) = count is_embedder_load s)
  /\ (embedding_initialized s = false ->
      count is_embedder_load (snd r) = S (count is_embedder_load s)
      /\ (SentenceTransformer env = Return tt ->
          fst r = Return [] /\ embedding_initialized (snd r) = true)
      /\ (forall e, SentenceTransformer env = Raise e ->
            fst r = Raise e /\ embedding_initialized (snd r) = false))
  /\ (forall text,
         embedder_available env s ->
         model_encode env [text] = Return [] ->
         fst (EmbeddingService.encode_single env text s) = Return []).
Proof.
  cbv zeta. split; [|split; [|split]].
  - destruct s as [e v g evs].
    unfold EmbeddingService.encode, track_embedding_operation, track,
      EmbeddingService.encode_body, EmbeddingService.initialize,
      EmbeddingService.initialize_enter, EmbeddingService.initialize_resume,
      EmbeddingService.is_initialized, bind.
    destruct e; cbn; [count_events|].
    destruct (SentenceTransformer env) as [[] | e1]; cbn; count_events.
  - destruct s as [e v g evs]. cbn. intros ->.
    unfold EmbeddingService.encode, track_embedding_operation, track,
      EmbeddingService.encode_body, EmbeddingService.initialize,
      EmbeddingService.initialize_enter, EmbeddingService.is_initialized,
      bind.
    cbn. split; [reflexivity | count_events].
  - destruct s as [e v g evs]. cbn. intros ->.
    unfold EmbeddingService.encode, track_embedding_operation, track,
      EmbeddingService.encode_body, EmbeddingService.initialize,
      EmbeddingService.initialize_enter, EmbeddingService.initialize_resume,
      EmbeddingService.is_initialized, bind.
    destruct (SentenceTransformer env) as [[] | e1]; cbn;
      (split; [count_events|]);
      (split; [intros H | intros e0 H]); try discriminate;
      try (split; reflexivity).
    injection H as <-. split; reflexivity.
  - intros text Hav Henc.
    apply (encode_single_returns env text []) in Hav; [|exact Henc].
    apply returns_inv in Hav as (emb & s' & Hrun & _ & ->).
    now rewrite Hrun.
Qed.

Lemma encode_empty_calls_no_model_witness :
  fst (EmbeddingService.encode Sample.env [] fresh_services) = Return []
  /\ embedding_initialized
       (snd (EmbeddingService.encode Sample.env [] fresh_services)) = true.
Proof.
  destruct (encode_empty_calls_no_model Sample.env fresh_services)
    as (_ & _ & Hfresh & _).
  apply Hfresh; reflexivity.
Defined.

(** Claim C10 as stated fails: on an embedding service that is not
    initialized yet, encoding the empty list loads the embedding model
    before it returns, and it raises when the model cannot be loaded. *)
Lemma encode_empty_loads_model :
  let r := EmbeddingService.encode Sample.env [] fresh_services in
  let r' := EmbeddingService.encode env_nothing_loads [] fresh_services in
  fst r = Return []
  /\ count is_embedder fresh_services = 0%nat
  /\ count is_embedder (snd r) = 1%nat
  /\ SentenceTransformer_load ∈ events (snd r)
  /\ fst r' = Raise (Exception "OSError" "model not found")
  /\ fst r' <> Return [].
Proof.
  vm_compute. repeat split; try discriminate.
  apply list_elem_of_further, list_elem_of_here.
Qed.

(** Claim C4, amended.  [generate_analysis] with no clause never calls
    the back end's generation.  On an initialized service it returns the
    fixed message and does nothing else; on a service that is not
    initialized it first loads the language model, once, and then returns
    the fixed message. *)
Theorem analyze_no_clauses env q s :
  let r := GenerationService.generate_analysis env q [] s in
  count is_llm_generate (snd r) = count is_llm_generate s
  /\ (generation_initialized s = true ->
      r = (Return GenerationService.no_clauses_message, s))
  /\ (generation_initialized s = false ->
      from_pretrained env = Return tt ->
      fst r = Return GenerationService.no_clauses_message
      /\ generation_initialized (snd r) = true
      /\ count is_llm_load (snd r) = S (count is_llm_load s)).
Proof.
  destruct s as [e v g evs].
  unfold GenerationService.generate_analysis, GenerationService.initialize,
    GenerationService.initialize_enter, GenerationService.initialize_resume,
    GenerationService.is_initialized, bind.
  destruct g; cbn.
  - repeat split; auto. discriminate.
  - destruct (from_pretrained env) as [[] | e1]; cbn;
      (repeat split; try discriminate; try (intros; reflexivity);
       try count_events).
Qed.

Lemma analyze_no_clauses_witness :
  fst (GenerationService.generate_analysis Sample.env Sample.claim []
         fresh_services)
  = Return GenerationService.no_clauses_message
  /\ generation_initialized
       (snd (GenerationService.generate_analysis Sample.env Sample.claim []
               fresh_services)) = true
  /\ count is_llm_load
       (snd (GenerationService.generate_analysis Sample.env Sample.claim []
               fresh_services))
     = S (count is_llm_load fresh_services).
Proof.
  apply (analyze_no_clauses Sample.env Sample.claim fresh_services);
    reflexivity.
Defined.

(** Claim C4 as stated fails: on a generation service that is not
    initialized yet, the request with no clause loads the language model,
    which is work on the generation back end. *)
Lemma analyze_no_clauses_loads_model :
  let r := GenerationService.generate_analysis Sample.env Sample.claim []
             fresh_services in
  fst r = Return GenerationService.no_clauses_message
  /\ count is_llm_work fresh_services = 0%nat
  /\ count is_llm_work (snd r) = 1%nat
  /\ LLM_from_pretrained ∈ events (snd r).
Proof.
  vm_compute. repeat split. apply list_elem_of_further, list_elem_of_here.
Qed.

(** * The request handler *)

Lemma validate_state env clause_dict s :
  snd (PolicyClause_validate env clause_dict s) = s.
Proof.
  unfold PolicyClause_validate.
  now destruct (Float.leb 0 _ && Float.leb _ 1).
Qed.

Lemma comprehension_validate_state env out : forall s,
  snd (comprehension (policy_clause_of env) out s) = s.
Proof.
  induction out as [| [d sc] out IH]; intros s; [reflexivity|].
  cbn [comprehension]. unfold bind at 1. cbn [policy_clause_of].
  pose proof (validate_state env d s) as Hs.
  destruct (PolicyClause_validate env d s) as [[c | e] s1]; cbn in Hs; subst s1;
    [|reflexivity].
  unfold bind at 1. specialize (IH s).
  destruct (comprehension _ out s) as [[cs | e] s1]; cbn in IH; subst s1;
    reflexivity.
Qed.

(** Claim C2, amended.  Once retrieval has succeeded and its clauses are
    validated, the outcome of the generation step decides the response: if
    generation raises, the handler raises one HTTP 500 error whose detail
    is the text of that exception, and no clause is returned; if
    generation returns, or is skipped, the response carries the clauses. *)
Theorem generation_outcome_decides_response env request s out s1 clauses :
  let q := claim_description request in
  let rag := truthy_bool (is_enable_rag request) && truthy_list clauses in
  let s2 := snd (logger "info"
                   "RAG analysis enabled, generating AI response" s1) in
  let generation :=
    GenerationService.generate_analysis env q (map model_dump clauses) s2 in
  VectorStoreService.search env q
    (or_int (max_results request) settings.max_results)
    (or_float (min_score request) 0)
    (snd (logger "info" "Policy search request received" s))
  = (Return out, s1) ->
  fst (comprehension (policy_clause_of env) out s1) = Return clauses ->
  (forall e, rag = true -> fst generation = Raise e ->
     fst (search_policies env request s)
     = Raise (HTTPException 500
                ("Internal server error: " ++ str_exn e)%string))
  /\ (forall text, rag = true -> fst generation = Return text ->
       fst (search_policies env request s)
       = Return {| query := q; results := clauses; analysis := Some text;
                   total_results := length clauses |})
  /\ (rag = false ->
       fst (search_policies env request s)
       = Return {| query := q; results := clauses; analysis := None;
                   total_results := length clauses |}).
Proof.
  intros q rag s2 generation Hsearch Hvalid.
  pose proof (comprehension_validate_state env out s1) as Hst.
  destruct (comprehension (policy_clause_of env) out s1)
    as [[cs | e0] s1'] eqn:Hcomp;
    cbn in Hvalid, Hst; [|discriminate].
  injection Hvalid as ->. subst s1'.
  subst generation s2 rag q. cbn [logger emit snd] in *.
  eassert (Hrun : search_policies env request s = _).
  { unfold search_policies, try_except, search_policies_body.
    unfold bind at 1. cbn [logger emit].
    unfold bind at 1. rewrite Hsearch.
    unfold bind at 1. rewrite Hcomp.
    unfold bind at 1. reflexivity. }
  rewrite Hrun. clear Hrun. unfold generation_step.
  destruct (truthy_bool (is_enable_rag request) && truthy_list clauses).
  - unfold bind, logger, emit.
    destruct (GenerationService.generate_analysis _ _ _ _)
      as [[t | e1] s3]; cbn; (split; [|split]); intros; congruence.
  - cbn. split; [|split]; intros; congruence.
Qed.

Lemma generation_outcome_decides_response_witness :
  fst (search_policies Sample.env_generation_fails Sample.request
         fresh_services)
  = Raise (HTTPException 500 "Internal server error: out of memory").
Proof.
  pose (s0 := snd (logger "info" "Policy search request received"
                     fresh_services)).
  pose (r := VectorStoreService.search Sample.env_generation_fails
               Sample.claim 3 (1 # 2) s0).
  destruct (generation_outcome_decides_response
              Sample.env_generation_fails Sample.request fresh_services
              [(Sample.clause_001, Float.sub 1 (1 # 10))] (snd r)
              [{| pc_clause_id := "CLAUSE_001";
                  pc_clause_text := Sample.clause_001_text;
                  pc_policy_type := Some "Auto Insurance";
                  pc_section := Some "Coverage";
                  pc_relevance_score := Float.sub 1 (1 # 10) |}])
    as (Hfail & _ & _).
  - vm_compute. reflexivity.
  - vm_compute. reflexivity.
  - apply (Hfail (Exception "RuntimeError" "out of memory"));
      vm_compute; reflexivity.
Defined.

(** Claim C2 as stated fails: the retrieval has succeeded with one clause,
    the generation fails, and the caller receives an error and no clause. *)
Lemma generation_failure_discards_results :
  (exists s1,
      VectorStoreService.search Sample.env_generation_fails Sample.claim 3
        (1 # 2)
        (snd (logger "info" "Policy search request received" fresh_services))
      = (Return [(Sample.clause_001, Float.sub 1 (1 # 10))], s1))
  /\ fst (search_policies Sample.env_generation_fails Sample.request
            fresh_services)
     = Raise (HTTPException 500 "Internal server error: out of memory")
  /\ ~ (exists response,
          fst (search_policies Sample.env_generation_fails Sample.request
                 fresh_services) = Return response).
Proof.
  split; [|split].
  - exists (snd (VectorStoreService.search Sample.env_generation_fails
                   Sample.claim 3 (1 # 2)
                   (snd (logger "info" "Policy search request received"
                           fresh_services)))).
    vm_compute. reflexivity.
  - vm_compute. reflexivity.
  - intros [response H]. vm_compute in H. discriminate.
Qed.

(** Claim C3, amended.  A call of [initialize] that starts on an
    initialized back end does nothing.  The [initialize] of the vector
    store has no suspension point, so its callers run one after another
    whatever the schedule: when the database is available, exactly one of
    them opens it, all that ran have returned normally and it is never
    opened again; when it is not, nothing is shared, each caller that ran
    has opened the database for itself and received the exception, and
    the store stays uninitialized.  For the embedder and the generator,
    [n] callers that all enter before the first load has answered run [n]
    loads and write [n] opening log lines, whatever they do next; when
    the load answers and they resume in turn, the first sets the flag and
    each of the others completes the initialization once more on the
    initialized back end: [n] completions in all. *)
Theorem initialization_attempts env n s :
  ((embedding_initialized s = true ->
    EmbeddingService.initialize env s = (Return tt, s))
   /\ (vector_store_initialized s = true ->
       VectorStoreService.initialize env s = (Return tt, s))
   /\ (generation_initialized s = true ->
       GenerationService.initialize env s = (Return tt, s)))
  /\ (forall schedule,
         vector_store_initialized s = false ->
         vector_store_available env s ->
         (exists i, i ∈ schedule /\ (i < n)%nat) ->
         let cfg := Asyncio.run (Asyncio.vector_store_initialize env) schedule
                      (Asyncio.callers n, s) in
         Forall settled (fst cfg) /\ opened_once s (snd cfg))
  /\ (forall e schedule,
         vector_store_initialized s = false ->
         vector_store_fails env e ->
         let cfg := Asyncio.run (Asyncio.vector_store_initialize env) schedule
                      (Asyncio.callers n, s) in
         Forall (failed_with e) (fst cfg)
         /\ opened_in_vain (callers_that_ran (fst cfg)) s (snd cfg))
  /\ (embedding_initialized s = false ->
      (forall rest,
          let cfg := Asyncio.run (Asyncio.embedding_initialize env)
                       (seq 0 n ++ rest) (Asyncio.callers n, s) in
          count is_embedder_load (snd cfg)
          = (count is_embedder_load s + n)%nat
          /\ count (is_log embedding_start_log) (snd cfg)
             = (count (is_log embedding_start_log) s + n)%nat)
      /\ (SentenceTransformer env = Return tt -> (0 < n)%nat ->
          let first := Asyncio.run (Asyncio.embedding_initialize env)
                         (seq 0 n ++ [0%nat]) (Asyncio.callers n, s) in
          let final := Asyncio.run (Asyncio.embedding_initialize env)
                         (seq 0 n ++ seq 0 n) (Asyncio.callers n, s) in
          embedding_initialized (snd first) = true
          /\ count (is_log embedding_done_log) (snd first)
             = S (count (is_log embedding_done_log) s)
          /\ Forall completed (fst final)
          /\ count (is_log embedding_done_log) (snd final)
             = (count (is_log embedding_done_log) s + n)%nat))
  /\ (generation_initialized s = false ->
      (forall rest,
          let cfg := Asyncio.run (Asyncio.generation_initialize env)
                       (seq 0 n ++ rest) (Asyncio.callers n, s) in
          count is_llm_load (snd cfg) = (count is_llm_load s + n)%nat
          /\ count (is_log generation_start_log) (snd cfg)
             = (count (is_log generation_start_log) s + n)%nat)
      /\ (from_pretrained env = Return tt -> (0 < n)%nat ->
          let first := Asyncio.run (Asyncio.generation_initialize env)
                         (seq 0 n ++ [0%nat]) (Asyncio.callers n, s) in
          let final := Asyncio.run (Asyncio.generation_initialize env)
                         (seq 0 n ++ seq 0 n) (Asyncio.callers n, s) in
          generation_initialized (snd first) = true
          /\ count (is_log generation_done_log) (snd first)
             = S (count (is_log generation_done_log) s)
          /\ Forall completed (fst final)
          /\ count (is_log generation_done_log) (snd final)
             = (count (is_log generation_done_log) s + n)%nat)).
Proof.
  split; [|split; [|split; [|split]]].
  - split; [|split].
    + apply embedding_initialize_ready.
    + apply vector_store_initialize_ready.
    + apply generation_initialize_ready.
  - intros schedule. apply vector_store_single_flight.
  - intros e schedule Hflag Hfail.
    apply (vector_store_no_shared_failure env e s Hfail).
    + apply callers_failed_with.
    + rewrite callers_that_ran_none. unfold opened_in_vain.
      repeat split; [exact Hflag | lia ..].
  - intros Hflag. split.
    + intros rest.
      apply (all_enter_then_resume (Asyncio.embedding_initialize env)
               embedding_initialized); [| |exact Hflag].
      * apply embedding_enter_uninitialized.
      * apply embedding_resume_loads_nothing.
    + intros Hload Hn.
      apply (all_complete (Asyncio.embedding_initialize env)
               embedding_initialized); [| |exact Hflag | exact Hn].
      * apply embedding_enter_suspends.
      * intros s0. cbn [Asyncio.embedding_initialize Asyncio.resume].
        rewrite Hload. apply embedding_resume_completes.
  - intros Hflag. split.
    + intros rest.
      apply (all_enter_then_resume (Asyncio.generation_initialize env)
               generation_initialized); [| |exact Hflag].
      * apply generation_enter_uninitialized.
      * apply generation_resume_loads_nothing.
    + intros Hload Hn.
      apply (all_complete (Asyncio.generation_initialize env)
               generation_initialized); [| |exact Hflag | exact Hn].
      * apply generation_enter_suspends.
      * intros s0. cbn [Asyncio.generation_initialize Asyncio.resume].
        rewrite Hload. apply generation_resume_completes.
Qed.

Lemma initialization_attempts_witness :
  (let cfg := Asyncio.run (Asyncio.vector_store_initialize Sample.env)
                [2; 0; 1; 0]%nat (Asyncio.callers 3, fresh_services) in
   Forall settled (fst cfg) /\ opened_once fresh_services (snd cfg))
  /\ (let cfg := Asyncio.run (Asyncio.embedding_initialize Sample.env)
                   (seq 0 3 ++ seq 0 3) (Asyncio.callers 3, fresh_services) in
      count is_embedder_load (snd cfg)
      = (count is_embedder_load fresh_services + 3)%nat
      /\ count (is_log embedding_start_log) (snd cfg)
         = (count (is_log embedding_start_log) fresh_services + 3)%nat)
  /\ (let first := Asyncio.run (Asyncio.embedding_initialize Sample.env)
                     (seq 0 3 ++ [0%nat]) (Asyncio.callers 3, fresh_services) in
      let final := Asyncio.run (Asyncio.embedding_initialize Sample.env)
                     (seq 0 3 ++ seq 0 3) (Asyncio.callers 3, fresh_services) in
      embedding_initialized (snd first) = true
      /\ count (is_log embedding_done_log) (snd first)
         = S (count (is_log embedding_done_log) fresh_services)
      /\ Forall completed (fst final)
      /\ count (is_log embedding_done_log) (snd final)
         = (count (is_log embedding_done_log) fresh_services + 3)%nat).
Proof.
  destruct (initialization_attempts Sample.env 3 fresh_services)
    as (_ & Hvs & _ & Hemb & _).
  split; [|split].
  - apply Hvs.
    + reflexivity.
    + right. split; [reflexivity | left; reflexivity].
    + exists 2%nat. split; [apply list_elem_of_here | lia].
  - apply (proj1 (Hemb eq_refl) (seq 0 3)).
  - apply Hemb; [reflexivity | reflexivity | lia].
Defined.

(** Claim C3 as stated fails: two callers of the embedder's [initialize]
    that both enter before the first load has answered load the model
    twice, and the second completes the initialization after the first
    has set the flag; three callers of the vector store's [initialize]
    on a database that does not open open it three times. *)
Lemma embedder_initialized_twice :
  let cfg := Asyncio.run (Asyncio.embedding_initialize Sample.env)
               [0; 1; 0; 1]%nat (Asyncio.callers 2, fresh_services) in
  let mid := Asyncio.run (Asyncio.embedding_initialize Sample.env)
               [0; 1; 0]%nat (Asyncio.callers 2, fresh_services) in
  let failed := Asyncio.run (Asyncio.vector_store_initialize env_nothing_loads)
                  [0; 1; 2]%nat (Asyncio.callers 3, fresh_services) in
  fst cfg = [Asyncio.Finished (Return tt); Asyncio.Finished (Return tt)]
  /\ count is_embedder_load (snd cfg) = 2%nat
  /\ count (is_log embedding_start_log) (snd cfg) = 2%nat
  /\ count is_embedder_load (snd cfg) <> 1%nat
  /\ embedding_initialized (snd mid) = true
  /\ count (is_log embedding_done_log) (snd mid) = 1%nat
  /\ count (is_log embedding_done_log) (snd cfg) = 2%nat
  /\ count is_chroma_open (snd failed) = 3%nat
  /\ vector_store_initialized (snd failed) = false.
Proof. vm_compute. repeat split. discriminate. Qed.

(** * The prompt and the extraction of the answer *)

(** With clauses to analyse and a generator that is available, the service
    reaches the back end with the prompt it has built. *)
Lemma generate_analysis_run env q clauses s :
  clauses <> [] ->
  generator_available env s ->
  exists s1 evs,
    events s1 = events s ++ evs
    /\ Forall (fun ev => is_llm_generate ev = false) evs
    /\ GenerationService.generate_analysis env q clauses s
       = GenerationService.run_generation env
           (GenerationService.build_prompt q
              (GenerationService.build_context clauses)) s1.
Proof.
  intros Hne Hav. destruct clauses as [| c clauses]; [congruence|].
  destruct s as [e v g evs0].
  unfold GenerationService.generate_analysis, GenerationService.initialize,
    GenerationService.initialize_enter, GenerationService.initialize_resume,
    GenerationService.is_initialized.
  destruct g; cbn.
  - unfold bind, logger, emit, when_, ret. cbn.
    eexists _, _. split; [|split]; cycle 2.
    + reflexivity.
    + cbn. reflexivity.
    + repeat constructor.
  - destruct Hav as [Hav | Hav]; [discriminate|]. cbn in Hav.
    unfold bind, logger, emit, when_, ret. cbn. rewrite Hav. cbn.
    eexists _, _. split; [|split]; cycle 2.
    + reflexivity.
    + cbn. rewrite <- !app_assoc. cbn. reflexivity.
    + repeat constructor.
Qed.

(** Claim C8, amended.  For a non-empty clause list the prompt sent to the
    back end is, in this order: the instruction, which ends by asking for
    the coverage likelihood and the clause id; the bullet lines
    [- [id] text] of the clauses in the given order; the query; the answer
    marker.  It is sent once. *)
Theorem analyze_prompt_layout env q clauses s :
  clauses <> [] ->
  generator_available env s ->
  exists evs,
    events (snd (GenerationService.generate_analysis env q clauses s))
    = events s ++ evs
        ++ [LLM_generate
              ("Instruct: You are an expert Insurance Policy Analyst. "
               ++ "Based on the following policy clauses, analyze the user's claim description. "
               ++ coverage_instruction ++ LF ++ LF
               ++ "POLICY CLAUSES:" ++ LF
               ++ String.concat LF
                    (map (fun c => "- [" ++ clause_id c ++ "] "
                                   ++ clause_text c) clauses)
               ++ LF ++ LF
               ++ "USER CLAIM: " ++ q ++ LF ++ LF
               ++ "ANALYSIS:")%string
              256]
    /\ Forall (fun ev => is_llm_generate ev = false) evs.
Proof.
  intros Hne Hav.
  destruct (generate_analysis_run env q clauses s Hne Hav)
    as (s1 & evs & Hevs & Hquiet & ->).
  exists evs. split; [|exact Hquiet].
  unfold GenerationService.run_generation, call, bind, emit.
  cbn [fst snd].
  destruct (generate_and_decode env _); cbn; rewrite Hevs, <- app_assoc;
    reflexivity.
Qed.

Lemma analyze_prompt_layout_witness :
  exists evs,
    events (snd (GenerationService.generate_analysis Sample.env Sample.claim
                   [Sample.clause_001] fresh_services))
    = events fresh_services ++ evs
        ++ [LLM_generate
              ("Instruct: You are an expert Insurance Policy Analyst. "
               ++ "Based on the following policy clauses, analyze the user's claim description. "
               ++ coverage_instruction ++ LF ++ LF
               ++ "POLICY CLAUSES:" ++ LF
               ++ String.concat LF
                    (map (fun c => "- [" ++ clause_id c ++ "] "
                                   ++ clause_text c) [Sample.clause_001])
               ++ LF ++ LF
               ++ "USER CLAIM: " ++ Sample.claim ++ LF ++ LF
               ++ "ANALYSIS:")%string
              256]
    /\ Forall (fun ev => is_llm_generate ev = false) evs.
Proof.
  apply (analyze_prompt_layout Sample.env Sample.claim [Sample.clause_001]
           fresh_services).
  - discriminate.
  - right. reflexivity.
Defined.

(** Claim C8 as stated fails: in the prompt sent for the sample claim the
    instruction does not come after the bullet lines and the query. *)
Lemma prompt_instruction_not_last :
  let context := GenerationService.build_context [Sample.clause_001] in
  let prompt := GenerationService.build_prompt Sample.claim context in
  LLM_generate prompt 256
    ∈ events (snd (GenerationService.generate_analysis Sample.env Sample.claim
                     [Sample.clause_001] ready_services))
  /\ ~ bullets_query_instruction prompt context Sample.claim
         coverage_instruction.
Proof.
  split.
  - vm_compute. apply list_elem_of_further, list_elem_of_here.
  - intros H. apply bullets_query_instruction_check in H.
    vm_compute in H. discriminate.
Qed.

(** Claim C9, amended.  [generate_analysis] returns the text that follows
    the last answer marker of the raw output with the white space at both
    ends removed; without a marker it returns the raw output with the
    white space at both ends removed. *)
Theorem analyze_extracts_stripped_answer env q clauses s full_response :
  clauses <> [] ->
  generator_available env s ->
  generate_and_decode env
    (GenerationService.build_prompt q (GenerationService.build_context clauses))
  = Return full_response ->
  (forall pre post,
      full_response = (pre ++ GenerationService.answer_marker ++ post)%string ->
      ~ occurs GenerationService.answer_marker post ->
      fst (GenerationService.generate_analysis env q clauses s)
      = Return (strip post))
  /\ (~ occurs GenerationService.answer_marker full_response ->
      fst (GenerationService.generate_analysis env q clauses s)
      = Return (strip full_response)).
Proof.
  intros Hne Hav Hgen.
  destruct (generate_analysis_run env q clauses s Hne Hav)
    as (s1 & evs & _ & _ & ->).
  unfold GenerationService.run_generation, call, bind, emit. cbn [fst snd].
  rewrite Hgen. cbn -[GenerationService.extract_analysis].
  unfold GenerationService.extract_analysis, str_split.
  split.
  - intros pre post -> Hno.
    rewrite (split_scan_last_marker post Hno pre 0 "") by lia.
    reflexivity.
  - intros Hno. now rewrite split_scan_absent by exact Hno.
Qed.

Lemma occursb_false_not_occurs sep s : occursb sep s = false -> ~ occurs sep s.
Proof. intros H Hocc. apply occursb_complete in Hocc. congruence. Qed.

Lemma analyze_extracts_stripped_answer_witness :
  fst (GenerationService.generate_analysis Sample.env_no_marker Sample.claim
         [Sample.clause_001] fresh_services)
  = Return (strip "  Likely covered.  ").
Proof.
  apply (analyze_extracts_stripped_answer Sample.env_no_marker Sample.claim
           [Sample.clause_001] fresh_services "  Likely covered.  ").
  - discriminate.
  - right. reflexivity.
  - reflexivity.
  - apply occursb_false_not_occurs. vm_compute. reflexivity.
Defined.

(** Claim C9 as stated fails: neither the text after the marker nor a raw
    output without marker is returned as it is. *)
Lemma answer_is_not_verbatim :
  (let prompt := GenerationService.build_prompt Sample.claim
                   (GenerationService.build_context [Sample.clause_001]) in
   generate_and_decode Sample.env prompt
   = Return (prompt ++ " Likely covered under CLAUSE_001." ++ LF)%string
   /\ fst (GenerationService.generate_analysis Sample.env Sample.claim
             [Sample.clause_001] fresh_services)
      = Return "Likely covered under CLAUSE_001."
   /\ "Likely covered under CLAUSE_001."
      <> (" Likely covered under CLAUSE_001." ++ LF)%string)
  /\ (~ occurs GenerationService.answer_marker "  Likely covered.  "
      /\ generate_and_decode Sample.env_no_marker
           (GenerationService.build_prompt Sample.claim
              (GenerationService.build_context [Sample.clause_001]))
         = Return "  Likely covered.  "
      /\ fst (GenerationService.generate_analysis Sample.env_no_marker
                Sample.claim [Sample.clause_001] fresh_services)
         = Return "Likely covered."
      /\ "Likely covered." <> "  Likely covered.  ").
Proof.
  split; [split; [|split] | split; [|split; [|split]]].
  - reflexivity.
  - vm_compute. reflexivity.
  - vm_compute. discriminate.
  - apply occursb_false_not_occurs. vm_compute. reflexivity.
  - reflexivity.
  - vm_compute. reflexivity.
  - discriminate.
Qed.

(** * Witnesses for the retrieval theorems *)

Lemma search_scores_and_threshold_witness :
  exists emb results,
    collection_query Sample.env [emb] 3 = Return results
    /\ length (raw_rows results) = length (ids0 results)
    /\ map row_of [(Sample.clause_001, Float.sub 1 (1 # 10))]
       = List.filter (keeps (9 # 10)) (raw_rows results)
    /\ Forall (fun r =>
                 exists i distance,
                   ids0 results !! i = Some (clause_id (fst r))
                   /\ distances0 results !! i = Some distance
                   /\ snd r = Float.sub 1 distance
                   /\ relevance_score (fst r) = Float.sub 1 distance
                   /\ Float.leb (9 # 10) (snd r) = true
                   /\ (Float.round (9 # 10) <= snd r)%Q)
              [(Sample.clause_001, Float.sub 1 (1 # 10))]
    /\ Forall (fun row =>
                 (snd row < Float.round (9 # 10))%Q ->
                 Float.leb (9 # 10) (snd row) = false
                 /\ row ∉ map row_of
                             [(Sample.clause_001, Float.sub 1 (1 # 10))])
              (raw_rows results).
Proof.
  apply (search_scores_and_threshold Sample.env Sample.claim 3 (9 # 10)
           fresh_services [(Sample.clause_001, Float.sub 1 (1 # 10))]
           (snd (VectorStoreService.search Sample.env Sample.claim 3 (9 # 10)
                   fresh_services))).
  vm_compute. reflexivity.
Defined.

Lemma search_preserves_index_order_witness :
  exists out s' emb results,
    VectorStoreService.search env_tied_ranks Sample.claim 3 (1 # 10)
      fresh_services = (Return out, s')
    /\ map row_of out
       = [("CLAUSE_001", Float.sub 1 (1 # 10));
          ("CLAUSE_002", Float.sub 1 (1 # 10))]
    /\ collection_query env_tied_ranks [emb] 3 = Return results
    /\ map row_of out = List.filter (keeps (1 # 10)) (raw_rows results)
    /\ sublist (map row_of out) (raw_rows results)
    /\ (StronglySorted Qle (distances0 results) ->
        StronglySorted (fun a b => (b <= a)%Q) (map snd out)).
Proof.
  pose (run := VectorStoreService.search env_tied_ranks Sample.claim 3
                 (1 # 10) fresh_services).
  pose (out := match fst run with
               | Return out => out
               | Raise _ => []
               end).
  assert (Hrun : run = (Return out, snd run)) by (vm_compute; reflexivity).
  destruct (search_preserves_index_order env_tied_ranks Sample.claim 3
              (1 # 10) fresh_services out (snd run) Hrun)
    as (emb & results & H).
  exists out, (snd run), emb, results.
  split; [exact Hrun|]. split; [vm_compute; reflexivity | exact H].
Defined.

Lemma sample_distances_in_range emb k results :
  collection_query Sample.env [emb] k = Return results ->
  Forall (fun d => (0 <= d)%Q /\ (d <= 2)%Q) (distances0 results).
Proof.
  intros H. injection H as <-.
  change (distances0 (Sample.first_n k Sample.ranked))
    with (take (Z.to_nat k) [1 # 10; 6 # 10; 9 # 10]).
  apply Forall_take.
  repeat (constructor; [split; unfold Qle; cbn; lia|]).
  constructor.
Qed.

Lemma search_scores_in_unit_interval_witness :
  Forall (fun r => ((0 <= snd r)%Q /\ (snd r <= 1)%Q)
                   /\ (0 <= relevance_score (fst r))%Q
                   /\ (relevance_score (fst r) <= 1)%Q)
         [(Sample.clause_001, Float.sub 1 (1 # 10))].
Proof.
  apply (search_scores_in_unit_interval Sample.env Sample.claim 3 (1 # 2)
           fresh_services [(Sample.clause_001, Float.sub 1 (1 # 10))]
           (snd (VectorStoreService.search Sample.env Sample.claim 3 (1 # 2)
                   fresh_services))).
  - vm_compute. reflexivity.
  - split; unfold Qle; cbn; lia.
  - intros emb results. apply sample_distances_in_range.
Defined.

Lemma search_empty_index_witness :
  exists s',
    VectorStoreService.search Sample.env_empty_index Sample.claim 3 (1 # 2)
      fresh_services = (Return [], s').
Proof.
  apply (search_empty_index Sample.env_empty_index Sample.claim 3 (1 # 2)
           fresh_services).
  - right. split; [reflexivity | left; reflexivity].
  - right. reflexivity.
  - eexists. reflexivity.
  - intros emb. exists Sample.empty_answer. split; reflexivity.
Defined.

(** * What the operations leave alone *)

Section Guarantee.

Variable inv : Services -> Prop.
Variable ok : Event -> bool.
Hypothesis inv_blind : blind_to_events inv.

Lemma guarantee_unchanged {A} (m : M A) :
  (forall s, snd (m s) = s) -> guarantee inv ok m.
Proof.
  intros H s Hs. rewrite H. split; [exact Hs|].
  exists []. now rewrite app_nil_r.
Qed.

Lemma guarantee_ret {A} (a : A) : guarantee inv ok (ret a).
Proof. now apply guarantee_unchanged. Qed.

Lemma guarantee_raise {A} (e : exn) : guarantee inv ok (raise e : M A).
Proof. now apply guarantee_unchanged. Qed.

Lemma guarantee_emit ev : ok ev = true -> guarantee inv ok (emit ev).
Proof.
  intros Hok s Hs. split; [now apply inv_blind|].
  exists [ev]. cbn. now rewrite Hok.
Qed.

Lemma guarantee_bind {A B} (m : M A) (k : A -> M B) :
  guarantee inv ok m -> (forall a, guarantee inv ok (k a)) ->
  guarantee inv ok (bind m k).
Proof.
  intros Hm Hk s Hs. unfold bind.
  destruct (Hm s Hs) as (Hinv & evs & Hevs & Hok).
  destruct (m s) as [[a | e] s1]; cbn in *.
  - destruct (Hk a s1 Hinv) as (Hinv2 & evs2 & Hevs2 & Hok2).
    split; [exact Hinv2|]. exists (evs ++ evs2).
    rewrite Hevs2, Hevs, app_assoc, forallb_app, Hok, Hok2. auto.
  - split; [exact Hinv|]. eauto.
Qed.

Lemma guarantee_call {A} ev (r : Outcome A) :
  ok ev = true -> guarantee inv ok (call ev r).
Proof.
  intros Hok. unfold call. apply guarantee_bind.
  - now apply guarantee_emit.
  - intros _. destruct r; [apply guarantee_ret | apply guarantee_raise].
Qed.

Lemma guarantee_when b (m : M unit) :
  guarantee inv ok m -> guarantee inv ok (when_ b m).
Proof. destruct b; [auto | intros _; apply guarantee_ret]. Qed.

Lemma guarantee_try_except {A} (body : M A) (handler : exn -> M A) :
  guarantee inv ok body -> (forall e, guarantee inv ok (handler e)) ->
  guarantee inv ok (try_except body handler).
Proof.
  intros Hm Hk s Hs. unfold try_except.
  destruct (Hm s Hs) as (Hinv & evs & Hevs & Hok).
  destruct (body s) as [[a | e] s1]; cbn in *.
  - split; [exact Hinv|]. eauto.
  - destruct (Hk e s1 Hinv) as (Hinv2 & evs2 & Hevs2 & Hok2).
    split; [exact Hinv2|]. exists (evs ++ evs2).
    rewrite Hevs2, Hevs, app_assoc, forallb_app, Hok, Hok2. auto.
Qed.

Lemma guarantee_track {A} counter histogram (m : M A) :
  ok (Metric_inc counter) = true -> ok (Metric_observe histogram) = true ->
  guarantee inv ok m -> guarantee inv ok (track counter histogram m).
Proof.
  intros Hc Hh Hm s Hs. unfold track.
  destruct (Hm s Hs) as (Hinv & evs & Hevs & Hok).
  destruct (m s) as [[a | e] s1]; cbn in *.
  - split; [apply (inv_blind s1); exact Hinv|].
    exists (evs ++ [Metric_inc counter; Metric_observe histogram]).
    rewrite Hevs, <- !app_assoc, forallb_app, Hok. cbn. now rewrite Hc, Hh.
  - split; [apply (inv_blind s1); exact Hinv|].
    exists (evs ++ [Metric_observe histogram]).
    rewrite Hevs, <- !app_assoc, forallb_app, Hok. cbn. now rewrite Hh.
Qed.

Lemma guarantee_subscript {A} (l : list A) i :
  guarantee inv ok (subscript l i).
Proof.
  unfold subscript. destruct (l !! i);
    [apply guarantee_ret | apply guarantee_raise].
Qed.

Lemma guarantee_getitem d key : guarantee inv ok (getitem d key).
Proof.
  unfold getitem. destruct (d !! key);
    [apply guarantee_ret | apply guarantee_raise].
Qed.

Lemma guarantee_comprehension {A B} (f : A -> M B) (l : list A) :
  (forall x, guarantee inv ok (f x)) ->
  guarantee inv ok (comprehension f l).
Proof.
  intros Hf. induction l as [| x l IH]; cbn [comprehension].
  - apply guarantee_ret.
  - apply guarantee_bind; [apply Hf | intros y].
    apply guarantee_bind; [exact IH | intros ys]. apply guarantee_ret.
Qed.

End Guarantee.

(** The events added under a guarantee are not counted by a predicate that
    [ok] excludes. *)
Lemma guarantee_count {A} inv ok (p : Event -> bool) (m : M A) s :
  guarantee inv ok m -> inv s ->
  (forall ev, ok ev = true -> p ev = false) ->
  count p (snd (m s)) = count p s.
Proof.
  intros Hm Hs Hp. destruct (Hm s Hs) as (_ & evs & Hevs & Hok).
  unfold count. rewrite Hevs, List.filter_app, length_app.
  assert (List.filter p evs = []) as ->; [|cbn; lia].
  clear Hevs. induction evs as [| ev evs IH]; [reflexivity|].
  cbn in Hok. apply andb_true_iff in Hok as [Hev Hrest].
  cbn. rewrite (Hp ev Hev). auto.
Qed.

Lemma guarantee_count_run {A} inv ok (p : Event -> bool) (m : M A) s o s' :
  guarantee inv ok m -> inv s ->
  (forall ev, ok ev = true -> p ev = false) ->
  m s = (o, s') ->
  count p s' = count p s.
Proof.
  intros Hm Hs Hp Hrun.
  pose proof (guarantee_count inv ok p m s Hm Hs Hp) as H.
  now rewrite Hrun in H.
Qed.

(** Solves a guarantee goal on a composed operation, given the guarantees
    of the operations it calls in the hint database [guarantee]. *)
Create HintDb guarantee.

Ltac split_conj := repeat match goal with |- _ /\ _ => split end.

Ltac guarantee_side :=
  first
    [ assumption
    | reflexivity
    | match goal with
      | H : accepts ?ok _ |- ?ok _ = true => solve [apply H; reflexivity]
      end
    | solve [auto] ].

Ltac guarantee_step :=
  match goal with
  | |- forall _, _ => intros ?
  | |- guarantee _ _ (bind _ _) => apply guarantee_bind
  | |- guarantee _ _ (ret _) => apply guarantee_ret
  | |- guarantee _ _ (raise _) => apply guarantee_raise
  | |- guarantee _ _ (emit _) => apply guarantee_emit; guarantee_side
  | |- guarantee _ _ (logger _ _) => apply guarantee_emit; guarantee_side
  | |- guarantee _ _ (call _ _) => apply guarantee_call; guarantee_side
  | |- guarantee _ _ (when_ _ _) => apply guarantee_when
  | |- guarantee _ _ (subscript _ _) => apply guarantee_subscript
  | |- guarantee _ _ (getitem _ _) => apply guarantee_getitem
  | |- guarantee _ _ (comprehension _ _) => apply guarantee_comprehension
  | |- guarantee _ _ (try_except _ _) => apply guarantee_try_except
  | |- guarantee _ _ (track _ _ _) =>
      apply guarantee_track; [guarantee_side | guarantee_side | guarantee_side |]
  | |- guarantee _ _ (if ?b then _ else _) => destruct b
  | |- guarantee _ _ (match ?x with _ => _ end) => destruct x
  | |- guarantee _ _ _ => solve [auto] || solve [eauto with guarantee]
  end.

Ltac guarantee_steps := repeat guarantee_step.

Lemma any_state_blind : blind_to_events any_state.
Proof. now intros s evs _. Qed.

Lemma all_ready_blind : blind_to_events all_ready.
Proof. now intros s evs H. Qed.

Section ServiceGuarantees.

Variable inv : Services -> Prop.
Variable ok : Event -> bool.
Hypothesis inv_blind : blind_to_events inv.
Hypothesis ok_encode : accepts ok encode_events.
Hypothesis ok_format : accepts ok format_events.
Hypothesis ok_search : accepts ok search_events.
Hypothesis ok_search_metric : accepts ok search_metric_events.
Hypothesis ok_generate : accepts ok generate_events.
Hypothesis ok_handler : accepts ok handler_events.
Hypothesis ok_ingest : accepts ok ingest_events.
Hypothesis ok_startup : accepts ok startup_events.
Hypothesis embedding_initialize_ok :
  forall env, guarantee inv ok (EmbeddingService.initialize env).
Hypothesis vector_store_initialize_ok :
  forall env, guarantee inv ok (VectorStoreService.initialize env).
Hypothesis generation_initialize_ok :
  forall env, guarantee inv ok (GenerationService.initialize env).

Lemma guarantee_embedding_flag :
  guarantee inv ok EmbeddingService.is_initialized.
Proof. now apply guarantee_unchanged. Qed.

Lemma guarantee_vector_store_flag :
  guarantee inv ok VectorStoreService.is_initialized.
Proof. now apply guarantee_unchanged. Qed.

Lemma guarantee_generation_flag :
  guarantee inv ok GenerationService.is_initialized.
Proof. now apply guarantee_unchanged. Qed.

#[local] Hint Resolve guarantee_embedding_flag guarantee_vector_store_flag
  guarantee_generation_flag : guarantee.

Lemma guarantee_encode_body env texts :
  accepts ok encode_body_events ->
  guarantee inv ok (EmbeddingService.encode_body env texts).
Proof.
  intros ok_body. unfold EmbeddingService.encode_body. guarantee_steps.
Qed.

Lemma guarantee_encode env texts :
  guarantee inv ok (EmbeddingService.encode env texts).
Proof.
  unfold EmbeddingService.encode, track_embedding_operation.
  apply guarantee_track; [guarantee_side | guarantee_side | guarantee_side |].
  apply guarantee_encode_body.
  intros ev Hev. apply ok_encode. destruct ev; try discriminate; exact Hev.
Qed.

Lemma guarantee_encode_single env text :
  guarantee inv ok (EmbeddingService.encode_single env text).
Proof.
  unfold EmbeddingService.encode_single.
  apply guarantee_bind; [apply guarantee_encode | intros embs].
  guarantee_steps.
Qed.

Lemma guarantee_format_loop results min_score range : forall formatted,
  guarantee inv ok
    (VectorStoreService.format_loop results min_score range formatted).
Proof.
  induction range as [| i range IH]; intros formatted;
    cbn [VectorStoreService.format_loop]; guarantee_steps.
Qed.

Lemma guarantee_format_results results min_score :
  guarantee inv ok (VectorStoreService.format_results results min_score).
Proof.
  unfold VectorStoreService.format_results.
  destruct (VectorStoreService.has_hits results);
    [apply guarantee_format_loop | apply guarantee_ret].
Qed.

Lemma guarantee_report_all_filtered results formatted :
  guarantee inv ok
    (VectorStoreService.report_all_filtered results formatted).
Proof. unfold VectorStoreService.report_all_filtered. guarantee_steps. Qed.

Lemma guarantee_search_body env query_text k min_score :
  guarantee inv ok
    (VectorStoreService.search_body env query_text k min_score).
Proof.
  unfold VectorStoreService.search_body.
  apply guarantee_bind; [apply guarantee_vector_store_flag | intros init].
  apply guarantee_bind; [guarantee_steps | intros _].
  apply guarantee_bind; [guarantee_steps | intros _].
  apply guarantee_bind; [apply guarantee_encode_single | intros emb].
  apply guarantee_bind; [guarantee_steps | intros results].
  apply guarantee_bind; [apply guarantee_format_results | intros formatted].
  apply guarantee_bind;
    [apply guarantee_report_all_filtered | intros _].
  guarantee_steps.
Qed.

Lemma guarantee_search env query_text k min_score :
  guarantee inv ok (VectorStoreService.search env query_text k min_score).
Proof.
  unfold VectorStoreService.search, track_vector_search.
  apply guarantee_track; [guarantee_side | guarantee_side | guarantee_side |].
  apply guarantee_search_body.
Qed.

Lemma guarantee_generate_analysis env q clauses :
  guarantee inv ok (GenerationService.generate_analysis env q clauses).
Proof.
  unfold GenerationService.generate_analysis,
    GenerationService.run_generation.
  guarantee_steps.
Qed.

Lemma guarantee_policy_clause_of env result :
  guarantee inv ok (policy_clause_of env result).
Proof.
  destruct result as [d sc].
  unfold policy_clause_of, PolicyClause_validate. guarantee_steps.
Qed.

Lemma guarantee_generation_step env request policy_clauses :
  guarantee inv ok (generation_step env request policy_clauses).
Proof.
  unfold generation_step.
  destruct (truthy_bool (is_enable_rag request)
            && truthy_list policy_clauses); [|guarantee_steps].
  apply guarantee_bind; [guarantee_steps | intros _].
  apply guarantee_bind; [apply guarantee_generate_analysis | intros text].
  guarantee_steps.
Qed.

Lemma guarantee_search_policies env request :
  guarantee inv ok (search_policies env request).
Proof.
  unfold search_policies, search_policies_body, internal_server_error.
  apply guarantee_try_except; [|intros e; guarantee_steps].
  apply guarantee_bind; [guarantee_steps | intros _].
  apply guarantee_bind; [apply guarantee_search | intros out].
  apply guarantee_bind;
    [apply guarantee_comprehension, guarantee_policy_clause_of
    | intros policy_clauses].
  apply guarantee_bind; [apply guarantee_generation_step | intros a].
  guarantee_steps.
Qed.

Lemma guarantee_add_policy_clauses env collection_add clauses :
  guarantee inv ok (add_policy_clauses env collection_add clauses).
Proof.
  unfold add_policy_clauses.
  apply guarantee_bind; [apply guarantee_vector_store_flag | intros init].
  apply guarantee_bind; [guarantee_steps | intros _].
  destruct clauses as [| c clauses]; [apply guarantee_ret|].
  apply guarantee_bind; [guarantee_steps | intros _].
  apply guarantee_bind; [guarantee_steps | intros texts].
  apply guarantee_bind; [apply guarantee_encode | intros embs].
  apply guarantee_bind; [guarantee_steps | intros ids].
  guarantee_steps.
Qed.

Lemma guarantee_get_collection_count env collection_count :
  guarantee inv ok (get_collection_count env collection_count).
Proof.
  unfold get_collection_count.
  apply guarantee_bind; [apply guarantee_vector_store_flag | intros init].
  guarantee_steps.
Qed.

Lemma guarantee_lifespan_startup env :
  guarantee inv ok (lifespan_startup env).
Proof. unfold lifespan_startup. guarantee_steps. Qed.

Lemma guarantee_health_check : guarantee inv ok health_check.
Proof.
  unfold health_check.
  apply guarantee_try_except; [|intros e; guarantee_steps].
  apply guarantee_bind; [apply guarantee_embedding_flag | intros a].
  apply guarantee_bind; [apply guarantee_vector_store_flag | intros b].
  guarantee_steps.
Qed.

End ServiceGuarantees.

Ltac accepts_all := intros ev _; reflexivity.

Ltac accepts_by_cases :=
  let ev := fresh "ev" in
  let H := fresh "H" in
  intros ev H; destruct ev; cbn in H |- *;
  try discriminate; try reflexivity.

Lemma guarantee_get_or_create_collection inv ok env :
  blind_to_events inv ->
  ok Chroma_get_collection = true ->
  ok Chroma_create_collection = true ->
  (forall level msg, ok (Log level msg) = true) ->
  guarantee inv ok (VectorStoreService.get_or_create_collection env).
Proof.
  intros Hblind Hget Hcreate Hlog s Hs.
  unfold VectorStoreService.get_or_create_collection, call, bind, logger,
    emit. cbn.
  destruct (get_collection env) as [u | e]; cbn.
  - split; [now apply (Hblind s)|].
    exists [Chroma_get_collection;
            Log "info" "Using existing ChromaDB collection"].
    rewrite <- app_assoc. cbn. now rewrite Hget, Hlog.
  - destruct (create_collection env) as [u | e2]; cbn.
    + split; [now apply (Hblind s)|].
      exists [Chroma_get_collection; Chroma_create_collection;
              Log "info"
                "Created new ChromaDB collection with cosine similarity"].
      rewrite <- !app_assoc. cbn. now rewrite Hget, Hcreate, Hlog.
    + split; [now apply (Hblind s)|].
      exists [Chroma_get_collection; Chroma_create_collection].
      rewrite <- !app_assoc. cbn. now rewrite Hget, Hcreate.
Qed.

(** ** Flags are only ever raised *)

Section RaisedFlags.

Variable inv : Services -> Prop.
Hypothesis inv_blind : blind_to_events inv.
Hypothesis inv_embedding :
  forall s, inv s -> inv (snd (EmbeddingService.set_initialized s)).
Hypothesis inv_vector_store :
  forall s, inv s -> inv (snd (VectorStoreService.set_initialized s)).
Hypothesis inv_generation :
  forall s, inv s -> inv (snd (GenerationService.set_initialized s)).

Lemma guarantee_set_flag (set : M unit) :
  (forall s, inv s -> inv (snd (set s))) ->
  (forall s, events (snd (set s)) = events s) ->
  guarantee inv any_event set.
Proof.
  intros Hinv Hev s Hs. split; [auto|]. exists []. now rewrite app_nil_r.
Qed.

Lemma raised_embedding_initialize env :
  guarantee inv any_event (EmbeddingService.initialize env).
Proof.
  pose proof (guarantee_set_flag _ inv_embedding (fun s => eq_refl)).
  unfold EmbeddingService.initialize, EmbeddingService.initialize_enter,
    EmbeddingService.initialize_resume.
  apply guarantee_bind; [|intros suspended; guarantee_steps].
  apply guarantee_bind; [now apply guarantee_unchanged | intros init].
  guarantee_steps.
Qed.

Lemma raised_vector_store_initialize env :
  guarantee inv any_event (VectorStoreService.initialize env).
Proof.
  pose proof (guarantee_set_flag _ inv_vector_store (fun s => eq_refl)).
  unfold VectorStoreService.initialize.
  apply guarantee_bind; [now apply guarantee_unchanged | intros init].
  destruct init; [apply guarantee_ret|].
  apply guarantee_bind; [guarantee_steps | intros _].
  apply guarantee_bind; [guarantee_steps | intros _].
  apply guarantee_bind; [|intros _; guarantee_steps].
  apply guarantee_get_or_create_collection; auto.
Qed.

Lemma raised_generation_initialize env :
  guarantee inv any_event (GenerationService.initialize env).
Proof.
  pose proof (guarantee_set_flag _ inv_generation (fun s => eq_refl)).
  unfold GenerationService.initialize, GenerationService.initialize_enter,
    GenerationService.initialize_resume.
  apply guarantee_bind; [|intros suspended; guarantee_steps].
  apply guarantee_bind; [now apply guarantee_unchanged | intros init].
  guarantee_steps.
Qed.

End RaisedFlags.

Lemma only_raises_intro {A} (m : M A) :
  (forall inv,
      blind_to_events inv ->
      (forall s, inv s -> inv (snd (EmbeddingService.set_initialized s))) ->
      (forall s, inv s -> inv (snd (VectorStoreService.set_initialized s))) ->
      (forall s, inv s -> inv (snd (GenerationService.set_initialized s))) ->
      guarantee inv any_event m) ->
  only_raises m.
Proof.
  intros H s.
  destruct (H (fun s' =>
                 (embedding_initialized s = true ->
                  embedding_initialized s' = true)
                 /\ (vector_store_initialized s = true ->
                     vector_store_initialized s' = true)
                 /\ (generation_initialized s = true ->
                     generation_initialized s' = true))) with (s := s)
    as ((He & Hv & Hg) & evs & Hevs & _); cbn; try tauto.
  - intros s0 evs. tauto.
  - repeat split; auto. eauto.
Qed.

Ltac only_raises_tac lemma :=
  apply only_raises_intro; intros inv Hblind He Hv Hg;
  apply lemma; auto using raised_embedding_initialize,
    raised_vector_store_initialize, raised_generation_initialize;
  accepts_all.

(** Property X1.  No operation of the services or of the application ever
    resets an [_initialized] flag or removes a recorded event: after the
    three [initialize], [encode], [search], [generate_analysis],
    [add_policy_clauses], [get_collection_count], the search handler, the
    start-up and the health check, every flag that was set is still set
    and the events recorded before are a prefix of those recorded after,
    whatever the back ends answer. *)
Theorem operations_only_raise_flags env :
  (only_raises (EmbeddingService.initialize env)
   /\ only_raises (VectorStoreService.initialize env)
   /\ only_raises (GenerationService.initialize env))
  /\ (forall texts, only_raises (EmbeddingService.encode env texts))
  /\ (forall q k min_score,
         only_raises (VectorStoreService.search env q k min_score))
  /\ (forall q clauses,
         only_raises (GenerationService.generate_analysis env q clauses))
  /\ (forall collection_add clauses,
         only_raises (add_policy_clauses env collection_add clauses))
  /\ (forall collection_count,
         only_raises (get_collection_count env collection_count))
  /\ (forall request, only_raises (search_policies env request))
  /\ only_raises (lifespan_startup env)
  /\ only_raises health_check.
Proof.
  split_conj; intros.
  - apply only_raises_intro; intros. now apply raised_embedding_initialize.
  - apply only_raises_intro; intros. now apply raised_vector_store_initialize.
  - apply only_raises_intro; intros. now apply raised_generation_initialize.
  - only_raises_tac guarantee_encode.
  - only_raises_tac guarantee_search.
  - only_raises_tac guarantee_generate_analysis.
  - only_raises_tac guarantee_add_policy_clauses.
  - only_raises_tac guarantee_get_collection_count.
  - only_raises_tac guarantee_search_policies.
  - only_raises_tac guarantee_lifespan_startup.
  - only_raises_tac guarantee_health_check.
Qed.

(** ** Initialized services are not loaded again *)

Lemma ready_initialize ok env :
  guarantee all_ready ok (EmbeddingService.initialize env)
  /\ guarantee all_ready ok (VectorStoreService.initialize env)
  /\ guarantee all_ready ok (GenerationService.initialize env).
Proof.
  split_conj; intros s0 Hready; pose proof Hready as (He & Hv & Hg).
  - rewrite embedding_initialize_ready by exact He.
    split; [exact Hready|]. exists []. now rewrite app_nil_r.
  - rewrite vector_store_initialize_ready by exact Hv.
    split; [exact Hready|]. exists []. now rewrite app_nil_r.
  - rewrite generation_initialize_ready by exact Hg.
    split; [exact Hready|]. exists []. now rewrite app_nil_r.
Qed.

Lemma not_load_accepts :
  accepts not_load encode_events /\ accepts not_load format_events
  /\ accepts not_load search_events
  /\ accepts not_load search_metric_events
  /\ accepts not_load generate_events /\ accepts not_load handler_events
  /\ accepts not_load ingest_events /\ accepts not_load startup_events.
Proof. split_conj; accepts_by_cases. Qed.

Ltac ready_tac lemma :=
  destruct not_load_accepts as (? & ? & ? & ? & ? & ? & ? & ?);
  apply lemma;
  match goal with
  | |- blind_to_events _ => exact all_ready_blind
  | |- accepts _ _ => assumption
  | |- forall _, guarantee _ _ _ => intros; apply ready_initialize
  end.

(** Property X2.  Once the three services are initialized, the search
    handler, the ingest and the start-up leave them initialized and load
    nothing again: no model is loaded and the database is neither opened
    nor asked for its collection, whatever the request and whatever the
    back ends answer. *)
Theorem ready_services_are_not_loaded_again env s :
  all_ready s ->
  (forall request,
      all_ready (snd (search_policies env request s))
      /\ count is_load (snd (search_policies env request s))
         = count is_load s)
  /\ (forall collection_add clauses,
         all_ready (snd (add_policy_clauses env collection_add clauses s))
         /\ count is_load
              (snd (add_policy_clauses env collection_add clauses s))
            = count is_load s)
  /\ all_ready (snd (lifespan_startup env s))
  /\ count is_load (snd (lifespan_startup env s)) = count is_load s.
Proof.
  intros Hready.
  assert (Hcount : forall ev, not_load ev = true -> is_load ev = false).
  { intros ev. unfold not_load. now destruct (is_load ev). }
  assert (Hhandler : forall request,
             guarantee all_ready not_load (search_policies env request))
    by (intros; ready_tac guarantee_search_policies).
  assert (Hingest : forall collection_add clauses,
             guarantee all_ready not_load
               (add_policy_clauses env collection_add clauses))
    by (intros; ready_tac guarantee_add_policy_clauses).
  assert (Hstart : guarantee all_ready not_load (lifespan_startup env))
    by (ready_tac guarantee_lifespan_startup).
  split_conj; intros; split_conj.
  - now apply Hhandler.
  - now apply (guarantee_count all_ready not_load).
  - now apply Hingest.
  - now apply (guarantee_count all_ready not_load).
  - now apply Hstart.
  - now apply (guarantee_count all_ready not_load).
Qed.

Lemma ready_services_are_not_loaded_again_witness :
  all_ready (snd (search_policies Sample.env Sample.request ready_services))
  /\ count is_load
       (snd (search_policies Sample.env Sample.request ready_services))
     = count is_load ready_services.
Proof.
  apply (ready_services_are_not_loaded_again Sample.env ready_services).
  repeat split.
Defined.

(** ** Retrieval and generation keep to their own back ends *)

Lemma retrieval_initialize_no_llm env :
  guarantee any_state not_llm (EmbeddingService.initialize env)
  /\ guarantee any_state not_llm (VectorStoreService.initialize env).
Proof.
  pose proof any_state_blind as Hblind.
  assert (Hset : forall set : M unit,
             (forall s, events (snd (set s)) = events s) ->
             guarantee any_state not_llm set).
  { intros set Hev s _. split; [exact I|]. exists [].
    now rewrite app_nil_r. }
  pose proof (Hset EmbeddingService.set_initialized (fun s => eq_refl)).
  pose proof (Hset VectorStoreService.set_initialized (fun s => eq_refl)).
  split.
  - unfold EmbeddingService.initialize, EmbeddingService.initialize_enter,
      EmbeddingService.initialize_resume.
    apply guarantee_bind; [|intros suspended; guarantee_steps].
    apply guarantee_bind; [now apply guarantee_unchanged | intros init].
    guarantee_steps.
  - unfold VectorStoreService.initialize.
    apply guarantee_bind; [now apply guarantee_unchanged | intros init].
    destruct init; [apply guarantee_ret|].
    apply guarantee_bind; [guarantee_steps | intros _].
    apply guarantee_bind; [guarantee_steps | intros _].
    apply guarantee_bind; [|intros _; guarantee_steps].
    now apply guarantee_get_or_create_collection.
Qed.

Lemma generation_initialize_no_retrieval env :
  guarantee any_state not_retrieval (GenerationService.initialize env).
Proof.
  pose proof any_state_blind as Hblind.
  assert (Hset : guarantee any_state not_retrieval
                   GenerationService.set_initialized).
  { intros s _. split; [exact I|]. exists []. now rewrite app_nil_r. }
  unfold GenerationService.initialize, GenerationService.initialize_enter,
    GenerationService.initialize_resume.
  apply guarantee_bind; [|intros suspended; guarantee_steps].
  apply guarantee_bind; [now apply guarantee_unchanged | intros init].
  guarantee_steps.
Qed.

Ltac separate_tac init :=
  match goal with
  | |- blind_to_events _ => exact any_state_blind
  | |- accepts _ _ => accepts_by_cases
  | |- forall _, guarantee _ _ _ => intros; init
  | |- guarantee _ _ _ => init
  end.

(** Property X3.  Retrieval and generation do not touch each other's back
    end: [search] and [add_policy_clauses] never load the language model
    nor generate with it, and [generate_analysis] never calls the
    embedding model nor the database. *)
Theorem retrieval_and_generation_are_separate env s :
  (forall q k min_score,
      count is_llm_work (snd (VectorStoreService.search env q k min_score s))
      = count is_llm_work s)
  /\ (forall collection_add clauses,
         count is_llm_work
           (snd (add_policy_clauses env collection_add clauses s))
         = count is_llm_work s)
  /\ (forall q clauses,
         count is_embedder
           (snd (GenerationService.generate_analysis env q clauses s))
         = count is_embedder s
         /\ count is_chroma
              (snd (GenerationService.generate_analysis env q clauses s))
            = count is_chroma s).
Proof.
  destruct (fun env => retrieval_initialize_no_llm env) with (env := env)
    as [Hemb Hvs].
  pose proof (generation_initialize_no_retrieval env) as Hgen.
  assert (Hllm : forall ev, not_llm ev = true -> is_llm_work ev = false).
  { intros ev. unfold not_llm. now destruct (is_llm_work ev). }
  assert (Hret : forall ev, not_retrieval ev = true ->
                            is_embedder ev = false /\ is_chroma ev = false).
  { intros ev. unfold not_retrieval.
    destruct (is_embedder ev), (is_chroma ev); cbn; auto; discriminate. }
  split_conj; intros; split_conj.
  - apply (guarantee_count any_state not_llm); [|exact I | exact Hllm].
    apply guarantee_search;
      separate_tac ltac:(apply retrieval_initialize_no_llm).
  - apply (guarantee_count any_state not_llm); [|exact I | exact Hllm].
    apply guarantee_add_policy_clauses;
      separate_tac ltac:(apply retrieval_initialize_no_llm).
  - apply (guarantee_count any_state not_retrieval);
      [|exact I | intros ev Hev; now apply Hret].
    apply guarantee_generate_analysis;
      separate_tac ltac:(apply generation_initialize_no_retrieval).
  - apply (guarantee_count any_state not_retrieval);
      [|exact I | intros ev Hev; now apply Hret].
    apply guarantee_generate_analysis;
      separate_tac ltac:(apply generation_initialize_no_retrieval).
Qed.

(** * Failing initializations *)

(** Property X4.  A failed load leaves the service uninitialized, so that
    the next call of [initialize] tries again: for each of the three
    services, when the load raises the exception goes to the caller with
    the flag still unset, and a second [initialize] whose load answers sets
    the flag; the back end has then been asked twice. *)
Theorem failed_load_can_be_retried env env' s e :
  (embedding_initialized s = false ->
   SentenceTransformer env = Raise e ->
   SentenceTransformer env' = Return tt ->
   exists s1 s2,
     EmbeddingService.initialize env s = (Raise e, s1)
     /\ embedding_initialized s1 = false
     /\ EmbeddingService.initialize env' s1 = (Return tt, s2)
     /\ embedding_initialized s2 = true
     /\ count is_embedder_load s2 = (count is_embedder_load s + 2)%nat)
  /\ (generation_initialized s = false ->
      from_pretrained env = Raise e ->
      from_pretrained env' = Return tt ->
      exists s1 s2,
        GenerationService.initialize env s = (Raise e, s1)
        /\ generation_initialized s1 = false
        /\ GenerationService.initialize env' s1 = (Return tt, s2)
        /\ generation_initialized s2 = true
        /\ count is_llm_load s2 = (count is_llm_load s + 2)%nat)
  /\ (vector_store_initialized s = false ->
      PersistentClient env = Raise e ->
      vector_store_available env' s ->
      exists s1 s2,
        VectorStoreService.initialize env s = (Raise e, s1)
        /\ vector_store_initialized s1 = false
        /\ VectorStoreService.initialize env' s1 = (Return tt, s2)
        /\ vector_store_initialized s2 = true
        /\ count is_chroma_open s2 = (count is_chroma_open s + 2)%nat).
Proof.
  destruct s as [fe fv fg evs]. cbn [embedding_initialized
    vector_store_initialized generation_initialized]. split_conj.
  - intros -> Hfail Hload.
    unfold EmbeddingService.initialize, EmbeddingService.initialize_enter,
      EmbeddingService.initialize_resume, bind. cbn.
    rewrite Hfail, Hload. cbn. eexists _, _. split_conj; try reflexivity.
    count_events.
  - intros -> Hfail Hload.
    unfold GenerationService.initialize, GenerationService.initialize_enter,
      GenerationService.initialize_resume, bind. cbn.
    rewrite Hfail, Hload. cbn. eexists _, _. split_conj; try reflexivity.
    count_events.
  - intros -> Hfail [Hav | (Hclient & Hcoll)]; [discriminate|].
    unfold VectorStoreService.initialize,
      VectorStoreService.get_or_create_collection, call, bind. cbn.
    rewrite Hfail, Hclient. cbn.
    destruct (get_collection env') as [[] | e1]; cbn.
    + eexists _, _. split_conj; try reflexivity. count_events.
    + destruct Hcoll as [Hcoll | Hcoll]; [discriminate|]. rewrite Hcoll. cbn.
      eexists _, _. split_conj; try reflexivity. count_events.
Qed.

Lemma failed_load_can_be_retried_witness :
  exists s1 s2,
    EmbeddingService.initialize env_nothing_loads fresh_services
    = (Raise (Exception "OSError" "model not found"), s1)
    /\ embedding_initialized s1 = false
    /\ EmbeddingService.initialize Sample.env s1 = (Return tt, s2)
    /\ embedding_initialized s2 = true
    /\ count is_embedder_load s2
       = (count is_embedder_load fresh_services + 2)%nat.
Proof.
  apply (failed_load_can_be_retried env_nothing_loads Sample.env
           fresh_services (Exception "OSError" "model not found"));
    reflexivity.
Defined.

(** Property X5.  When the database opens, the vector store's
    [initialize] asks for the collection exactly once and creates it only
    when that request raises: with an existing collection nothing is
    created and the service is ready; otherwise the collection is created
    exactly once, and the service is ready when the creation answers and
    stays uninitialized, with the creation's exception raised, when it
    does not. *)
Theorem collection_is_created_only_when_missing env s :
  vector_store_initialized s = false ->
  PersistentClient env = Return tt ->
  let r := VectorStoreService.initialize env s in
  count is_chroma_get (snd r) = S (count is_chroma_get s)
  /\ (get_collection env = Return tt ->
      fst r = Return tt
      /\ vector_store_initialized (snd r) = true
      /\ count is_chroma_create (snd r) = count is_chroma_create s)
  /\ (forall e, get_collection env = Raise e ->
        count is_chroma_create (snd r) = S (count is_chroma_create s)
        /\ (create_collection env = Return tt ->
            fst r = Return tt /\ vector_store_initialized (snd r) = true)
        /\ (forall e2, create_collection env = Raise e2 ->
              fst r = Raise e2
              /\ vector_store_initialized (snd r) = false)).
Proof.
  destruct s as [fe fv fg evs]. cbn [vector_store_initialized].
  intros -> Hclient.
  unfold VectorStoreService.initialize,
    VectorStoreService.get_or_create_collection, call, bind. cbn.
  rewrite Hclient. cbn.
  destruct (get_collection env) as [[] | e1]; cbn.
  - split_conj; [count_events | |]; intros; [|discriminate].
    split_conj; [reflexivity | reflexivity | count_events].
  - destruct (create_collection env) as [[] | e2]; cbn.
    + split_conj; [count_events | discriminate |]. intros e _.
      split_conj; [count_events | |]; intros; [|discriminate].
      split; reflexivity.
    + split_conj; [count_events | discriminate |]. intros e _.
      split_conj; [count_events | discriminate |]. intros e3 H.
      injection H as <-. split; reflexivity.
Qed.

Lemma collection_is_created_only_when_missing_witness :
  let r := VectorStoreService.initialize env_new_database fresh_services in
  count is_chroma_create (snd r) = S (count is_chroma_create fresh_services)
  /\ (create_collection env_new_database = Return tt ->
      fst r = Return tt /\ vector_store_initialized (snd r) = true)
  /\ (forall e2, create_collection env_new_database = Raise e2 ->
        fst r = Raise e2 /\ vector_store_initialized (snd r) = false).
Proof.
  destruct (collection_is_created_only_when_missing env_new_database
              fresh_services) as (_ & _ & H); [reflexivity | reflexivity |].
  apply (H (Exception "ValueError" "Collection does not exist")).
  reflexivity.
Defined.

(** * Start-up *)

(** Property X6.  When the three back ends are available, the start-up of
    [lifespan] returns with the three services initialized, and the health
    check that follows answers [healthy] with both of its flags set and
    the configured version, without changing the state. *)
Theorem startup_makes_services_ready env s :
  embedder_available env s ->
  vector_store_available env s ->
  generator_available env s ->
  let s' := snd (lifespan_startup env s) in
  fst (lifespan_startup env s) = Return tt
  /\ all_ready s'
  /\ health_check s'
     = (Return {| status := "healthy";
                  version := app_version;
                  model_loaded := true;
                  vector_store_ready := true |}, s').
Proof.
  intros He Hv Hg. destruct s as [fe fv fg evs].
  assert (Hst : fe = false -> SentenceTransformer env = Return tt)
    by (destruct He as [He | He]; cbn in He; intros; congruence).
  assert (Hfp : fg = false -> from_pretrained env = Return tt)
    by (destruct Hg as [Hg | Hg]; cbn in Hg; intros; congruence).
  assert (Hpc : fv = false ->
                PersistentClient env = Return tt
                /\ (get_collection env = Return tt
                    \/ create_collection env = Return tt))
    by (destruct Hv as [Hv | Hv]; cbn in Hv; intros; [congruence | auto]).
  clear He Hv Hg.
  unfold lifespan_startup, try_except, EmbeddingService.initialize,
    EmbeddingService.initialize_enter, EmbeddingService.initialize_resume,
    VectorStoreService.initialize,
    VectorStoreService.get_or_create_collection,
    GenerationService.initialize, GenerationService.initialize_enter,
    GenerationService.initialize_resume, health_check, try_except, call, bind.
  destruct fe; [|rewrite (Hst eq_refl)];
    (destruct fg; [|rewrite (Hfp eq_refl)]);
    (destruct fv;
     [|destruct (Hpc eq_refl) as [-> Hcoll];
       destruct (get_collection env) as [[] |];
       [|destruct Hcoll as [Hcoll | Hcoll]; [discriminate | rewrite Hcoll]]]);
    cbn; repeat split.
Qed.

Lemma startup_makes_services_ready_witness :
  fst (lifespan_startup Sample.env fresh_services) = Return tt
  /\ all_ready (snd (lifespan_startup Sample.env fresh_services))
  /\ health_check (snd (lifespan_startup Sample.env fresh_services))
     = (Return {| status := "healthy";
                  version := app_version;
                  model_loaded := true;
                  vector_store_ready := true |},
        snd (lifespan_startup Sample.env fresh_services)).
Proof.
  apply (startup_makes_services_ready Sample.env fresh_services).
  - right. reflexivity.
  - right. split; [reflexivity | left; reflexivity].
  - right. reflexivity.
Defined.

(** Property X7.  The start-up stops at the first [initialize] that
    raises, logs the failure once and raises the same exception again:
    when the embedding model does not load, neither the database nor the
    language model is touched; when the database does not open, the
    embedding service is initialized, the vector store is not, and the
    language model is not touched. *)
Theorem startup_stops_at_the_first_failure env s e :
  (embedding_initialized s = false ->
   SentenceTransformer env = Raise e ->
   let s' := snd (lifespan_startup env s) in
   fst (lifespan_startup env s) = Raise e
   /\ embedding_initialized s' = false
   /\ vector_store_initialized s' = vector_store_initialized s
   /\ generation_initialized s' = generation_initialized s
   /\ count is_chroma s' = count is_chroma s
   /\ count is_llm_work s' = count is_llm_work s
   /\ count (is_log startup_failed_log) s'
      = S (count (is_log startup_failed_log) s))
  /\ (vector_store_initialized s = false ->
      embedder_available env s ->
      PersistentClient env = Raise e ->
      let s' := snd (lifespan_startup env s) in
      fst (lifespan_startup env s) = Raise e
      /\ embedding_initialized s' = true
      /\ vector_store_initialized s' = false
      /\ generation_initialized s' = generation_initialized s
      /\ count is_llm_work s' = count is_llm_work s
      /\ count (is_log startup_failed_log) s'
         = S (count (is_log startup_failed_log) s)).
Proof.
  destruct s as [fe fv fg evs]. cbn [embedding_initialized
    vector_store_initialized generation_initialized].
  unfold lifespan_startup, try_except, EmbeddingService.initialize,
    EmbeddingService.initialize_enter, EmbeddingService.initialize_resume,
    VectorStoreService.initialize,
    VectorStoreService.get_or_create_collection, call, bind.
  split.
  - intros -> Hfail. cbn. rewrite Hfail. cbn.
    split_conj; try reflexivity; count_events.
  - intros -> Hemb Hfail.
    assert (Hst : fe = false -> SentenceTransformer env = Return tt)
      by (destruct Hemb as [He | He]; cbn in He; intros; congruence).
    destruct fe; [|rewrite (Hst eq_refl)]; cbn; rewrite Hfail; cbn;
      split_conj; try reflexivity; count_events.
Qed.

Lemma startup_stops_at_the_first_failure_witness :
  let s' := snd (lifespan_startup env_nothing_loads fresh_services) in
  fst (lifespan_startup env_nothing_loads fresh_services)
  = Raise (Exception "OSError" "model not found")
  /\ embedding_initialized s' = false
  /\ vector_store_initialized s' = vector_store_initialized fresh_services
  /\ generation_initialized s' = generation_initialized fresh_services
  /\ count is_chroma s' = count is_chroma fresh_services
  /\ count is_llm_work s' = count is_llm_work fresh_services
  /\ count (is_log startup_failed_log) s'
     = S (count (is_log startup_failed_log) fresh_services).
Proof.
  apply (startup_stops_at_the_first_failure env_nothing_loads fresh_services
           (Exception "OSError" "model not found")); reflexivity.
Defined.

(** * More on [search] *)

Lemma first_row_lookup {A} (column : list (list A)) row :
  column !! 0%nat = Some row -> default [] (column !! 0%nat) = row.
Proof. now intros ->. Qed.

Lemma format_loop_aligned results min_score :
  forall range acc s out s',
    VectorStoreService.format_loop results min_score range acc s
      = (Return out, s') ->
    exists new, out = acc ++ new /\ Forall (aligned results) new.
Proof.
  induction range as [| i range IH]; intros acc s out s' H.
  - cbn in H. injection H as <- <-. exists []. now rewrite app_nil_r.
  - cbn [VectorStoreService.format_loop] in H.
    bind_inv H as ds sa Hds. apply subscript_Return_inv in Hds as [Hds ->].
    bind_inv H as d sb Hd. apply subscript_Return_inv in Hd as [Hd ->].
    bind_inv H as is_ sc His. apply subscript_Return_inv in His as [His ->].
    bind_inv H as id sd Hid. apply subscript_Return_inv in Hid as [Hid ->].
    bind_inv H as u se Hlog. clear Hlog.
    bind_inv H as formatted sf Hkeep.
    apply IH in H as (new & -> & Hnew).
    destruct (Float.leb min_score (Float.sub 1 d)).
    + bind_inv Hkeep as docs sg Hdocs.
      apply subscript_Return_inv in Hdocs as [Hdocs ->].
      bind_inv Hkeep as doc sh Hdoc.
      apply subscript_Return_inv in Hdoc as [Hdoc ->].
      bind_inv Hkeep as mds si Hmds.
      apply subscript_Return_inv in Hmds as [Hmds ->].
      bind_inv Hkeep as md sj Hmd.
      apply subscript_Return_inv in Hmd as [Hmd ->].
      injection Hkeep as <- <-.
      eexists. split; [rewrite <- app_assoc; reflexivity|].
      constructor; [|exact Hnew].
      exists i, id, d, doc, md.
      unfold ids0, distances0, documents0, metadatas0.
      rewrite (first_row_lookup _ _ His), (first_row_lookup _ _ Hds),
        (first_row_lookup _ _ Hdocs), (first_row_lookup _ _ Hmds).
      auto 10.
    + injection Hkeep as <- <-. eauto.
Qed.

(** Property X8.  Every result that [search] returns is built from one row
    of the answer of the index: its id, distance, document and metadata
    stand at the same position of the four columns, its score is one
    minus that distance, and there are at most as many results as ids in
    the answer. *)
Theorem search_results_are_aligned env query_text k min_score s out s' :
  VectorStoreService.search env query_text k min_score s = (Return out, s') ->
  exists emb results,
    collection_query env [emb] k = Return results
    /\ Forall (aligned results) out
    /\ (length out <= length (ids0 results))%nat.
Proof.
  intros H. pose proof H as Hrows.
  apply search_rows in Hrows as (emb0 & results0 & Hq0 & Hrows & _ & Hlen).
  apply search_Return_inv in H as (emb & results & s1 & s2 & Hq & H).
  exists emb, results. split; [exact Hq|].
  pose proof H as Hformat.
  apply format_results_rows in Hformat as (Hmap & _ & Hlen2).
  split.
  - unfold VectorStoreService.format_results in H.
    destruct (VectorStoreService.has_hits results).
    + apply format_loop_aligned in H as (new & -> & Hnew). exact Hnew.
    + injection H as <- <-. constructor.
  - rewrite <- Hlen2, <- (length_map row_of out), Hmap.
    apply filter_length_le.
Qed.

Lemma search_results_are_aligned_witness :
  exists emb results,
    collection_query Sample.env [emb] 3 = Return results
    /\ Forall (aligned results) [(Sample.clause_001, Float.sub 1 (1 # 10))]
    /\ (length [(Sample.clause_001, Float.sub 1 (1 # 10))]
        <= length (ids0 results))%nat.
Proof.
  apply (search_results_are_aligned Sample.env Sample.claim 3 (1 # 2)
           fresh_services [(Sample.clause_001, Float.sub 1 (1 # 10))]
           (snd (VectorStoreService.search Sample.env Sample.claim 3 (1 # 2)
                   fresh_services))).
  vm_compute. reflexivity.
Defined.

(** ** [search] returns on a complete answer *)

Lemma first_row_present {A} (column : list (list A)) i :
  (i < length (default [] (column !! 0%nat)))%nat ->
  column !! 0%nat = Some (default [] (column !! 0%nat)).
Proof.
  destruct (column !! 0%nat) as [row |]; [reflexivity | cbn; lia].
Qed.

Lemma subscript_Return {A} (l : list A) i x s :
  l !! i = Some x -> subscript l i s = (Return x, s).
Proof. unfold subscript. now intros ->. Qed.

Lemma format_loop_returns results min_score :
  complete_answer results ->
  forall len start acc s,
    (start + len <= length (ids0 results))%nat ->
    exists out s',
      VectorStoreService.format_loop results min_score (seq start len) acc s
      = (Return out, s').
Proof.
  intros (Hds & Hdocs & Hmds).
  induction len as [| len IH]; intros start acc s Hlen.
  - cbn. eauto.
  - cbn [seq VectorStoreService.format_loop].
    assert (Hi : (start < length (ids0 results))%nat) by lia.
    destruct (lookup_lt_is_Some_2 (ids0 results) start Hi) as [id Hid].
    destruct (lookup_lt_is_Some_2 (distances0 results) start) as [d Hd];
      [lia|].
    destruct (lookup_lt_is_Some_2 (documents0 results) start) as [doc Hdoc];
      [lia|].
    destruct (lookup_lt_is_Some_2 (metadatas0 results) start) as [md Hmd];
      [lia|].
    unfold bind at 1.
    rewrite (subscript_Return _ _ _ _
               (first_row_present (distances results) start ltac:(unfold distances0 in *; lia))).
    unfold bind at 1. fold (distances0 results).
    rewrite (subscript_Return _ _ _ _ Hd).
    unfold bind at 1.
    rewrite (subscript_Return _ _ _ _
               (first_row_present (ids results) start ltac:(unfold ids0 in *; lia))).
    unfold bind at 1. fold (ids0 results).
    rewrite (subscript_Return _ _ _ _ Hid).
    unfold bind at 1. cbn [logger emit].
    destruct (Float.leb min_score (Float.sub 1 d)).
    + unfold bind at 1. unfold bind at 1.
      rewrite (subscript_Return _ _ _ _
                 (first_row_present (documents results) start ltac:(unfold documents0 in *; lia))).
      unfold bind at 1. fold (documents0 results).
      rewrite (subscript_Return _ _ _ _ Hdoc).
      unfold bind at 1.
      rewrite (subscript_Return _ _ _ _
                 (first_row_present (metadatas results) start ltac:(unfold metadatas0 in *; lia))).
      unfold bind at 1. fold (metadatas0 results).
      rewrite (subscript_Return _ _ _ _ Hmd).
      cbn [ret]. apply IH. lia.
    + unfold bind at 1. cbn [ret]. apply IH. lia.
Qed.

Lemma has_hits_ids0 results :
  VectorStoreService.has_hits results = true ->
  VectorStoreService.hits results = length (ids0 results)
  /\ (0 < length (ids0 results))%nat.
Proof.
  unfold VectorStoreService.has_hits, VectorStoreService.hits, ids0.
  destruct (ids results) as [| row rest]; [discriminate|].
  cbn [lookup list_lookup default]. intros H. apply Nat.ltb_lt in H. auto.
Qed.

Lemma format_results_returns results min_score s :
  complete_answer results ->
  exists out s',
    VectorStoreService.format_results results min_score s = (Return out, s').
Proof.
  intros Hc. unfold VectorStoreService.format_results.
  destruct (VectorStoreService.has_hits results) eqn:Hh; [|cbn; eauto].
  destruct (has_hits_ids0 results Hh) as [-> _].
  apply format_loop_returns; [exact Hc | lia].
Qed.

Lemma report_all_filtered_returns results formatted s :
  complete_answer results ->
  exists s',
    VectorStoreService.report_all_filtered results formatted s
    = (Return tt, s').
Proof.
  intros (Hds & _). unfold VectorStoreService.report_all_filtered.
  destruct formatted; [|cbn; eauto].
  destruct (VectorStoreService.has_hits results) eqn:Hh; [|cbn; eauto].
  destruct (has_hits_ids0 results Hh) as [_ Hpos].
  destruct (lookup_lt_is_Some_2 (distances0 results) 0) as [d Hd]; [lia|].
  unfold bind at 1.
  rewrite (subscript_Return _ _ _ _
             (first_row_present (distances results) 0
                ltac:(unfold distances0 in *; lia))).
  unfold bind at 1. fold (distances0 results).
  rewrite (subscript_Return _ _ _ _ Hd). cbn. eauto.
Qed.

(** Property X9.  [search] returns (it raises nothing) when the vector
    store and the embedding model are available, the model encodes the
    query, and the index answers with columns that hold a distance, a
    document and a metadata for every id. *)
Theorem search_returns_on_complete_answers env query_text k min_score s :
  vector_store_available env s ->
  embedder_available env s ->
  (exists embs, model_encode env [query_text] = Return embs) ->
  (forall emb, exists results,
      collection_query env [emb] k = Return results
      /\ complete_answer results) ->
  exists out s',
    VectorStoreService.search env query_text k min_score s = (Return out, s').
Proof.
  intros Hvs Hemb [embs Henc] Hindex.
  apply vector_store_initialize_returns in Hvs.
  apply returns_inv in Hvs as ([] & s1 & Hinit & Hlater1 & _).
  assert (Hemb1 : embedder_available env
                    (snd (logger "info" "Searching vector store" s1))).
  { eapply embedder_available_later; [exact Hemb|].
    eapply later_trans; [exact Hlater1 | apply later_emit]. }
  apply (encode_single_returns env query_text embs) in Hemb1; [|exact Henc].
  apply returns_inv in Hemb1 as (emb & s2 & Hencode & _).
  destruct (Hindex emb) as (results & Hq & Hcomplete).
  unfold VectorStoreService.search, track_vector_search, track,
    VectorStoreService.search_body.
  unfold bind at 1 2. cbn [VectorStoreService.is_initialized].
  rewrite Hinit.
  unfold bind at 1. cbn [logger emit]. cbn [snd logger emit] in Hencode.
  unfold bind at 1. rewrite Hencode.
  unfold bind at 1. unfold call at 1. unfold bind at 1. cbn [emit].
  rewrite Hq.
  unfold bind at 1. cbn [ret].
  match goal with
  | |- context [VectorStoreService.format_results results min_score ?st] =>
      destruct (format_results_returns results min_score st Hcomplete)
        as (out & s3 & ->)
  end.
  unfold bind at 1.
  destruct (report_all_filtered_returns results out s3 Hcomplete)
    as (s4 & ->).
  cbn. eauto.
Qed.

Lemma sample_answer_complete n :
  complete_answer (Sample.first_n n Sample.ranked).
Proof.
  unfold complete_answer, ids0, distances0, documents0, metadatas0. cbn.
  rewrite !length_take. cbn. lia.
Qed.

Lemma search_returns_on_complete_answers_witness :
  exists out s',
    VectorStoreService.search Sample.env Sample.claim 3 (1 # 2)
      fresh_services = (Return out, s').
Proof.
  apply (search_returns_on_complete_answers Sample.env Sample.claim 3
           (1 # 2) fresh_services).
  - right. split; [reflexivity | left; reflexivity].
  - right. reflexivity.
  - eexists. reflexivity.
  - intros emb. eexists. split; [reflexivity|]. apply sample_answer_complete.
Defined.

(** * Footprints of the initializations *)

Section InitializeFootprint.

Variable ok : Event -> bool.

Lemma footprint_set_flag (set : M unit) :
  (forall s, events (snd (set s)) = events s) ->
  guarantee any_state ok set.
Proof.
  intros Hev s _. split; [exact I|]. exists []. now rewrite app_nil_r.
Qed.

Lemma footprint_embedding_initialize env :
  accepts ok embedding_initialize_events ->
  guarantee any_state ok (EmbeddingService.initialize env).
Proof.
  intros Hok. pose proof any_state_blind as Hblind.
  pose proof (footprint_set_flag EmbeddingService.set_initialized
                (fun s => eq_refl)).
  unfold EmbeddingService.initialize, EmbeddingService.initialize_enter,
    EmbeddingService.initialize_resume.
  apply guarantee_bind; [|intros suspended; guarantee_steps].
  apply guarantee_bind; [now apply guarantee_unchanged | intros init].
  guarantee_steps.
Qed.

Lemma footprint_generation_initialize env :
  accepts ok generation_initialize_events ->
  guarantee any_state ok (GenerationService.initialize env).
Proof.
  intros Hok. pose proof any_state_blind as Hblind.
  pose proof (footprint_set_flag GenerationService.set_initialized
                (fun s => eq_refl)).
  unfold GenerationService.initialize, GenerationService.initialize_enter,
    GenerationService.initialize_resume.
  apply guarantee_bind; [|intros suspended; guarantee_steps].
  apply guarantee_bind; [now apply guarantee_unchanged | intros init].
  guarantee_steps.
Qed.

Lemma footprint_vector_store_initialize env :
  accepts ok vector_store_initialize_events ->
  guarantee any_state ok (VectorStoreService.initialize env).
Proof.
  intros Hok s _. split; [exact I|]. destruct s as [fe fv fg evs].
  unfold VectorStoreService.initialize,
    VectorStoreService.get_or_create_collection, call, bind, logger, emit.
  destruct fv; cbn; [exists []; now rewrite app_nil_r|].
  destruct (PersistentClient env) as [u | e]; cbn.
  - destruct (get_collection env) as [u1 | e1]; cbn;
      [|destruct (create_collection env) as [u2 | e2]; cbn];
      rewrite <- ?app_assoc; cbn; eexists; (split; [reflexivity|]);
      cbn; rewrite ?Hok; reflexivity.
  - rewrite <- ?app_assoc; cbn; eexists; (split; [reflexivity|]);
      cbn; rewrite ?Hok; reflexivity.
Qed.

End InitializeFootprint.

Ltac accepts_by_names :=
  let ev := fresh "ev" in
  let H := fresh "H" in
  intros ev H; destruct ev; cbn in H |- *;
  try discriminate; try reflexivity;
  repeat match goal with
         | H : (_ || _) = true |- _ => apply orb_true_iff in H as [H | H]
         end;
  apply String.eqb_eq in H; subst; reflexivity.

(** * The log line of a threshold that removes everything *)

Lemma report_all_filtered_count results formatted s s' :
  VectorStoreService.report_all_filtered results formatted s
    = (Return tt, s') ->
  count (is_log all_filtered_log) s'
  = (count (is_log all_filtered_log) s
     + if VectorStoreService.has_hits results && negb (truthy_list formatted)
       then 1 else 0)%nat.
Proof.
  unfold VectorStoreService.report_all_filtered.
  destruct formatted as [| r formatted]; cbn [truthy_list negb].
  - destruct (VectorStoreService.has_hits results); cbn [andb].
    + intros H.
      bind_inv H as ds sa Hds. apply subscript_Return_inv in Hds as [_ ->].
      bind_inv H as d sb Hd. apply subscript_Return_inv in Hd as [_ ->].
      injection H as <-. count_events.
    + intros H. injection H as <-. lia.
  - rewrite andb_false_r. intros H. injection H as <-. lia.
Qed.

Ltac same_count H :=
  match type of H with
  | ?m ?s = (_, ?s') =>
      let Hc := fresh "Hcount" in
      assert (Hc : count (is_log all_filtered_log) s'
                   = count (is_log all_filtered_log) s);
      [ eapply (guarantee_count_run any_state not_filtered_log);
        [ | exact I | | exact H ];
        [ | intros ev; unfold not_filtered_log;
            destruct (is_log all_filtered_log ev); [discriminate | reflexivity] ]
      | ]
  end.

(** Property X10.  A returning [search] writes the log line on results all
    filtered out exactly once when the index answered with at least one
    id and no result passed [min_score], and never otherwise. *)
Theorem all_filtered_log_is_written_once env query_text k min_score s out s' :
  VectorStoreService.search env query_text k min_score s = (Return out, s') ->
  exists emb results,
    collection_query env [emb] k = Return results
    /\ count (is_log all_filtered_log) s'
       = (count (is_log all_filtered_log) s
          + if VectorStoreService.has_hits results && negb (truthy_list out)
            then 1 else 0)%nat.
Proof.
  pose proof any_state_blind as Hblind.
  unfold VectorStoreService.search, track_vector_search, track.
  destruct (VectorStoreService.search_body env query_text k min_score s)
    as [[out1 | e] s1] eqn:H; cbn; intros Hrun; [|discriminate].
  injection Hrun as -> <-.
  unfold VectorStoreService.search_body in H.
  bind_inv H as init sa Hinit.
  bind_inv H as u1 sb Hwhen.
  bind_inv H as u2 sc Hlog.
  bind_inv H as emb sd Hemb.
  bind_inv H as results se Hquery.
  bind_inv H as formatted sf Hformat.
  bind_inv H as u3 sg Hreport.
  bind_inv H as u4 sh Hdone.
  injection H as -> <-.
  assert (Hq : collection_query env [emb] k = Return results).
  { unfold call, bind in Hquery. cbn in Hquery.
    destruct (collection_query env [emb] k); [|discriminate].
    now injection Hquery as ->. }
  exists emb, results. split; [exact Hq|].
  destruct u3. apply report_all_filtered_count in Hreport.
  injection Hinit as _ <-.
  same_count Hwhen.
  { apply guarantee_when, footprint_vector_store_initialize.
    accepts_by_names. }
  same_count Hlog. { apply guarantee_emit; [exact Hblind | reflexivity]. }
  same_count Hemb.
  { apply guarantee_encode_single; [exact Hblind | accepts_by_names |].
    intros env0. apply footprint_embedding_initialize. accepts_by_names. }
  same_count Hquery. { apply guarantee_call; [exact Hblind | reflexivity]. }
  same_count Hformat.
  { apply guarantee_format_results; [exact Hblind | accepts_by_names]. }
  same_count Hdone. { apply guarantee_emit; [exact Hblind | reflexivity]. }
  unfold count in *. cbn [events emit snd].
  rewrite !List.filter_app, !length_app. cbn. lia.
Qed.

Lemma all_filtered_log_is_written_once_witness :
  exists emb results,
    collection_query Sample.env [emb] 3 = Return results
    /\ count (is_log all_filtered_log)
         (snd (VectorStoreService.search Sample.env Sample.claim 3 (95 # 100)
                 fresh_services))
       = (count (is_log all_filtered_log) fresh_services
          + if VectorStoreService.has_hits results
               && negb (truthy_list (@nil (ClauseDict * Q)))
            then 1 else 0)%nat.
Proof.
  apply (all_filtered_log_is_written_once Sample.env Sample.claim 3
           (95 # 100) fresh_services []).
  vm_compute. reflexivity.
Defined.

(** * Metrics *)

Lemma track_counts {A} counter histogram (m : M A) s
    (p_inc p_observe : Event -> bool) :
  p_inc (Metric_inc counter) = true ->
  p_inc (Metric_observe histogram) = false ->
  p_observe (Metric_inc counter) = false ->
  p_observe (Metric_observe histogram) = true ->
  count p_inc (snd (m s)) = count p_inc s ->
  count p_observe (snd (m s)) = count p_observe s ->
  let r := track counter histogram m s in
  fst r = fst (m s)
  /\ count p_observe (snd r) = S (count p_observe s)
  /\ count p_inc (snd r)
     = (count p_inc s + if is_return (fst r) then 1 else 0)%nat.
Proof.
  intros Hii Hio Hoi Hoo Hinc Hobs. unfold track.
  destruct (m s) as [[a | e] s1]; cbn in *; unfold count in *; cbn;
    rewrite ?List.filter_app, ?length_app; cbn;
    rewrite ?Hii, ?Hio, ?Hoi, ?Hoo; cbn;
    (split_conj; [reflexivity | lia | lia]).
Qed.

Lemma search_metric_excluded ev :
  not_search_metric ev = true ->
  is_metric_inc search_total ev = false
  /\ is_metric_observe search_duration ev = false.
Proof.
  unfold not_search_metric, search_metric_events, search_total,
    search_duration.
  destruct (is_metric_inc _ ev), (is_metric_observe _ ev); cbn; auto;
    discriminate.
Qed.

Lemma embedding_metric_excluded ev :
  not_embedding_metric ev = true ->
  is_metric_inc embedding_total ev = false
  /\ is_metric_observe embedding_duration ev = false.
Proof.
  unfold not_embedding_metric.
  destruct (is_metric_inc _ ev), (is_metric_observe _ ev); cbn; auto;
    discriminate.
Qed.

(** Property X11.  The decorators of [search] and [encode] let the outcome
    of the decorated body through unchanged, the value returned or the
    exception raised, record its duration exactly once whether the body
    returns or raises, and count the operation exactly when the body
    returns. *)
Theorem tracked_calls_are_recorded_once env s :
  (forall q k min_score,
      let r := VectorStoreService.search env q k min_score s in
      fst r = fst (VectorStoreService.search_body env q k min_score s)
      /\ count (is_metric_observe search_duration) (snd r)
         = S (count (is_metric_observe search_duration) s)
      /\ count (is_metric_inc search_total) (snd r)
         = (count (is_metric_inc search_total) s
            + if is_return (fst r) then 1 else 0)%nat)
  /\ (forall texts,
         let r := EmbeddingService.encode env texts s in
         fst r = fst (EmbeddingService.encode_body env texts s)
         /\ count (is_metric_observe embedding_duration) (snd r)
            = S (count (is_metric_observe embedding_duration) s)
         /\ count (is_metric_inc embedding_total) (snd r)
            = (count (is_metric_inc embedding_total) s
               + if is_return (fst r) then 1 else 0)%nat).
Proof.
  pose proof any_state_blind as Hblind.
  split.
  - intros q k min_score.
    assert (Hbody : guarantee any_state not_search_metric
                      (VectorStoreService.search_body env q k min_score)).
    { apply guarantee_search_body; try exact Hblind; try accepts_by_names.
      - intros env0. apply footprint_embedding_initialize. accepts_by_names.
      - intros env0. apply footprint_vector_store_initialize.
        accepts_by_names. }
    destruct (track_counts search_total search_duration
                (VectorStoreService.search_body env q k min_score) s
                (is_metric_inc search_total)
                (is_metric_observe search_duration))
      as (H1 & H2 & H3); try reflexivity.
    + apply (guarantee_count any_state not_search_metric);
        [exact Hbody | exact I |].
      intros ev Hev. now apply search_metric_excluded.
    + apply (guarantee_count any_state not_search_metric);
        [exact Hbody | exact I |].
      intros ev Hev. now apply search_metric_excluded.
    + auto.
  - intros texts.
    assert (Hbody : guarantee any_state not_embedding_metric
                      (EmbeddingService.encode_body env texts)).
    { apply guarantee_encode_body; try exact Hblind.
      - intros env0. apply footprint_embedding_initialize. accepts_by_names.
      - accepts_by_cases. }
    destruct (track_counts embedding_total embedding_duration
                (EmbeddingService.encode_body env texts) s
                (is_metric_inc embedding_total)
                (is_metric_observe embedding_duration))
      as (H1 & H2 & H3); try reflexivity.
    + apply (guarantee_count any_state not_embedding_metric);
        [exact Hbody | exact I |].
      intros ev Hev. now apply embedding_metric_excluded.
    + apply (guarantee_count any_state not_embedding_metric);
        [exact Hbody | exact I |].
      intros ev Hev. now apply embedding_metric_excluded.
    + auto.
Qed.

(** * The responses of the handler *)

Lemma policy_clause_of_spec env r s :
  policy_clause_of env r s
  = if valid_score (relevance_score (fst r))
    then (Return (to_policy_clause (fst r)), s)
    else (Raise (validation_error env (relevance_score (fst r))), s).
Proof.
  destruct r as [d sc]. unfold policy_clause_of, PolicyClause_validate,
    valid_score. cbn [fst]. now destruct (_ && _).
Qed.

(** The comprehension stops at the first result that is rejected. *)
Lemma comprehension_validate_spec env out : forall s,
  comprehension (policy_clause_of env) out s
  = match first_rejected out with
    | None => (Return (map (fun r => to_policy_clause (fst r)) out), s)
    | Some r => (Raise (validation_error env (relevance_score (fst r))), s)
    end.
Proof.
  unfold first_rejected.
  induction out as [| r out IH]; intros s; [reflexivity|].
  cbn [comprehension List.find]. unfold bind at 1.
  rewrite policy_clause_of_spec.
  destruct (valid_score (relevance_score (fst r))); cbn [negb]; [|reflexivity].
  unfold bind at 1. rewrite IH.
  now destruct (List.find _ out).
Qed.

Lemma first_rejected_None out :
  first_rejected out = None ->
  Forall (fun r => valid_score (relevance_score (fst r)) = true) out.
Proof.
  unfold first_rejected. intros H. apply Forall_forall. intros r Hr.
  apply list_elem_of_In in Hr.
  pose proof (List.find_none _ _ H r Hr) as Hv. cbn in Hv.
  now apply negb_false_iff in Hv.
Qed.

Lemma first_rejected_Some out r :
  first_rejected out = Some r ->
  r ∈ out /\ valid_score (relevance_score (fst r)) = false.
Proof.
  unfold first_rejected. intros H. apply List.find_some in H as [Hr Hv].
  split; [now apply list_elem_of_In | now apply negb_true_iff in Hv].
Qed.

Lemma first_rejected_exists out :
  Exists (fun r => valid_score (relevance_score (fst r)) = false) out ->
  exists r, first_rejected out = Some r.
Proof.
  intros H. destruct (first_rejected out) as [r |] eqn:E; [eauto|].
  apply first_rejected_None in E. rewrite Forall_forall in E.
  apply Exists_exists in H as (r & Hr & Hv). rewrite (E r Hr) in Hv.
  discriminate.
Qed.

(** On a float, the test of [PolicyClause] is the one on its value. *)
Lemma valid_score_spec score :
  Float.round score = score ->
  valid_score score = true <-> (0 <= score)%Q /\ (score <= 1)%Q.
Proof.
  intros Hr. unfold valid_score.
  rewrite andb_true_iff, !float_leb_spec, Hr, round_0, round_1. tauto.
Qed.

(** The scores that [search] returns are floats. *)
Lemma search_scores_rounded env query_text k min_score s out s' :
  VectorStoreService.search env query_text k min_score s = (Return out, s') ->
  Forall (fun r => relevance_score (fst r) = snd r
                   /\ Float.round (snd r) = snd r) out.
Proof.
  intros H.
  apply search_rows in H as (emb & results & _ & Hrows & Hscore & _).
  rewrite Forall_forall in Hscore. apply Forall_forall. intros r Hr.
  split; [exact (Hscore r Hr)|].
  destruct (kept_row _ _ _ _ Hrows Hr) as [Hraw _].
  apply raw_rows_lookup in Hraw as (i & d & _ & _ & Hsc).
  rewrite Hsc. apply float_sub_rounded.
Qed.

(** Property X12.  The search handler turns the outcome of its [try] body
    into its own.  What the body returns is returned: the response echoes
    the claim description, gives as total the number of its clauses, holds
    only clauses with a score from 0 to 1, and carries an analysis only
    when the request enabled it and at least one clause was found.  When
    the body raises an exception, of the search, of the validation or of
    the generation, the handler writes its error log as the last event
    and raises the HTTP error 500 whose detail is [Internal server
    error: ] followed by the text of that very exception. *)
Theorem handler_outcomes env request s :
  match fst (search_policies_body env request s) with
  | Return response =>
      fst (search_policies env request s) = Return response
      /\ query response = claim_description request
      /\ total_results response = length (results response)
      /\ Forall (fun c => (0 <= pc_relevance_score c)%Q
                          /\ (pc_relevance_score c <= 1)%Q)
                (results response)
      /\ (analysis response <> None ->
          is_enable_rag request = Some true /\ results response <> [])
  | Raise cause =>
      fst (search_policies env request s)
      = Raise (HTTPException 500
                 ("Internal server error: " ++ str_exn cause)%string)
      /\ events (snd (search_policies env request s))
         = events (snd (search_policies_body env request s))
           ++ [Log "error" search_failed_log]
  end.
Proof.
  unfold search_policies, try_except.
  destruct (search_policies_body env request s) as [[response | e] s1] eqn:H;
    cbn [fst snd].
  - unfold search_policies_body in H.
    bind_inv H as u sa Hlog.
    bind_inv H as out sb Hsearch.
    bind_inv H as clauses sc Hvalid.
    bind_inv H as text sd Hgen.
    bind_inv H as u2 se Hlog2.
    injection H as <- _. cbn.
    rewrite comprehension_validate_spec in Hvalid.
    destruct (first_rejected out) eqn:Hfirst; [discriminate|].
    injection Hvalid as <- _.
    apply first_rejected_None in Hfirst. rewrite Forall_forall in Hfirst.
    apply search_scores_rounded in Hsearch.
    rewrite Forall_forall in Hsearch.
    split_conj; try reflexivity.
    + apply Forall_forall. intros c Hc.
      apply list_elem_of_fmap in Hc as (r & -> & Hr). cbn.
      destruct (Hsearch r Hr) as [Hscore Hround].
      apply valid_score_spec; [now rewrite Hscore | now apply Hfirst].
    + intros Hsome. unfold generation_step in Hgen.
      destruct (truthy_bool (is_enable_rag request)) eqn:Hrag; cbn in Hgen.
      * destruct (truthy_list _) eqn:Hlist.
        -- split.
           ++ destruct (is_enable_rag request) as [[|] |]; cbn in Hrag;
                congruence.
           ++ intros Hnil. rewrite Hnil in Hlist. discriminate.
        -- injection Hgen as <- _. congruence.
      * injection Hgen as <- _. congruence.
  - split; reflexivity.
Qed.

(** Property X13.  When [search] returns a result whose score is outside
    0 to 1 (a distance below 0 can give a score above 1), the validation
    of [PolicyClause] fails on the first such result and the handler
    answers with the HTTP error 500 for the whole request, its detail
    being [Internal server error: ] followed by the text that pydantic
    wrote for that score; nothing runs between the search and the
    handler's error log, so that no analysis is generated. *)
Theorem invalid_score_fails_the_request env request s out s1 :
  VectorStoreService.search env (claim_description request)
    (or_int (max_results request) settings.max_results)
    (or_float (min_score request) 0)
    (snd (logger "info" "Policy search request received" s))
  = (Return out, s1) ->
  Exists (fun r => ~ ((0 <= snd r)%Q /\ (snd r <= 1)%Q)) out ->
  exists r,
    first_rejected out = Some r
    /\ r ∈ out
    /\ ~ ((0 <= snd r)%Q /\ (snd r <= 1)%Q)
    /\ fst (search_policies env request s)
       = Raise (HTTPException 500
                  ("Internal server error: "
                   ++ PolicyClause_error env (snd r))%string)
    /\ events (snd (search_policies env request s))
       = events s1 ++ [Log "error" search_failed_log].
Proof.
  intros Hsearch Hbad.
  pose proof (search_scores_rounded _ _ _ _ _ _ _ Hsearch) as Hscore.
  rewrite Forall_forall in Hscore.
  destruct (first_rejected_exists out) as [r Hfirst].
  { apply Exists_exists in Hbad as (r & Hr & Hnot).
    apply Exists_exists. exists r. split; [exact Hr|].
    destruct (Hscore r Hr) as [Hrel Hround].
    apply not_true_is_false. intros Hv. apply Hnot.
    rewrite Hrel in Hv. now apply valid_score_spec in Hv. }
  pose proof (first_rejected_Some out r Hfirst) as [Hr Hv].
  destruct (Hscore r Hr) as [Hrel Hround].
  assert (Hrun : search_policies env request s
                 = internal_server_error (validation_error env (snd r)) s1).
  { unfold search_policies, try_except, search_policies_body.
    unfold bind at 1. cbn [logger emit]. cbn [logger emit snd] in Hsearch.
    unfold bind at 1. rewrite Hsearch.
    unfold bind at 1. rewrite comprehension_validate_spec, Hfirst, Hrel.
    reflexivity. }
  exists r. split_conj; auto.
  - intros Hin. rewrite Hrel in Hv.
    apply (valid_score_spec _ Hround) in Hin. congruence.
  - now rewrite Hrun.
  - now rewrite Hrun.
Qed.

Lemma invalid_score_fails_the_request_witness :
  exists r,
    first_rejected
      [({| clause_id := "CLAUSE_001";
           clause_text := Sample.clause_001_text;
           policy_type := Some "Auto Insurance";
           section := Some "Coverage";
           relevance_score := Float.sub 1 (- (1 # 1000000)) |},
        Float.sub 1 (- (1 # 1000000)))] = Some r
    /\ r ∈ [({| clause_id := "CLAUSE_001";
                clause_text := Sample.clause_001_text;
                policy_type := Some "Auto Insurance";
                section := Some "Coverage";
                relevance_score := Float.sub 1 (- (1 # 1000000)) |},
             Float.sub 1 (- (1 # 1000000)))]
    /\ ~ ((0 <= snd r)%Q /\ (snd r <= 1)%Q)
    /\ fst (search_policies env_negative_distance Sample.request
              fresh_services)
       = Raise (HTTPException 500
                  ("Internal server error: "
                   ++ PolicyClause_error env_negative_distance (snd r))%string)
    /\ events (snd (search_policies env_negative_distance Sample.request
                      fresh_services))
       = events
           (snd (VectorStoreService.search env_negative_distance Sample.claim
                   3 (1 # 2)
                   (snd (logger "info" "Policy search request received"
                           fresh_services))))
         ++ [Log "error" search_failed_log].
Proof.
  pose (r := VectorStoreService.search env_negative_distance Sample.claim 3
               (1 # 2)
               (snd (logger "info" "Policy search request received"
                       fresh_services))).
  apply (invalid_score_fails_the_request env_negative_distance
           Sample.request fresh_services
           [({| clause_id := "CLAUSE_001";
                clause_text := Sample.clause_001_text;
                policy_type := Some "Auto Insurance";
                section := Some "Coverage";
                relevance_score := Float.sub 1 (- (1 # 1000000)) |},
             Float.sub 1 (- (1 # 1000000)))] (snd r)).
  - vm_compute. reflexivity.
  - constructor. cbn [snd]. intros [_ H]. revert H. vm_compute.
    intros H. apply H. reflexivity.
Defined.

(** * The extracted answer *)

(** The piece being read is only ever a prefix of the first piece. *)
Lemma split_scan_piece sep : forall s skip piece,
  split_scan sep skip piece s
  = match split_scan sep skip "" s with
    | [] => []
    | x :: rest => (piece ++ x)%string :: rest
    end.
Proof.
  induction s as [| c s IH]; intros skip piece; cbn [split_scan].
  - now rewrite append_nil_r.
  - destruct skip as [| skip]; [|apply IH].
    destruct (String.prefix sep (String c s)).
    + now rewrite append_nil_r.
    + rewrite (IH 0%nat (piece ++ String c "")%string),
        (IH 0%nat ("" ++ String c "")%string).
      destruct (split_scan sep 0 "" s) as [| x rest]; [reflexivity|].
      now rewrite append_nil_l, append_assoc.
Qed.

Lemma split_scan_single sep : forall s piece x,
  split_scan sep 0 piece s = [x] -> x = (piece ++ s)%string.
Proof.
  induction s as [| c s IH]; intros piece x H; cbn [split_scan] in H.
  - injection H as <-. now rewrite append_nil_r.
  - destruct (String.prefix sep (String c s)).
    + injection H as _ H. exfalso. exact (split_scan_nonempty _ _ _ _ H).
    + apply IH in H as ->.
      now rewrite append_assoc, append_String, append_nil_l.
Qed.

Lemma occurs_String sep c s :
  occurs sep (String c s) ->
  String.prefix sep (String c s) = true \/ occurs sep s.
Proof.
  intros (a & b & H). destruct a as [| c' a].
  - left. rewrite append_nil_l in H. rewrite H. apply prefix_append.
  - right. rewrite append_String in H. injection H as _ ->. now exists a, b.
Qed.

Lemma not_occurs_empty sep : sep <> ""%string -> ~ occurs sep "".
Proof.
  intros Hne (a & b & H). destruct a; [|discriminate].
  rewrite append_nil_l in H. destruct sep; [congruence | discriminate].
Qed.

(** The last piece of a split holds no separator. *)
Lemma last_piece_has_no_separator sep :
  sep <> ""%string ->
  forall s skip, ~ occurs sep (last_piece (split_scan sep skip "" s)).
Proof.
  intros Hne. induction s as [| c s IH]; intros skip; cbn [split_scan].
  - now apply not_occurs_empty.
  - destruct skip as [| skip]; [|apply IH].
    destruct (String.prefix sep (String c s)) eqn:Hp.
    + rewrite last_cons_nonempty by apply split_scan_nonempty. apply IH.
    + rewrite split_scan_piece.
      destruct (split_scan sep 0 "" s) as [| x [| y rest]] eqn:Hs.
      * exfalso. exact (split_scan_nonempty _ _ _ _ Hs).
      * pose proof (split_scan_single _ _ _ _ Hs) as Hx.
        rewrite append_nil_l in Hx. subst x.
        rewrite append_nil_l, append_String, append_nil_l.
        intros Hocc. apply occurs_String in Hocc as [Hocc | Hocc];
          [congruence|].
        apply (IH 0%nat). rewrite Hs. exact Hocc.
      * intros Hocc. apply (IH 0%nat). rewrite Hs. exact Hocc.
Qed.

Lemma occurs_inside sep l x r :
  occurs sep x -> occurs sep (l ++ x ++ r)%string.
Proof.
  intros (a & b & ->). exists (l ++ a)%string, (b ++ r)%string.
  now rewrite !append_assoc.
Qed.

(** The last piece is the end of the text. *)
Lemma last_piece_is_suffix sep : forall s skip piece,
  skip = 0%nat \/ piece = ""%string ->
  exists before,
    (piece ++ s)%string
    = (before ++ last_piece (split_scan sep skip piece s))%string.
Proof.
  induction s as [| c s IH]; intros skip piece Hskip; cbn [split_scan].
  - exists ""%string. now rewrite append_nil_r.
  - destruct skip as [| skip].
    + destruct (String.prefix sep (String c s)).
      * rewrite last_cons_nonempty by apply split_scan_nonempty.
        destruct (IH (String.length sep - 1)%nat ""%string) as [before Hb];
          [now right|].
        rewrite append_nil_l in Hb.
        exists (piece ++ String c before)%string.
        now rewrite append_assoc, append_String, <- Hb.
      * destruct (IH 0%nat (piece ++ String c "")%string) as [before Hb];
          [now left|].
        exists before. rewrite <- Hb.
        now rewrite append_assoc, append_String, append_nil_l.
    + destruct Hskip as [Hskip | ->]; [discriminate|].
      destruct (IH skip ""%string) as [before Hb]; [now right|].
      rewrite append_nil_l in Hb |- *.
      exists (String c before). now rewrite append_String, <- Hb.
Qed.

(** Property X14.  Whatever the language model wrote, the analysis
    extracted from it does not contain the marker [ANALYSIS:], neither
    starts nor ends with white space, and is a contiguous part of the
    model's text. *)
Theorem extracted_answer_is_clean full_response :
  let answer := GenerationService.extract_analysis full_response in
  ~ occurs GenerationService.answer_marker answer
  /\ starts_with_space answer = false
  /\ ends_with_space answer = false
  /\ exists before after,
       full_response = (before ++ answer ++ after)%string.
Proof.
  unfold GenerationService.extract_analysis, str_split.
  set (piece := last_piece _).
  destruct (strip_spec piece) as ((l & r & Hpiece & _ & _) & Hstart & Hend).
  split_conj; [| exact Hstart | exact Hend |].
  - intros Hocc.
    apply (last_piece_has_no_separator GenerationService.answer_marker
             ltac:(discriminate) full_response 0).
    fold piece. rewrite Hpiece. now apply occurs_inside.
  - destruct (last_piece_is_suffix GenerationService.answer_marker
                full_response 0 ""%string) as [before Hb]; [now left|].
    fold piece in Hb. rewrite append_nil_l in Hb.
    exists (before ++ l)%string, r.
    now rewrite Hb, Hpiece at 1; rewrite !append_assoc.
Qed.

Lemma build_prompt_ends_with_marker q context :
  exists pre,
    GenerationService.build_prompt q context
    = (pre ++ GenerationService.answer_marker)%string.
Proof.
  unfold GenerationService.build_prompt.
  eexists. rewrite <- !append_assoc. reflexivity.
Qed.

(** Property X15.  When the language model echoes the prompt and continues
    it with a completion that does not contain the marker, the analysis
    returned by [generate_analysis] is exactly that completion, stripped:
    the echoed prompt is cut off. *)
Theorem echoed_prompt_is_cut_off env q clauses s completion :
  clauses <> [] ->
  generator_available env s ->
  generate_and_decode env
    (GenerationService.build_prompt q (GenerationService.build_context clauses))
  = Return
      (GenerationService.build_prompt q
         (GenerationService.build_context clauses) ++ completion)%string ->
  ~ occurs GenerationService.answer_marker completion ->
  fst (GenerationService.generate_analysis env q clauses s)
  = Return (strip completion).
Proof.
  intros Hne Hav Hgen Hno.
  destruct (generate_analysis_run env q clauses s Hne Hav)
    as (s1 & evs & _ & _ & ->).
  unfold GenerationService.run_generation, call, bind, emit. cbn [fst snd].
  rewrite Hgen. cbn -[GenerationService.extract_analysis].
  unfold GenerationService.extract_analysis, str_split.
  destruct (build_prompt_ends_with_marker q
              (GenerationService.build_context clauses)) as [pre ->].
  rewrite append_assoc.
  rewrite (split_scan_last_marker completion Hno pre 0 "") by lia.
  reflexivity.
Qed.

Lemma echoed_prompt_is_cut_off_witness :
  fst (GenerationService.generate_analysis Sample.env
         "Is ANALYSIS: part of my claim?" [Sample.clause_001] fresh_services)
  = Return (strip (" Likely covered under CLAUSE_001." ++ LF)%string).
Proof.
  apply (echoed_prompt_is_cut_off Sample.env
           "Is ANALYSIS: part of my claim?" [Sample.clause_001]
           fresh_services).
  - discriminate.
  - right. reflexivity.
  - reflexivity.
  - apply occursb_false_not_occurs. vm_compute. reflexivity.
Defined.

(** * Ingest *)

Lemma comprehension_getitem_Return key (clauses : list (gmap string string)) s :
  Forall (fun clause => is_Some (clause !! key)) clauses ->
  exists values,
    comprehension (fun clause => getitem clause key) clauses s
    = (Return values, s)
    /\ Forall2 (fun (clause : gmap string string) v =>
                  clause !! key = Some v) clauses values.
Proof.
  induction 1 as [| clause clauses [v Hv] _ (values & IH & Hall)].
  - exists []. split; [reflexivity | constructor].
  - exists (v :: values). cbn [comprehension]. unfold bind at 1.
    unfold getitem at 1. rewrite Hv. cbn [ret].
    unfold bind at 1. rewrite IH. split; [reflexivity|].
    now constructor.
Qed.

Lemma comprehension_getitem_Raise key (clauses : list (gmap string string)) s :
  Exists (fun clause => clause !! key = None) clauses ->
  comprehension (fun clause => getitem clause key) clauses s
  = (Raise (key_error key), s).
Proof.
  induction 1 as [clause clauses Hnone | clause clauses _ IH];
    cbn [comprehension]; unfold bind at 1; unfold getitem at 1.
  - now rewrite Hnone.
  - destruct (clause !! key); [|reflexivity]. cbn [ret].
    unfold bind at 1. now rewrite IH.
Qed.

(** The start of every method of the vector store. *)
Lemma vector_store_ensure_initialized env s (p : Event -> bool) :
  vector_store_available env s ->
  (forall ev, vector_store_initialize_events ev = true -> p ev = false) ->
  exists s1,
    when_ (negb (vector_store_initialized s))
      (VectorStoreService.initialize env) s = (Return tt, s1)
    /\ later s s1
    /\ vector_store_initialized s1 = true
    /\ count p s1 = count p s.
Proof.
  intros Hav Hp.
  pose proof (vector_store_initialize_returns env s Hav) as H.
  apply returns_inv in H as ([] & s1 & Hrun & Hlater & Hflag).
  exists s1. split_conj; auto.
  eapply (guarantee_count_run any_state (fun ev => negb (p ev)));
    [ | exact I | | exact Hrun].
  - apply guarantee_when, footprint_vector_store_initialize.
    intros ev Hev. now rewrite (Hp ev Hev).
  - intros ev. now destruct (p ev).
Qed.

Lemma encode_returns env texts embs s :
  texts <> [] ->
  embedder_available env s ->
  model_encode env texts = Return embs ->
  exists s',
    EmbeddingService.encode env texts s = (Return embs, s')
    /\ count is_model_encode s' = S (count is_model_encode s).
Proof.
  intros Hne Hav Henc. destruct texts as [| t texts]; [congruence|].
  destruct s as [fe fv fg evs].
  unfold EmbeddingService.encode, track_embedding_operation, track,
    EmbeddingService.encode_body, EmbeddingService.initialize,
    EmbeddingService.initialize_enter, EmbeddingService.initialize_resume,
    call, bind.
  destruct fe; cbn.
  - rewrite Henc. cbn. eexists. split; [reflexivity | count_events].
  - destruct Hav as [Hav | Hav]; [discriminate|]. cbn in Hav.
    rewrite Hav. cbn. rewrite Henc. cbn.
    eexists. split; [reflexivity | count_events].
Qed.

Lemma not_embedder_at_initialize ev :
  vector_store_initialize_events ev = true -> is_embedder ev = false.
Proof. destruct ev; cbn; congruence. Qed.

Lemma not_encode_at_initialize ev :
  vector_store_initialize_events ev = true -> is_model_encode ev = false.
Proof. destruct ev; cbn; congruence. Qed.

(** Property X16.  [add_policy_clauses] on an empty list initializes the
    vector store when needed and returns at once: nothing is added and
    the embedding model is not touched. *)
Theorem ingest_of_nothing env collection_add s :
  vector_store_available env s ->
  let r := add_policy_clauses env collection_add [] s in
  fst r = Return None
  /\ vector_store_initialized (snd r) = true
  /\ count is_embedder (snd r) = count is_embedder s.
Proof.
  intros Hav.
  destruct (vector_store_ensure_initialized env s is_embedder Hav
              not_embedder_at_initialize) as (s1 & Hrun & _ & Hflag & Hcount).
  assert (Heq : add_policy_clauses env collection_add [] s
                = (Return None, s1)).
  { unfold add_policy_clauses. unfold bind at 1.
    cbn [VectorStoreService.is_initialized]. unfold bind at 1.
    now rewrite Hrun. }
  cbv zeta. rewrite Heq. auto.
Qed.

Lemma ingest_of_nothing_witness :
  let r := add_policy_clauses Sample.env accept_all [] fresh_services in
  fst r = Return None
  /\ vector_store_initialized (snd r) = true
  /\ count is_embedder (snd r) = count is_embedder fresh_services.
Proof.
  apply (ingest_of_nothing Sample.env accept_all fresh_services).
  right. split; [reflexivity | left; reflexivity].
Defined.

(** Property X17.  A clause without [clause_text] makes
    [add_policy_clauses] raise [KeyError] before the embedding model is
    touched.  When every clause has its text and one has no [clause_id],
    [KeyError] is raised only after the texts have been encoded, with one
    call of the model made. *)
Theorem ingest_with_missing_key env collection_add clauses s :
  vector_store_available env s ->
  (Exists (fun clause : gmap string string =>
             clause !! "clause_text" = None) clauses ->
   let r := add_policy_clauses env collection_add clauses s in
   fst r = Raise (key_error "clause_text")
   /\ count is_embedder (snd r) = count is_embedder s)
  /\ (Forall (fun clause : gmap string string =>
                is_Some (clause !! "clause_text")) clauses ->
      Exists (fun clause : gmap string string =>
                clause !! "clause_id" = None) clauses ->
      embedder_available env s ->
      (forall texts, exists embs, model_encode env texts = Return embs) ->
      let r := add_policy_clauses env collection_add clauses s in
      fst r = Raise (key_error "clause_id")
      /\ count is_model_encode (snd r) = S (count is_model_encode s)).
Proof.
  intros Hav. split.
  - intros Hmissing.
    destruct (vector_store_ensure_initialized env s is_embedder Hav
                not_embedder_at_initialize)
      as (s1 & Hrun & _ & _ & Hcount).
    eassert (Heq : add_policy_clauses env collection_add clauses s = _).
    { unfold add_policy_clauses. unfold bind at 1.
      cbn [VectorStoreService.is_initialized]. unfold bind at 1.
      rewrite Hrun. destruct clauses as [| c clauses]; [inversion Hmissing|].
      unfold bind at 1. cbn [logger emit]. unfold bind at 1.
      rewrite (comprehension_getitem_Raise "clause_text" _ _ Hmissing).
      reflexivity. }
    cbv zeta. rewrite Heq. cbn [fst snd]. split; [reflexivity|].
    rewrite <- Hcount. count_events.
  - intros Htexts Hmissing Hemb Henc.
    destruct (vector_store_ensure_initialized env s is_model_encode Hav
                not_encode_at_initialize)
      as (s1 & Hrun & Hlater & _ & Hcount).
    destruct clauses as [| c clauses]; [inversion Hmissing|].
    set (s2 := snd (logger "info" "Adding policy clauses to vector store"
                      s1)).
    destruct (comprehension_getitem_Return "clause_text" (c :: clauses)
                s2 Htexts) as (texts & Htext_run & Hall).
    assert (Hne : texts <> []) by (inversion Hall; discriminate).
    destruct (Henc texts) as [embs Hembs].
    assert (Hemb2 : embedder_available env s2).
    { eapply embedder_available_later; [exact Hemb|].
      eapply later_trans; [exact Hlater | apply later_emit]. }
    destruct (encode_returns env texts embs s2 Hne Hemb2 Hembs)
      as (s3 & Hencode & Hcount3).
    assert (Heq : add_policy_clauses env collection_add (c :: clauses) s
                  = (Raise (key_error "clause_id"), s3)).
    { unfold add_policy_clauses. unfold bind at 1.
      cbn [VectorStoreService.is_initialized]. unfold bind at 1.
      rewrite Hrun.
      unfold bind at 1. cbn [logger emit]. unfold bind at 1.
      fold s2. cbn [logger emit snd] in s2. fold s2.
      rewrite Htext_run.
      unfold bind at 1. rewrite Hencode.
      unfold bind at 1.
      now rewrite (comprehension_getitem_Raise "clause_id" _ _ Hmissing). }
    cbv zeta. rewrite Heq. cbn [fst snd]. split; [reflexivity|].
    rewrite Hcount3. subst s2. rewrite <- Hcount. count_events.
Qed.

Lemma ingest_with_missing_key_witness :
  let r := add_policy_clauses Sample.env accept_all
             [clause_without_text] fresh_services in
  fst r = Raise (key_error "clause_text")
  /\ count is_embedder (snd r) = count is_embedder fresh_services.
Proof.
  apply (ingest_with_missing_key Sample.env accept_all [clause_without_text]
           fresh_services).
  - right. split; [reflexivity | left; reflexivity].
  - constructor. reflexivity.
Defined.

Lemma clause_metadata_lookup (clause : gmap string string) :
  clause_metadata clause !! "policy_type"
  = Some (default ""%string (clause !! "policy_type"))
  /\ clause_metadata clause !! "section"
     = Some (default ""%string (clause !! "section"))
  /\ dom (clause_metadata clause)
     = ({["policy_type"; "section"]} : gset string).
Proof.
  unfold clause_metadata. split_conj.
  - apply lookup_insert_eq.
  - rewrite lookup_insert_ne by discriminate. apply lookup_insert_eq.
  - rewrite !dom_insert_L, dom_empty_L. set_solver.
Qed.

Lemma clause_metadata_rows (clauses : list (gmap string string)) :
  Forall2 (fun (clause metadata : gmap string string) =>
             metadata !! "policy_type"
             = Some (default ""%string (clause !! "policy_type"))
             /\ metadata !! "section"
                = Some (default ""%string (clause !! "section"))
             /\ dom metadata = ({["policy_type"; "section"]} : gset string))
          clauses (map clause_metadata clauses).
Proof.
  induction clauses as [| clause clauses IH]; cbn [map]; constructor.
  - apply clause_metadata_lookup.
  - exact IH.
Qed.

(** Property X18.  With both services available, every clause holding its
    text and its id, the model encoding and the collection accepting,
    [add_policy_clauses] adds once, with the four columns aligned on the
    clauses: the documents are the clause texts, the ids the clause ids,
    each metadata holds exactly [policy_type] and [section], empty when
    the clause has none, and the embeddings are what the model answered
    in one call for those documents. *)
Theorem ingest_stores_aligned_rows env collection_add clauses s :
  vector_store_available env s ->
  embedder_available env s ->
  clauses <> [] ->
  Forall (fun clause : gmap string string =>
            is_Some (clause !! "clause_text")
            /\ is_Some (clause !! "clause_id")) clauses ->
  (forall texts, exists embs, model_encode env texts = Return embs) ->
  (forall added, collection_add added = Return tt) ->
  exists added s',
    add_policy_clauses env collection_add clauses s
    = (Return (Some added), s')
    /\ Forall2 (fun (clause : gmap string string) document =>
                  clause !! "clause_text" = Some document)
               clauses (add_documents added)
    /\ Forall2 (fun (clause : gmap string string) id =>
                  clause !! "clause_id" = Some id)
               clauses (add_ids added)
    /\ Forall2 (fun (clause metadata : gmap string string) =>
                  metadata !! "policy_type"
                  = Some (default ""%string (clause !! "policy_type"))
                  /\ metadata !! "section"
                     = Some (default ""%string (clause !! "section"))
                  /\ dom metadata = ({["policy_type"; "section"]} : gset string))
               clauses (add_metadatas added)
    /\ model_encode env (add_documents added)
       = Return (add_embeddings added)
    /\ count is_model_encode s' = S (count is_model_encode s).
Proof.
  intros Hav Hemb Hne Hkeys Henc Hadd.
  assert (Htexts : Forall (fun clause : gmap string string =>
                             is_Some (clause !! "clause_text")) clauses)
    by (eapply Forall_impl; [exact Hkeys | now intros c [H _]]).
  assert (Hids : Forall (fun clause : gmap string string =>
                           is_Some (clause !! "clause_id")) clauses)
    by (eapply Forall_impl; [exact Hkeys | now intros c [_ H]]).
  destruct (vector_store_ensure_initialized env s is_model_encode Hav
              not_encode_at_initialize)
    as (s1 & Hrun & Hlater & _ & Hcount).
  destruct clauses as [| c clauses]; [congruence|].
  set (s2 := snd (logger "info" "Adding policy clauses to vector store" s1)).
  destruct (comprehension_getitem_Return "clause_text" (c :: clauses)
              s2 Htexts) as (texts & Htext_run & Hall_texts).
  assert (Htne : texts <> []) by (inversion Hall_texts; discriminate).
  destruct (Henc texts) as [embs Hembs].
  assert (Hemb2 : embedder_available env s2).
  { eapply embedder_available_later; [exact Hemb|].
    eapply later_trans; [exact Hlater | apply later_emit]. }
  destruct (encode_returns env texts embs s2 Htne Hemb2 Hembs)
    as (s3 & Hencode & Hcount3).
  destruct (comprehension_getitem_Return "clause_id" (c :: clauses)
              s3 Hids) as (ids_ & Hid_run & Hall_ids).
  eexists _, _. split.
  - unfold add_policy_clauses. unfold bind at 1.
    cbn [VectorStoreService.is_initialized]. unfold bind at 1.
    rewrite Hrun.
    unfold bind at 1. cbn [logger emit]. unfold bind at 1.
    fold s2. cbn [logger emit snd] in s2. fold s2.
    rewrite Htext_run.
    unfold bind at 1. rewrite Hencode.
    unfold bind at 1. rewrite Hid_run.
    rewrite Hadd. cbn. reflexivity.
  - cbn [add_documents add_ids add_metadatas add_embeddings].
    split_conj; auto.
    + apply (clause_metadata_rows (c :: clauses)).
    + unfold count in *. cbn [events emit snd].
      rewrite List.filter_app, length_app. cbn.
      rewrite Hcount3. subst s2. rewrite <- Hcount. count_events.
Qed.

Lemma sample_clauses_have_keys :
  Forall (fun clause : gmap string string =>
            is_Some (clause !! "clause_text")
            /\ is_Some (clause !! "clause_id")) sample_clauses.
Proof.
  repeat constructor; eexists; vm_compute; reflexivity.
Qed.

Lemma ingest_stores_aligned_rows_witness :
  exists added s',
    add_policy_clauses Sample.env accept_all sample_clauses fresh_services
    = (Return (Some added), s')
    /\ Forall2 (fun (clause : gmap string string) document =>
                  clause !! "clause_text" = Some document)
               sample_clauses (add_documents added)
    /\ Forall2 (fun (clause : gmap string string) id =>
                  clause !! "clause_id" = Some id)
               sample_clauses (add_ids added)
    /\ Forall2 (fun (clause metadata : gmap string string) =>
                  metadata !! "policy_type"
                  = Some (default ""%string (clause !! "policy_type"))
                  /\ metadata !! "section"
                     = Some (default ""%string (clause !! "section"))
                  /\ dom metadata = ({["policy_type"; "section"]} : gset string))
               sample_clauses (add_metadatas added)
    /\ model_encode Sample.env (add_documents added)
       = Return (add_embeddings added)
    /\ count is_model_encode s' = S (count is_model_encode fresh_services).
Proof.
  apply (ingest_stores_aligned_rows Sample.env accept_all sample_clauses
           fresh_services).
  - right. split; [reflexivity | left; reflexivity].
  - right. reflexivity.
  - discriminate.
  - exact sample_clauses_have_keys.
  - intros texts. eexists. reflexivity.
  - reflexivity.
Defined.

(** * From the index to the response *)

Lemma search_policies_Return_inv env request s response s' :
  search_policies env request s = (Return response, s') ->
  exists out s0 s1,
    VectorStoreService.search env (claim_description request)
      (or_int (max_results request) settings.max_results)
      (or_float (min_score request) 0) s0 = (Return out, s1)
    /\ results response = map (fun r => to_policy_clause (fst r)) out.
Proof.
  unfold search_policies, try_except.
  destruct (search_policies_body env request s) as [[r | e] s1] eqn:H.
  - intros Heq. injection Heq as -> ->.
    unfold search_policies_body in H.
    bind_inv H as u sa Hlog.
    bind_inv H as out sb Hsearch.
    bind_inv H as clauses sc Hvalid.
    bind_inv H as text sd Hgen.
    bind_inv H as u2 se Hlog2.
    injection H as <- _. cbn.
    rewrite comprehension_validate_spec in Hvalid.
    destruct (first_rejected out); [discriminate|].
    injection Hvalid as <- _. eauto.
  - unfold internal_server_error, bind. cbn. discriminate.
Qed.

(** Property X19.  The clauses of a response of the search handler are
    the rows of the index answer whose score, the float [1.0 - distance],
    is at least the threshold of the request (0 when the request gives
    none), with their ids and scores, in the order of the index, none
    lost and none added; the index was asked for the number of results of
    the request, or the configured maximum when the request gives
    none. *)
Theorem response_lists_the_kept_rows env request s response s' :
  search_policies env request s = (Return response, s') ->
  exists emb answer,
    collection_query env [emb]
      (or_int (max_results request) settings.max_results) = Return answer
    /\ map (fun c => (pc_clause_id c, pc_relevance_score c))
           (results response)
       = List.filter (keeps (or_float (min_score request) 0))
                     (raw_rows answer)
    /\ Forall (fun c =>
                 (Float.round (or_float (min_score request) 0)
                  <= pc_relevance_score c)%Q)
              (results response)
    /\ (length (results response) <= length (ids0 answer))%nat.
Proof.
  intros H.
  apply search_policies_Return_inv in H as (out & s0 & s1 & Hsearch & ->).
  pose proof (search_scores_rounded _ _ _ _ _ _ _ Hsearch) as Hround.
  apply search_rows in Hsearch as (emb & answer & Hq & Hrows & Hscore & Hlen).
  assert (Hmap : map (fun c => (pc_clause_id c, pc_relevance_score c))
                     (map (fun r => to_policy_clause (fst r)) out)
                 = List.filter (keeps (or_float (min_score request) 0))
                               (raw_rows answer)).
  { rewrite <- Hrows, List.map_map. apply List.map_ext_in.
    intros r Hr. unfold row_of. cbn. f_equal.
    rewrite Forall_forall in Hscore. apply Hscore, list_elem_of_In, Hr. }
  exists emb, answer. split_conj; auto.
  - apply Forall_forall. intros c Hc.
    apply list_elem_of_fmap in Hc as (r & -> & Hr). cbn.
    destruct (kept_row _ _ r out Hrows Hr) as [_ Hmin].
    rewrite Forall_forall in Hround. destruct (Hround r Hr) as [-> Hrd].
    apply float_leb_spec in Hmin. now rewrite Hrd in Hmin.
  - rewrite <- Hlen.
    rewrite <- (List.length_map (fun c => (pc_clause_id c, pc_relevance_score c))),
      Hmap.
    apply List.filter_length_le.
Qed.

Lemma response_lists_the_kept_rows_witness :
  exists response s' emb answer,
    search_policies Sample.env request_at_threshold fresh_services
    = (Return response, s')
    /\ map (fun c => (pc_clause_id c, pc_relevance_score c))
           (results response)
       = [("CLAUSE_001", Float.sub 1 (1 # 10))]
    /\ collection_query Sample.env [emb]
         (or_int (max_results request_at_threshold) settings.max_results)
       = Return answer
    /\ map (fun c => (pc_clause_id c, pc_relevance_score c))
           (results response)
       = List.filter (keeps (or_float (min_score request_at_threshold) 0))
                     (raw_rows answer)
    /\ Forall (fun c =>
                 (Float.round (or_float (min_score request_at_threshold) 0)
                  <= pc_relevance_score c)%Q)
              (results response)
    /\ (length (results response) <= length (ids0 answer))%nat.
Proof.
  pose (run := search_policies Sample.env request_at_threshold
                 fresh_services).
  pose (response := match fst run with
                    | Return response => response
                    | Raise _ => {| query := ""; results := [];
                                    analysis := None; total_results := 0 |}
                    end).
  assert (Hrun : run = (Return response, snd run))
    by (vm_compute; reflexivity).
  destruct (response_lists_the_kept_rows Sample.env request_at_threshold
              fresh_services response (snd run) Hrun)
    as (emb & answer & H).
  exists response, (snd run), emb, answer.
  split; [exact Hrun|]. split; [vm_compute; reflexivity | exact H].
Defined.

(** * The metrics of the middleware *)

Section Middleware.

Import MetricsMiddleware.

Lemma step_balance requests call_next i tasks m :
  let r := step requests call_next i (tasks, m) in
  (active_requests (snd r) + Z.of_nat (in_flight tasks)
   = active_requests m + Z.of_nat (in_flight (fst r)))%Z
  /\ (length (http_requests_total (snd r)) + answered tasks
      = length (http_requests_total m) + answered (fst r))%nat
  /\ (length (http_request_duration_seconds (snd r)) + answered tasks
      = length (http_request_duration_seconds m) + answered (fst r))%nat.
Proof.
  unfold step, in_flight, answered.
  destruct (tasks !! i) as [[| | outcome] |] eqn:Hi; cbn [fst snd];
    try (split_conj; lia).
  - pose proof (filter_length_insert is_suspended tasks i _ Suspended Hi).
    pose proof (filter_length_insert is_answered tasks i _ Suspended Hi).
    cbn in *. split_conj; lia.
  - destruct (call_next i) as [status_code | e]; cbn [dispatch_resume fst snd].
    + pose proof (filter_length_insert is_suspended tasks i _
                    (Finished (Return status_code)) Hi).
      pose proof (filter_length_insert is_answered tasks i _
                    (Finished (Return status_code)) Hi).
      cbn in *. rewrite !length_app. cbn. split_conj; lia.
    + pose proof (filter_length_insert is_suspended tasks i _
                    (Finished (Raise e)) Hi).
      pose proof (filter_length_insert is_answered tasks i _
                    (Finished (Raise e)) Hi).
      cbn in *. split_conj; lia.
Qed.

(** Property X20.  Under any interleaving of the requests going through
    [MetricsMiddleware], the gauge [active_requests] moves with the number
    of requests in flight, also for a request whose handler raises, and
    the request counter and the duration histogram get one sample for
    each request answered and none for a request that raised. *)
Theorem gauge_counts_requests_in_flight requests call_next schedule :
  forall tasks m,
    let r := run requests call_next schedule (tasks, m) in
    (active_requests (snd r) + Z.of_nat (in_flight tasks)
     = active_requests m + Z.of_nat (in_flight (fst r)))%Z
    /\ (length (http_requests_total (snd r)) + answered tasks
        = length (http_requests_total m) + answered (fst r))%nat
    /\ (length (http_request_duration_seconds (snd r)) + answered tasks
        = length (http_request_duration_seconds m) + answered (fst r))%nat.
Proof.
  unfold run.
  induction schedule as [| i schedule IH]; intros tasks m.
  - cbn [fold_left fst snd]. split_conj; lia.
  - cbn [fold_left].
    pose proof (step_balance requests call_next i tasks m) as Hstep.
    destruct (step requests call_next i (tasks, m)) as [tasks1 m1].
    cbn [fst snd] in Hstep. destruct Hstep as (H1 & H2 & H3).
    specialize (IH tasks1 m1). cbv zeta in *.
    destruct IH as (I1 & I2 & I3). split_conj; lia.
Qed.

End Middleware.
